(** * monitor.py: process sampler, forest builder and subtree aggregator

    A shallow embedding of [src/monitor/monitor.py].  The script samples the
    process table once per cycle ([monitor_like_task_manager]), keeps the I/O
    counters of the previous cycle to compute deltas, rebuilds the
    parent/child forest from the flat samples and walks every root with the
    recursive [log_process_tree], which writes one line per node and returns
    the totals of the subtree.  Also embedded: the resolver that picks the
    roots of the trees holding a target name, the waits of the main loop,
    the prompt for the interval and the disk column of a line.

    Conventions of the embedding:
    - Python [int] is [Z]; Python [float] is the kernel's binary64 [float]
      (same IEEE 754 operations as CPython's); where the script subtracts a
      float from the [int] of the prompt, the OverflowError of an [int] that
      is too large for a float is modelled ([py_float_of_int]);
    - a Python [dict] keyed by pid is a [gmap Z _], a [set] of pids a [gset Z];
    - the answers of the psutil collaborator (what each call returns or
      raises in this cycle) are data carried by the enumerated process;
    - [log_process_tree] is recursive on the process tree, not on a
      structure: it takes a fuel argument and reports [OutOfFuel] when it
      runs dry (the recursion limit of the interpreter is not modelled).
      Text written to the snapshot file is the list of lines the call
      returns, in the order they are written;
    - a name or a status is a string of 8-bit characters, and [len] counts
      characters;
    - column formatting of numbers (the [:.1f] of the f-strings) is not
      modelled: a line carries the values that are formatted, and the disk
      column takes the formatter as a parameter;
    - [str.lower] is a parameter of the resolver, and the loop over its
      queue takes fuel like [log_process_tree]. *)

From Stdlib Require Import Floats ZArith.
From stdpp Require Import gmap strings list sorting pretty relations.

Open Scope Z_scope.

(** ** Python values and exceptions *)

(** The exception classes the script tells apart in its [except] clauses. *)
Inductive exc :=
| NoSuchProcess
| AccessDenied
| NotImplementedError
| OSError
| OtherException.

(** What a call to the collaborator does: return a value or raise. *)
Inductive call_result (A : Type) :=
| Ok (a : A)
| Raises (e : exc).
Arguments Ok {A} a.
Arguments Raises {A} e.

(** An entry of the [proc.info] dict: the key may be missing, or hold
    [None] (psutil's [ad_value]), or hold a value. *)
Inductive dict_entry (A : Type) :=
| Absent
| PyNone
| Val (a : A).
Arguments Absent {A}.
Arguments PyNone {A}.
Arguments Val {A} a.

(** [d.get(key, default)]; [None] of the result is Python's [None]. *)
Definition dict_get {A} (e : dict_entry A) (default : option A) : option A :=
  match e with
  | Absent => default
  | PyNone => None
  | Val a => Some a
  end.

(** [x or default] on an optional string: [None] and [''] are falsy. *)
Definition py_or (x : option string) (default : string) : string :=
  match x with
  | Some s => if decide (s = "") then default else s
  | None => default
  end.

(** [status in [...]]: [None] is in no list of strings. *)
Definition status_in (status : option string) (l : list string) : bool :=
  match status with
  | Some s => bool_decide (s ∈ l)
  | None => false
  end.

(** [float(z)] for a Python int: round to nearest, ties to even.  Where
    this gives an infinity CPython raises OverflowError instead, which
    [py_float_of_int] below accounts for; a core count and a byte count are
    far below. *)
Definition float_of_Z (z : Z) : float :=
  SF2Prim (binary_normalize prec emax z 0 false).

(** [float(z)] as the arithmetic of an [int] with a [float] makes it:
    [None] is the OverflowError CPython raises when rounding to nearest
    leaves the range of the finite floats. *)
Definition py_float_of_int (z : Z) : option float :=
  match binary_normalize prec emax z 0 false with
  | S754_infinity _ => None
  | _ => Some (float_of_Z z)
  end.

(** [min(a, b)] of the builtin: [b] replaces [a] only when [b < a]. *)
Definition py_min (a b : float) : float :=
  if (b <? a)%float then b else a.

(** ** Data model *)

(** The two fields of [psutil.Process.io_counters()] the script reads. *)
Record pio := { read_bytes : Z; write_bytes : Z }.

(** [proc.info] as requested with [['pid', 'ppid', 'name', 'status']]. *)
Record proc_info := {
  info_pid : option Z;
  info_ppid : option Z;
  info_name : dict_entry string;
  info_status : dict_entry string;
}.

(** One element of [all_processes_this_iter] together with what the
    collaborator answers for it during the main loop of this cycle. *)
Record proc := {
  info : option proc_info;
  is_running : call_result bool;      (* process_objects_cache[pid].is_running() *)
  Process : call_result unit;         (* psutil.Process(pid) *)
  cpu_percent : call_result float;    (* process.cpu_percent(interval=None) *)
  memory_info : call_result Z;        (* process.memory_info().rss *)
  io_counters : call_result pio;      (* process.io_counters() *)
}.

(** What the cached object of a pid answers in the priming block. *)
Record priming := {
  prime_cpu_percent : call_result float;
  prime_io_counters : call_result pio;
}.

(** A value of [current_snapshot_data]. *)
Record process_data := {
  d_pid : Z;
  d_ppid : option Z;
  d_name : option string;
  d_status : option string;
  d_cpu_percent : float;
  d_mem_ws_kb : Z;
  d_delta_read_bytes : Z;
  d_delta_write_bytes : Z;
}.

(** The dict returned by [log_process_tree]. *)
Record totals := {
  cpu : float;
  ws_kb : Z;
  delta_read_bytes : Z;
  delta_write_bytes : Z;
  error_count : Z;
}.

(** The state the collection phase of one cycle works on.  The first two
    fields are the globals [process_objects_cache] (its keys: the cached
    objects are collaborators) and [current_snapshot_data]; the other three
    are the locals of the iteration. *)
Record iter_state := {
  process_objects_cache : gset Z;
  current_snapshot_data : gmap Z process_data;
  current_io_snapshot : gmap Z pio;
  pids_found_this_iter : gset Z;
  newly_cached_pids : list Z;
}.

(** The globals that persist between two iterations of the main loop. *)
Record globals := {
  g_previous_io_counters : gmap Z pio;
  g_process_objects_cache : gset Z;
  g_current_snapshot_data : gmap Z process_data;
}.

(** ** Helper functions *)

Definition INDENT_STRING : string := "  ".

(** [get_cpu_cores]: [psutil.cpu_count(logical=True)], defaulting to 1. *)
Definition get_cpu_cores (cpu_count : call_result (option Z)) : Z :=
  match cpu_count with
  | Ok (Some count) => if decide (count = 0) then 1 else count
  | Ok None => 1
  | Raises _ => 1
  end.

(** ** The sampler: step 1 of [monitor_like_task_manager] *)

(** What one pass through the body of the [for proc in ...] loop does to
    the control flow: go on, or let an exception reach the outer [except]. *)
Inductive flow (A : Type) :=
| Next (s : A)
| Propagate (e : exc) (s : A).
Arguments Next {A} s.
Arguments Propagate {A} e s.

(** The entry written when the process object cannot be obtained. *)
Definition minimal_entry (pid : Z) (inf : proc_info) : process_data :=
  {| d_pid := pid;
     d_ppid := info_ppid inf;
     d_name := dict_get (info_name inf) (Some "N/A");
     d_status := dict_get (info_status inf) (Some "terminated");
     d_cpu_percent := 0;
     d_mem_ws_kb := 0;
     d_delta_read_bytes := 0;
     d_delta_write_bytes := 0 |}.

(** How the [try] that obtains the process object ends. *)
Inductive acquired :=
| Reused                      (* the cached object is running *)
| Fresh                       (* a new object was cached *)
| Unavailable                 (* NoSuchProcess or AccessDenied *)
| Escaped (e : exc).          (* any other exception *)

Definition new_process_object (p : proc) : acquired :=
  match Process p with
  | Ok _ => Fresh
  | Raises NoSuchProcess => Unavailable
  | Raises AccessDenied => Unavailable
  | Raises e => Escaped e
  end.

Definition acquire (cache : gset Z) (pid : Z) (p : proc) : acquired :=
  if decide (pid ∈ cache) then
    match is_running p with
    | Ok true => Reused
    | Ok false => new_process_object p
    | Raises NoSuchProcess => Unavailable
    | Raises AccessDenied => Unavailable
    | Raises e => Escaped e
    end
  else new_process_object p.

(** CPU share of one logical core, capped at 100. *)
Definition scaled_cpu (raw_cpu_total_cores : float) (cpu_cores : Z) : float :=
  if decide (0 < cpu_cores)
  then (raw_cpu_total_cores / float_of_Z cpu_cores)%float
  else raw_cpu_total_cores.

Definition fetch_cpu (cpu_cores : Z) (p : proc) (status : option string)
  : float * option string :=
  match cpu_percent p with
  | Ok raw_cpu_total_cores =>
      (py_min 100 (scaled_cpu raw_cpu_total_cores cpu_cores), status)
  | Raises _ =>
      (0%float,
       if status_in status ["terminated"; "access denied"]
       then status else Some "cpu error")
  end.

(** Resident set size in KB. *)
Definition fetch_mem (p : proc) (status : option string)
  : Z * option string :=
  match memory_info p with
  | Ok rss => (rss `div` 1024, status)
  | Raises _ =>
      (0,
       if status_in status ["terminated"; "access denied"; "cpu error"]
       then status else Some "mem error")
  end.

(** The exceptions of the first [except] clause of the I/O [try]. *)
Definition io_specific (e : exc) : bool :=
  match e with
  | NoSuchProcess | AccessDenied | NotImplementedError | OSError => true
  | OtherException => false
  end.

(** Disk I/O delta against the counters of the previous snapshot.  Returns
    the read and write deltas, the status and the updated
    [current_io_snapshot]. *)
Definition fetch_io (previous_io_counters : gmap Z pio) (pid : Z) (p : proc)
    (status : option string) (current_io_snapshot : gmap Z pio)
  : Z * Z * option string * gmap Z pio :=
  match io_counters p with
  | Ok current_io =>
      let snapshot := <[pid := current_io]> current_io_snapshot in
      match previous_io_counters !! pid with
      | Some prev_io =>
          (Z.max 0 (read_bytes current_io - read_bytes prev_io),
           Z.max 0 (write_bytes current_io - write_bytes prev_io),
           status, snapshot)
      | None => (0, 0, status, snapshot)
      end
  | Raises e =>
      if io_specific e then
        (0, 0,
         if status_in status
              ["terminated"; "access denied"; "cpu error"; "mem error"]
         then status else Some "io error",
         current_io_snapshot)
      else
        (0, 0,
         if status_in status
              ["terminated"; "access denied"; "cpu error"; "mem error";
               "io error"]
         then status else Some "fetch error",
         current_io_snapshot)
  end.

(** The part of the loop body after the process object was obtained. *)
Definition fetch_resources (cpu_cores : Z) (previous_io_counters : gmap Z pio)
    (pid : Z) (inf : proc_info) (p : proc) (snapshot : gmap Z pio)
  : process_data * gmap Z pio :=
  let ppid := info_ppid inf in
  let name := py_or (dict_get (info_name inf) (Some "N/A")) "N/A" in
  let status := dict_get (info_status inf) (Some "N/A") in
  let '(cpu_val_per_core, status) := fetch_cpu cpu_cores p status in
  let '(mem_ws_kb, status) := fetch_mem p status in
  let '(read_delta, write_delta, status, snapshot) :=
    fetch_io previous_io_counters pid p status snapshot in
  ({| d_pid := pid;
      d_ppid := ppid;
      d_name := Some name;
      d_status := status;
      d_cpu_percent := cpu_val_per_core;
      d_mem_ws_kb := mem_ws_kb;
      d_delta_read_bytes := read_delta;
      d_delta_write_bytes := write_delta |},
   snapshot).

Definition store_fetched (cpu_cores : Z) (previous_io_counters : gmap Z pio)
    (pid : Z) (inf : proc_info) (p : proc) (st : iter_state) : iter_state :=
  let '(data, snapshot) :=
    fetch_resources cpu_cores previous_io_counters pid inf p
      (current_io_snapshot st) in
  {| process_objects_cache := process_objects_cache st;
     current_snapshot_data := <[pid := data]> (current_snapshot_data st);
     current_io_snapshot := snapshot;
     pids_found_this_iter := pids_found_this_iter st;
     newly_cached_pids := newly_cached_pids st |}.

(** The body of [for proc in all_processes_this_iter]. *)
Definition sample_process (cpu_cores : Z) (previous_io_counters : gmap Z pio)
    (st : iter_state) (p : proc) : flow iter_state :=
  match info p with
  | None => Next st
  | Some inf =>
      match info_pid inf with
      | None => Next st
      | Some pid =>
          let st :=
            {| process_objects_cache := process_objects_cache st;
               current_snapshot_data := current_snapshot_data st;
               current_io_snapshot := current_io_snapshot st;
               pids_found_this_iter := {[pid]} ∪ pids_found_this_iter st;
               newly_cached_pids := newly_cached_pids st |} in
          match acquire (process_objects_cache st) pid p with
          | Reused =>
              Next (store_fetched cpu_cores previous_io_counters pid inf p st)
          | Fresh =>
              Next (store_fetched cpu_cores previous_io_counters pid inf p
                {| process_objects_cache := {[pid]} ∪ process_objects_cache st;
                   current_snapshot_data := current_snapshot_data st;
                   current_io_snapshot := current_io_snapshot st;
                   pids_found_this_iter := pids_found_this_iter st;
                   newly_cached_pids := newly_cached_pids st ++ [pid] |})
          | Unavailable =>
              Next
                {| process_objects_cache := process_objects_cache st ∖ {[pid]};
                   current_snapshot_data :=
                     <[pid := minimal_entry pid inf]> (current_snapshot_data st);
                   current_io_snapshot := current_io_snapshot st;
                   pids_found_this_iter := pids_found_this_iter st;
                   newly_cached_pids := newly_cached_pids st |}
          | Escaped e => Propagate e st
          end
      end
  end.

(** The [for] loop itself. *)
Fixpoint sample_all (cpu_cores : Z) (previous_io_counters : gmap Z pio)
    (st : iter_state) (procs : list proc) : flow iter_state :=
  match procs with
  | [] => Next st
  | p :: procs =>
      match sample_process cpu_cores previous_io_counters st p with
      | Next st => sample_all cpu_cores previous_io_counters st procs
      | Propagate e st => Propagate e st
      end
  end.

(** One pass through the body of [for pid_to_prime in newly_cached_pids].
    The write to the old [previous_io_counters] is kept: that dict is
    dropped right after, when the name is rebound. *)
Definition prime_one (primer : Z → priming) (cache : gset Z)
    (acc : gmap Z pio * gmap Z pio) (pid_to_prime : Z)
  : gmap Z pio * gmap Z pio :=
  let '(previous_io_counters, snapshot) := acc in
  if decide (pid_to_prime ∈ cache) then
    match prime_cpu_percent (primer pid_to_prime),
          prime_io_counters (primer pid_to_prime) with
    | Ok _, Ok primed_io =>
        (<[pid_to_prime := primed_io]> previous_io_counters,
         <[pid_to_prime := primed_io]> snapshot)
    | _, _ => acc
    end
  else acc.

Definition prime_all (primer : Z → priming) (cache : gset Z)
    (previous_io_counters snapshot : gmap Z pio) (pids : list Z)
  : gmap Z pio * gmap Z pio :=
  foldl (prime_one primer cache) (previous_io_counters, snapshot) pids.

(** Step 1 as a whole: clear the snapshot, enumerate, sample, prime.  The
    enumeration itself may raise; any exception that reaches the outer
    [except Exception] abandons the cycle. *)
Definition start_iteration (g : globals) : iter_state :=
  {| process_objects_cache := g_process_objects_cache g;
     current_snapshot_data := ∅;
     current_io_snapshot := ∅;
     pids_found_this_iter := ∅;
     newly_cached_pids := [] |}.

Definition collect (cpu_cores : Z) (g : globals)
    (process_iter : call_result (list proc)) (primer : Z → priming)
  : flow iter_state :=
  match process_iter with
  | Raises e => Propagate e (start_iteration g)
  | Ok all_processes_this_iter =>
      match sample_all cpu_cores (g_previous_io_counters g)
              (start_iteration g) all_processes_this_iter with
      | Propagate e st => Propagate e st
      | Next st =>
          let '(_, snapshot) :=
            prime_all primer (process_objects_cache st)
              (g_previous_io_counters g) (current_io_snapshot st)
              (newly_cached_pids st) in
          Next
            {| process_objects_cache := process_objects_cache st;
               current_snapshot_data := current_snapshot_data st;
               current_io_snapshot := snapshot;
               pids_found_this_iter := pids_found_this_iter st;
               newly_cached_pids := newly_cached_pids st |}
      end
  end.

(** Step 2: [previous_io_counters = current_io_snapshot], and the object
    cache loses the pids that were not enumerated. *)
Definition update_caches (st : iter_state) : globals :=
  {| g_previous_io_counters := current_io_snapshot st;
     g_process_objects_cache :=
       process_objects_cache st
       ∖ (process_objects_cache st ∖ pids_found_this_iter st);
     g_current_snapshot_data := current_snapshot_data st |}.

(** The globals when the cycle is abandoned: the [continue] of the outer
    handler skips step 2. *)
Definition abandon (g : globals) (st : iter_state) : globals :=
  {| g_previous_io_counters := g_previous_io_counters g;
     g_process_objects_cache := process_objects_cache st;
     g_current_snapshot_data := current_snapshot_data st |}.

(** ** The forest builder: step 3 *)

(** The test that files a pid under its parent in [children_map]. *)
Definition parent_in_snapshot (all_pids_in_snapshot : gset Z)
    (ppid : option Z) : option Z :=
  match ppid with
  | Some pp =>
      if decide (pp ≠ 0 ∧ pp ∈ all_pids_in_snapshot) then Some pp else None
  | None => None
  end.

(** The test that makes a pid a root candidate. *)
Definition is_root_candidate (all_pids_in_snapshot : gset Z)
    (ppid : option Z) : bool :=
  match ppid with
  | None => true
  | Some pp =>
      bool_decide (pp = 0) || bool_decide (pp ∉ all_pids_in_snapshot)
  end.

(** The body of [for pid, data in current_snapshot_data.items()], without
    the name filter (see [root_pids_to_log]). *)
Definition forest_step (all_pids_in_snapshot : gset Z)
    (acc : gmap Z (list Z) * gset Z) (item : Z * process_data)
  : gmap Z (list Z) * gset Z :=
  let '(children_map, root_candidates) := acc in
  let pid := item.1 in
  let ppid := d_ppid item.2 in
  let children_map :=
    match parent_in_snapshot all_pids_in_snapshot ppid with
    | Some pp =>
        <[pp := default [] (children_map !! pp) ++ [pid]]> children_map
    | None => children_map
    end in
  let root_candidates :=
    if is_root_candidate all_pids_in_snapshot ppid
    then {[pid]} ∪ root_candidates else root_candidates in
  (children_map, root_candidates).

(** The loop over [current_snapshot_data.items()].  A [gmap] is listed by
    key and a dict by insertion: the order only shows in the order of the
    lists of [children_map], which [log_process_tree] sorts before use. *)
Definition build_forest (snapshot_data : gmap Z process_data)
  : gmap Z (list Z) * gset Z :=
  foldl (forest_step (dom snapshot_data)) (∅, ∅) (map_to_list snapshot_data).

Definition children_map (snapshot_data : gmap Z process_data)
  : gmap Z (list Z) := (build_forest snapshot_data).1.

Definition root_candidates (snapshot_data : gmap Z process_data) : gset Z :=
  (build_forest snapshot_data).2.

(** [sorted(...)] on pids. *)
Definition sorted (l : list Z) : list Z := merge_sort Z.le l.

(** The roots to log when no [target_app_name] is given (the filtered
    branch, which walks up from the matching names, is not modelled). *)
Definition root_pids_to_log (snapshot_data : gmap Z process_data) : list Z :=
  sorted (elements (root_candidates snapshot_data)).

(** ** The subtree aggregator: [log_process_tree] *)

(** A line of the snapshot file, before column formatting. *)
Inductive line :=
| SnapshotHeader
| NoProcessesFound
| TerminatedMissing (indent : string) (name_field_length : Z) (pid : Z)
| ProcessLine (indent : string) (truncated_display_name : string)
    (name_field_length : Z) (pid : Z) (status_display : string)
    (total_for_node : totals)
| Disappeared (name_field_length : Z) (root_pid : Z).

Definition line_pid (l : line) : option Z :=
  match l with
  | TerminatedMissing _ _ pid => Some pid
  | ProcessLine _ _ _ pid _ _ => Some pid
  | Disappeared _ pid => Some pid
  | SnapshotHeader | NoProcessesFound => None
  end.

(** How a call ends: it returns, or a [TypeError] leaves it (formatting a
    name or a status that is [None]), or the fuel of the model is spent. *)
Inductive outcome (A : Type) :=
| Returned (a : A)
| Raised
| OutOfFuel.
Arguments Returned {A} a.
Arguments Raised {A}.
Arguments OutOfFuel {A}.

Definition len (s : string) : Z := Z.of_nat (String.length s).

(** [max(1, 45 - len(indent))]. *)
Definition name_field_length (indent : string) : Z :=
  Z.max 1 (45 - len indent).

(** [s[:stop]] with Python's reading of a negative [stop]. *)
Definition slice_to (s : string) (stop : Z) : string :=
  if decide (stop < 0)
  then String.substring 0 (Z.to_nat (len s + stop)) s
  else String.substring 0 (Z.to_nat stop) s.

(** Which branch of the truncation runs, with the slice bound it computes. *)
Inductive truncation :=
| Ellipsis (stop : Z)
| Hard (stop : Z)
| Fits.

Definition choose_truncation (display_name : string) (width : Z)
  : truncation :=
  if decide (len display_name > width ∧ width > 3) then Ellipsis (width - 3)
  else if decide (len display_name > width) then Hard width
  else Fits.

Definition truncate (display_name : string) (width : Z) : string :=
  match choose_truncation display_name width with
  | Ellipsis stop => slice_to display_name stop +:+ "..."
  | Hard stop => slice_to display_name stop
  | Fits => display_name
  end.

(** The name with the number of valid children appended. *)
Definition display_name (process_name : string)
    (valid_children_pids : list Z) : string :=
  match valid_children_pids with
  | [] => process_name
  | _ => process_name +:+ " (" +:+ pretty (length valid_children_pids) +:+ ")"
  end.

Definition zero_totals (errors : Z) : totals :=
  {| cpu := 0; ws_kb := 0; delta_read_bytes := 0; delta_write_bytes := 0;
     error_count := errors |}.

(** The five [+=] of the loop over the children. *)
Definition add_child (children_total child_sum : totals) : totals :=
  {| cpu := (cpu children_total + cpu child_sum)%float;
     ws_kb := ws_kb children_total + ws_kb child_sum;
     delta_read_bytes :=
       delta_read_bytes children_total + delta_read_bytes child_sum;
     delta_write_bytes :=
       delta_write_bytes children_total + delta_write_bytes child_sum;
     error_count := error_count children_total + error_count child_sum |}.

Definition error_statuses : list string :=
  ["access denied"; "error"; "fetch error"; "cpu error"; "mem error";
   "io error"].

Definition total_for_node (data : process_data) (children_total : totals)
  : totals :=
  {| cpu := (d_cpu_percent data + cpu children_total)%float;
     ws_kb := d_mem_ws_kb data + ws_kb children_total;
     delta_read_bytes :=
       d_delta_read_bytes data + delta_read_bytes children_total;
     delta_write_bytes :=
       d_delta_write_bytes data + delta_write_bytes children_total;
     error_count :=
       (if status_in (d_status data) error_statuses then 1 else 0)
       + error_count children_total |}.

(** The children of [pid] that are keys of the snapshot. *)
Definition valid_children_pids (snapshot_data : gmap Z process_data)
    (children_map : gmap Z (list Z)) (pid : Z) : list Z :=
  filter (λ p, p ∈ dom snapshot_data) (default [] (children_map !! pid)).

(** [for child_pid in sorted_children_pids], given the recursive call. *)
Fixpoint for_children (call : Z → list line * outcome totals)
    (pids : list Z) (children_total : totals)
  : list line * outcome totals :=
  match pids with
  | [] => ([], Returned children_total)
  | child_pid :: pids =>
      match call child_pid with
      | (written, Returned child_sum) =>
          let '(more, res) :=
            for_children call pids (add_child children_total child_sum) in
          (written ++ more, res)
      | (written, Raised) => (written, Raised)
      | (written, OutOfFuel) => (written, OutOfFuel)
      end
  end.

(** The line of a node; formatting [None] as a name or as a status raises. *)
Definition format_line (indent : string) (pid : Z) (data : process_data)
    (valid : list Z) (total : totals) : option line :=
  match d_name data, d_status data with
  | Some process_name, Some status_display =>
      let width := name_field_length indent in
      Some (ProcessLine indent
              (truncate (display_name process_name valid) width)
              width pid status_display total)
  | _, _ => None
  end.

(** [log_process_tree(pid, children_map, cpu_cores, interval_duration,
    txt_handle, indent)].  [cpu_cores] is never read by the body and
    [interval_duration] only feeds the formatting of the rate column; the
    global [current_snapshot_data] is the first argument. *)
Fixpoint log_process_tree (fuel : nat) (snapshot_data : gmap Z process_data)
    (children_map : gmap Z (list Z)) (pid : Z) (indent : string)
  : list line * outcome totals :=
  match fuel with
  | O => ([], OutOfFuel)
  | S fuel =>
      match snapshot_data !! pid with
      | None =>
          ([TerminatedMissing indent (name_field_length indent) pid],
           Returned (zero_totals 1))
      | Some data =>
          let valid := valid_children_pids snapshot_data children_map pid in
          let sorted_children_pids := sorted valid in
          match for_children
                  (λ child_pid,
                     log_process_tree fuel snapshot_data children_map
                       child_pid (indent +:+ INDENT_STRING))
                  sorted_children_pids (zero_totals 0) with
          | (written, Returned children_total) =>
              let total := total_for_node data children_total in
              match format_line indent pid data valid total with
              | Some l => (written ++ [l], Returned total)
              | None => (written, Raised)
              end
          | (written, Raised) => (written, Raised)
          | (written, OutOfFuel) => (written, OutOfFuel)
          end
      end
  end.

(** ** Writing the snapshot: step 4 *)

(** [for root_pid in root_pids_to_log], with the running
    [total_errors_in_log]. *)
Fixpoint log_roots (fuel : nat) (snapshot_data : gmap Z process_data)
    (children_map : gmap Z (list Z)) (roots : list Z)
    (total_errors_in_log : Z) : list line * outcome Z :=
  match roots with
  | [] => ([], Returned total_errors_in_log)
  | root_pid :: roots =>
      if decide (root_pid ∈ dom snapshot_data) then
        match log_process_tree fuel snapshot_data children_map root_pid "" with
        | (written, Returned subtree_info) =>
            let '(more, res) :=
              log_roots fuel snapshot_data children_map roots
                (total_errors_in_log + error_count subtree_info) in
            (written ++ more, res)
        | (written, Raised) => (written, Raised)
        | (written, OutOfFuel) => (written, OutOfFuel)
        end
      else
        let '(more, res) :=
          log_roots fuel snapshot_data children_map roots total_errors_in_log in
        (Disappeared (Z.max 1 45) root_pid :: more, res)
  end.

(** Steps 3 and 4 for an unfiltered run: the block appended to the
    snapshot file and the error total that is logged. *)
Definition write_snapshot (fuel : nat) (snapshot_data : gmap Z process_data)
  : list line * outcome Z :=
  match root_pids_to_log snapshot_data with
  | [] => ([SnapshotHeader; NoProcessesFound], Returned 0)
  | roots =>
      let '(written, res) :=
        log_roots fuel snapshot_data (children_map snapshot_data) roots 0 in
      (SnapshotHeader :: written, res)
  end.

(** One iteration of [while True] for an unfiltered run: the globals it
    leaves and what it appends to the snapshot file. *)
Definition monitor_iteration (fuel : nat) (cpu_cores : Z) (g : globals)
    (process_iter : call_result (list proc)) (primer : Z → priming)
  : globals * (list line * outcome Z) :=
  match collect cpu_cores g process_iter primer with
  | Propagate _ st => (abandon g st, ([], Returned 0))
  | Next st =>
      let g := update_caches st in
      (g, write_snapshot fuel (g_current_snapshot_data g))
  end.

(** ** Vocabulary of the properties *)

(** The pid an enumerated process is filed under, if it has one. *)
Definition pid_of (p : proc) : option Z := info p ≫= info_pid.

(** The status [proc.info] starts the loop body with. *)
Definition raw_status (inf : proc_info) : option string :=
  dict_get (info_status inf) (Some "N/A").

(** The category of the earliest failing fetch of a process, in the order
    the loop body makes them: CPU, memory, I/O. *)
Definition earliest_failure (p : proc) : option string :=
  match cpu_percent p, memory_info p, io_counters p with
  | Raises _, _, _ => Some "cpu error"
  | Ok _, Raises _, _ => Some "mem error"
  | Ok _, Ok _, Raises e =>
      Some (if io_specific e then "io error" else "fetch error")
  | Ok _, Ok _, Ok _ => None
  end.

(** The strings the guards of the three handlers look for. *)
Definition annotations : list string :=
  ["terminated"; "access denied"; "cpu error"; "mem error"; "io error"].

(** The parent a pid is filed under by the forest builder, if any. *)
Definition live_parent (snapshot_data : gmap Z process_data) (pid : Z)
  : option Z :=
  snapshot_data !! pid
    ≫= λ data, parent_in_snapshot (dom snapshot_data) (d_ppid data).

(** The declared parent when it is a key of the snapshot, sentinel or not. *)
Definition declared_live_parent (snapshot_data : gmap Z process_data)
    (pid : Z) : option Z :=
  snapshot_data !! pid
    ≫= λ data,
         match d_ppid data with
         | Some pp => if decide (pp ∈ dom snapshot_data) then Some pp else None
         | None => None
         end.

(** [k] steps up along a parent function. *)
Fixpoint ancestor (parent : Z → option Z) (k : nat) (pid : Z) : option Z :=
  match k with
  | O => Some pid
  | S k => parent pid ≫= ancestor parent k
  end.

(** A pid that comes back to itself after some steps up. *)
Definition on_cycle (parent : Z → option Z) (pid : Z) : Prop :=
  ∃ k, (0 < k)%nat ∧ ancestor parent k pid = Some pid.

(** The edges [log_process_tree] follows: from a sampled pid to its valid
    children. *)
Definition tree_edge (snapshot_data : gmap Z process_data)
    (children_map : gmap Z (list Z)) (parent child : Z) : Prop :=
  is_Some (snapshot_data !! parent)
  ∧ child ∈ valid_children_pids snapshot_data children_map parent.

(** The nodes of the subtree of [root]. *)
Definition in_subtree (snapshot_data : gmap Z process_data)
    (children_map : gmap Z (list Z)) (root pid : Z) : Prop :=
  rtc (tree_edge snapshot_data children_map) root pid.

(** What the code counts: a node adds one to [error_count] when it is
    missing from the snapshot or when its own status is one of
    [error_statuses], the list of the counting line. *)
Definition counts_as_error (snapshot_data : gmap Z process_data) (pid : Z)
  : bool :=
  match snapshot_data !! pid with
  | None => true
  | Some data => status_in (d_status data) error_statuses
  end.

(** The pids the written lines are about, in writing order. *)
Definition line_pids (written : list line) : list Z := omap line_pid written.

(** The width of the name field of a line. *)
Definition line_width (l : line) : option Z :=
  match l with
  | TerminatedMissing _ width _ => Some width
  | ProcessLine _ _ width _ _ _ => Some width
  | Disappeared width _ => Some width
  | SnapshotHeader | NoProcessesFound => None
  end.

(** The sum of a list of Python ints. *)
Definition sum_Z (l : list Z) : Z := foldr Z.add 0 l.

(** [sum(...)] of a list of floats, added left to right from zero. *)
Definition sum_float (l : list float) : float := foldl PrimFloat.add 0%float l.

(** A call returns [t] when some amount of fuel lets it return [t]. *)
Definition returns (snapshot_data : gmap Z process_data)
    (children_map : gmap Z (list Z)) (pid : Z) (indent : string)
    (t : totals) : Prop :=
  ∃ fuel written,
    log_process_tree fuel snapshot_data children_map pid indent
    = (written, Returned t).

(** The process object was obtained: reused from the cache or created. *)
Definition obtained (st : iter_state) (pid : Z) (p : proc) : Prop :=
  acquire (process_objects_cache st) pid p = Reused
  ∨ acquire (process_objects_cache st) pid p = Fresh.

(** The five status annotations the design notes list for failed fetches. *)
Definition failure_annotations : list string :=
  ["access denied"; "cpu error"; "mem error"; "io error"; "fetch error"].

(** [pid] sits [depth] steps below a pid that has no live parent. *)
Definition at_depth (snapshot_data : gmap Z process_data) (depth : nat)
    (pid : Z) : Prop :=
  ∃ top, ancestor (live_parent snapshot_data) depth pid = Some top
         ∧ live_parent snapshot_data top = None.

(** The pids met on the way up from [pid], at most [steps] links. *)
Fixpoint chain (parent : Z → option Z) (steps : nat) (pid : Z) : list Z :=
  pid ::
    match steps with
    | O => []
    | S steps =>
        match parent pid with
        | Some pp => chain parent steps pp
        | None => []
        end
    end.

(** How many of [pids] add one to [error_count]. *)
Definition counted (snapshot_data : gmap Z process_data) (pids : list Z) : Z :=
  Z.of_nat
    (length (filter (λ pid, counts_as_error snapshot_data pid = true) pids)).

(** The counters the priming block stores for [pid], if it stores any. *)
Definition primed (primer : Z → priming) (cache : gset Z) (pids : list Z)
    (pid : Z) : option pio :=
  if decide (pid ∈ pids ∧ pid ∈ cache) then
    match prime_cpu_percent (primer pid), prime_io_counters (primer pid) with
    | Ok _, Ok primed_io => Some primed_io
    | _, _ => None
    end
  else None.

(** Two states of the collection that differ at most in the samples. *)
Definition same_caches (st1 st2 : iter_state) : Prop :=
  process_objects_cache st1 = process_objects_cache st2
  ∧ current_io_snapshot st1 = current_io_snapshot st2
  ∧ pids_found_this_iter st1 = pids_found_this_iter st2
  ∧ newly_cached_pids st1 = newly_cached_pids st2.

(** The object of [p] is obtained whatever the object cache holds. *)
Definition obtainable (pid : Z) (p : proc) : Prop :=
  ∀ cache, acquire cache pid p = Reused ∨ acquire cache pid p = Fresh.

(** Every sampled name and status is a string. *)
Definition printable (snapshot_data : gmap Z process_data) : Prop :=
  ∀ pid data, snapshot_data !! pid = Some data →
    is_Some (d_name data) ∧ is_Some (d_status data).

(** The indentation of a line. *)
Definition line_indent (l : line) : option string :=
  match l with
  | TerminatedMissing indent _ _ => Some indent
  | ProcessLine indent _ _ _ _ _ => Some indent
  | Disappeared _ _ => Some ""
  | SnapshotHeader | NoProcessesFound => None
  end.

(** The error/terminated category of the design notes: every status of
    their closed enumeration but [running]. *)
Definition error_or_terminated : list string :=
  ["terminated"; "access denied"; "cpu error"; "mem error"; "io error";
   "fetch error"].

(** A node is in the error/terminated category when it is missing from the
    snapshot or when its own status is one of [error_or_terminated]. *)
Definition in_error_category (snapshot_data : gmap Z process_data) (pid : Z)
  : bool :=
  match snapshot_data !! pid with
  | None => true
  | Some data => status_in (d_status data) error_or_terminated
  end.

(** How many of [pids] are in the error/terminated category. *)
Definition category_count (snapshot_data : gmap Z process_data)
    (pids : list Z) : Z :=
  Z.of_nat
    (length (filter (λ pid, in_error_category snapshot_data pid = true) pids)).

(** [p] is the only enumerated process filed under [pid]. *)
Definition enumerated_once (procs : list proc) (p : proc) (pid : Z) : Prop :=
  pid_of p = Some pid
  ∧ ∃ before after,
      procs = before ++ p :: after
      ∧ ∀ q, q ∈ before ++ after → pid_of q ≠ Some pid.

(** The counters the main loop stores for a process whose object it has. *)
Definition loop_counters (p : proc) : option pio :=
  match io_counters p with
  | Ok current_io => Some current_io
  | Raises _ => None
  end.

(** The baseline a completed cycle leaves for the pid of a process that is
    enumerated once: the counters of the priming block when the object was
    created in this cycle and both priming calls return, the counters of
    the main loop otherwise, and none when the object is unavailable. *)
Definition baseline_of (cache : gset Z) (primer : Z → priming) (pid : Z)
    (p : proc) : option pio :=
  match acquire cache pid p with
  | Reused => loop_counters p
  | Fresh =>
      match prime_cpu_percent (primer pid), prime_io_counters (primer pid) with
      | Ok _, Ok primed_io => Some primed_io
      | _, _ => loop_counters p
      end
  | Unavailable | Escaped _ => None
  end.

(** The statuses the guard of the handler that assigns [category] keeps:
    ['terminated'] and ['access denied'], and the annotations of the
    handlers before it. *)
Definition kept_over (category : string) : list string :=
  if decide (category = "cpu error") then
    ["terminated"; "access denied"]
  else if decide (category = "mem error") then
    ["terminated"; "access denied"; "cpu error"]
  else if decide (category = "io error") then
    ["terminated"; "access denied"; "cpu error"; "mem error"]
  else
    ["terminated"; "access denied"; "cpu error"; "mem error"; "io error"].

(** ** Sample inputs *)

Definition io (r w : Z) : pio := {| read_bytes := r; write_bytes := w |}.

Definition info_of (pid : Z) (ppid : option Z) (name status : string)
  : proc_info :=
  {| info_pid := Some pid; info_ppid := ppid;
     info_name := Val name; info_status := Val status |}.

(** A process whose fetches all succeed. *)
Definition healthy (pid : Z) (ppid : option Z) (raw : float) (rss : Z)
    (counters : pio) : proc :=
  {| info := Some (info_of pid ppid "app.exe" "running");
     is_running := Ok true;
     Process := Ok ();
     cpu_percent := Ok raw;
     memory_info := Ok rss;
     io_counters := Ok counters |}.

(** A process whose object cannot be obtained: access is denied. *)
Definition denied (pid : Z) : proc :=
  {| info := Some (info_of pid (Some 4) "svc.exe" "sleeping");
     is_running := Ok true;
     Process := Raises AccessDenied;
     cpu_percent := Raises AccessDenied;
     memory_info := Raises AccessDenied;
     io_counters := Raises AccessDenied |}.

(** A process whose memory and I/O fetches fail. *)
Definition half_readable (pid : Z) : proc :=
  {| info := Some (info_of pid (Some 4) "svc.exe" "running");
     is_running := Ok true;
     Process := Ok ();
     cpu_percent := Ok 12%float;
     memory_info := Raises AccessDenied;
     io_counters := Raises OtherException |}.

Definition empty_state : iter_state :=
  {| process_objects_cache := ∅;
     current_snapshot_data := ∅;
     current_io_snapshot := ∅;
     pids_found_this_iter := ∅;
     newly_cached_pids := [] |}.

Definition fresh_globals : globals :=
  {| g_previous_io_counters := ∅;
     g_process_objects_cache := ∅;
     g_current_snapshot_data := ∅ |}.

Definition node (pid : Z) (ppid : option Z) (status : string) (share : float)
  : process_data :=
  {| d_pid := pid; d_ppid := ppid; d_name := Some "app.exe";
     d_status := Some status; d_cpu_percent := share; d_mem_ws_kb := 2048;
     d_delta_read_bytes := 10; d_delta_write_bytes := 20 |}.

(** The scenario of the design notes: 1 is the parent of 2 and 3. *)
Definition family : gmap Z process_data :=
  <[1 := node 1 (Some 0) "running" 1]>
    (<[2 := node 2 (Some 1) "cpu error" 10]>
       (<[3 := node 3 (Some 1) "running" 5]> ∅)).

(** Two busy children under one parent. *)
Definition busy_family : gmap Z process_data :=
  <[1 := node 1 (Some 0) "running" 20]>
    (<[2 := node 2 (Some 1) "running" 90]>
       (<[3 := node 3 (Some 1) "running" 70]> ∅)).

(** 7 and 8 are each other's parent; 5 hangs under 7; 1 is a root. *)
Definition looped : gmap Z process_data :=
  <[1 := node 1 None "running" 1]>
    (<[5 := node 5 (Some 7) "running" 1]>
       (<[7 := node 7 (Some 8) "running" 1]>
          (<[8 := node 8 (Some 7) "running" 1]> ∅))).

(** The idle process of Windows: pid 0 whose parent is pid 0. *)
Definition idle_only : gmap Z process_data :=
  <[0 := node 0 (Some 0) "running" 1]> ∅.

(** 7's parent 9 is not in the snapshot. *)
Definition orphaned : gmap Z process_data :=
  <[7 := node 7 (Some 9) "running" 1]> (<[1 := node 1 (Some 0) "running" 1]> ∅).

(** A priming block in which no object answers. *)
Definition silent : Z → priming :=
  λ _, {| prime_cpu_percent := Raises NoSuchProcess;
          prime_io_counters := Raises NoSuchProcess |}.

(** Globals left by a cycle in which pid 99 was alive. *)
Definition stale_globals : globals :=
  {| g_previous_io_counters := {[99 := io 1 1]};
     g_process_objects_cache := {[99]};
     g_current_snapshot_data := ∅ |}.

(** A priming block in which every object answers with the same counters. *)
Definition steady (counters : pio) : Z → priming :=
  λ _, {| prime_cpu_percent := Ok 0%float;
          prime_io_counters := Ok counters |}.

(** A process the enumeration reports as ['terminated'] whose CPU fetch
    fails. *)
Definition reported_terminated (pid : Z) : proc :=
  {| info := Some (info_of pid (Some 4) "svc.exe" "terminated");
     is_running := Ok true;
     Process := Ok ();
     cpu_percent := Raises NoSuchProcess;
     memory_info := Ok 4096;
     io_counters := Ok (io 0 0) |}.

(** A process for which [psutil.Process] raises an [OSError]. *)
Definition unreachable (pid : Z) : proc :=
  {| info := Some (info_of pid (Some 4) "svc.exe" "running");
     is_running := Ok true;
     Process := Raises OSError;
     cpu_percent := Ok 1%float;
     memory_info := Ok 4096;
     io_counters := Ok (io 0 0) |}.

(** A process that is gone when the loop asks for its object, and for
    which the enumeration reported no status. *)
Definition vanished (pid : Z) : proc :=
  {| info := Some {| info_pid := Some pid; info_ppid := Some 0;
                     info_name := Val "gone.exe"; info_status := Absent |};
     is_running := Raises NoSuchProcess;
     Process := Raises NoSuchProcess;
     cpu_percent := Raises NoSuchProcess;
     memory_info := Raises NoSuchProcess;
     io_counters := Raises NoSuchProcess |}.

(** ** The target resolver: the filtered branch of step 3 *)

(** [if s:] on an optional string: [None] and [''] are falsy. *)
Definition truthy (s : option string) : bool :=
  match s with
  | Some s => if decide (s = "") then false else true
  | None => false
  end.

(** [target_app_name.lower() if target_app_name else None].  [str.lower]
    is Python's; it is a parameter of the model. *)
Definition target_app_name_lower (lower : string → string)
    (target_app_name : option string) : option string :=
  if truthy target_app_name then lower <$> target_app_name else None.

(** The name test at the end of the body of the loop over
    [current_snapshot_data.items()].  [None.lower()] raises, and the
    exception leaves the main loop. *)
Definition target_step (lower : string → string)
    (target_lower : option string) (acc : outcome (gset Z))
    (item : Z * process_data) : outcome (gset Z) :=
  match acc with
  | Returned target_pids_found =>
      if truthy target_lower then
        match d_name item.2 with
        | Some name =>
            if decide (Some (lower name) = target_lower)
            then Returned ({[item.1]} ∪ target_pids_found)
            else Returned target_pids_found
        | None => Raised
        end
      else Returned target_pids_found
  | Raised => Raised
  | OutOfFuel => OutOfFuel
  end.

(** The pids whose name matches the target.  The source collects them in
    the loop that builds the forest; the two parts of the body do not read
    each other's variables. *)
Definition target_pids_found (lower : string → string)
    (target_lower : option string) (snapshot_data : gmap Z process_data)
  : outcome (gset Z) :=
  foldl (target_step lower target_lower) (Returned ∅)
    (map_to_list snapshot_data).

(** [while search_queue:], with fuel for the iterations. *)
Fixpoint trace_roots (fuel : nat) (snapshot_data : gmap Z process_data)
    (search_queue : list Z) (visited roots_of_target_trees : gset Z)
  : option (gset Z) :=
  match fuel with
  | O => None
  | S fuel =>
      match search_queue with
      | [] => Some roots_of_target_trees
      | current_pid :: search_queue =>
          match snapshot_data !! current_pid with
          | None =>
              trace_roots fuel snapshot_data search_queue visited
                roots_of_target_trees
          | Some data =>
              if is_root_candidate (dom snapshot_data) (d_ppid data) then
                trace_roots fuel snapshot_data search_queue visited
                  ({[current_pid]} ∪ roots_of_target_trees)
              else
                match d_ppid data with
                | Some ppid =>
                    if decide (ppid ∈ visited) then
                      trace_roots fuel snapshot_data search_queue visited
                        roots_of_target_trees
                    else
                      trace_roots fuel snapshot_data (search_queue ++ [ppid])
                        ({[ppid]} ∪ visited) roots_of_target_trees
                | None =>
                    trace_roots fuel snapshot_data search_queue visited
                      roots_of_target_trees
                end
          end
      end
  end.

(** [root_pids_to_log] with an optional [target_app_name]. *)
Definition root_pids_to_log_for (fuel : nat) (lower : string → string)
    (target_app_name : option string) (snapshot_data : gmap Z process_data)
  : outcome (list Z) :=
  if truthy target_app_name then
    match target_pids_found lower
            (target_app_name_lower lower target_app_name) snapshot_data with
    | Returned found =>
        if decide (found = ∅) then Returned []
        else
          match trace_roots fuel snapshot_data (elements found) found ∅ with
          | Some roots => Returned (sorted (elements roots))
          | None => OutOfFuel
          end
    | Raised => Raised
    | OutOfFuel => OutOfFuel
    end
  else Returned (root_pids_to_log snapshot_data).

(** Steps 3 and 4 with an optional [target_app_name].  The text of
    [NoProcessesFound] ends in the target name when there is one. *)
Definition write_snapshot_for (fuel : nat) (lower : string → string)
    (target_app_name : option string) (snapshot_data : gmap Z process_data)
  : list line * outcome Z :=
  match root_pids_to_log_for fuel lower target_app_name snapshot_data with
  | Returned [] => ([SnapshotHeader; NoProcessesFound], Returned 0)
  | Returned roots =>
      let '(written, res) :=
        log_roots fuel snapshot_data (children_map snapshot_data) roots 0 in
      (SnapshotHeader :: written, res)
  | Raised => ([], Raised)
  | OutOfFuel => ([], OutOfFuel)
  end.

(** ** Timing: the waits of the main loop *)

(** [max(a, b)] of the builtin: [b] replaces [a] only when [b > a]. *)
Definition py_max (a b : float) : float :=
  if (a <? b)%float then b else a.


(** [sleep_time] of step 6; [repeat_interval_seconds] is the [int] the
    prompt returned, and [None] is the OverflowError of the subtraction. *)
Definition sleep_time (repeat_interval_seconds : Z) (elapsed_time : float)
  : option float :=
  match py_float_of_int repeat_interval_seconds with
  | Some interval => Some (py_max 0.5 (interval - elapsed_time)%float)
  | None => None
  end.

(** ** The prompt for the interval *)

(** What [input] returned, as the loop reads it: nothing, so that the
    current [repeat_seconds] is used, a text [int] accepts, or a text that
    makes [int] raise [ValueError]. *)
Inductive answer :=
| Blank
| Number (n : Z)
| Garbage.

(** [while True: try: ... break; except ValueError: ...] over the answers
    typed so far: [Some n] when the loop was left with [repeat_seconds = n],
    [None] when it is still asking.  [repeat_seconds] is assigned before
    the test for a positive value. *)
Fixpoint ask_interval (repeat_seconds : Z) (answers : list answer)
  : option Z :=
  match answers with
  | [] => None
  | a :: answers =>
      match a with
      | Garbage => ask_interval repeat_seconds answers
      | Blank =>
          if decide (repeat_seconds ≤ 0)
          then ask_interval repeat_seconds answers
          else Some repeat_seconds
      | Number n =>
          if decide (n ≤ 0) then ask_interval n answers else Some n
      end
  end.

(** ** The disk column of a line *)

(** [0.01] as Python reads it: the nearest binary64 value. *)
Definition hundredth : float := 0x1.47ae147ae147bp-7.

(** [format_bytes_to_mb] on a float. *)
Definition format_bytes_to_mb (byte_val : float) : float :=
  (byte_val / 1048576)%float.

(** [format_rate_mbps]; [fmt1] is the [:.1f] of the f-string. *)
Definition format_rate_mbps (fmt1 : float → string)
    (bytes_per_second : float) : string :=
  let mb_per_second := format_bytes_to_mb bytes_per_second in
  if (abs mb_per_second <? hundredth)%float then "0.0 MB/s"
  else fmt1 mb_per_second +:+ " MB/s".

(** [disk_display] of [log_process_tree].  The deltas are Python ints and
    the division converts them to floats. *)
Definition disk_display (fmt1 : float → string) (interval_duration : float)
    (total_for_node : totals) : string :=
  let '(disk_read_rate_bps, disk_write_rate_bps) :=
    if (hundredth <? interval_duration)%float then
      ((float_of_Z (delta_read_bytes total_for_node) / interval_duration)%float,
       (float_of_Z (delta_write_bytes total_for_node) / interval_duration)%float)
    else (0%float, 0%float) in
  let disk_read_display := format_rate_mbps fmt1 disk_read_rate_bps in
  let disk_write_display := format_rate_mbps fmt1 disk_write_rate_bps in
  if decide (disk_read_display = "0.0 MB/s"
             ∧ disk_write_display = "0.0 MB/s")
  then "0.0 MB/s"
  else disk_read_display +:+ "/" +:+ disk_write_display.

(** ** The name cell of a line *)

(** The width of the [Name] column of the header of the snapshot file. *)
Definition name_width_header : Z := 45.

(** [n] spaces. *)
Fixpoint spaces (n : nat) : string :=
  match n with
  | O => ""
  | S n => String Ascii.Space (spaces n)
  end.

(** [f"{s:<{width}}"]: [s] padded with spaces on the right up to [width];
    a longer [s] is left as it is. *)
Definition ljust (s : string) (width : Z) : string :=
  s +:+ spaces (Z.to_nat (width - len s)).

(** The text a process line starts with, up to the PID column:
    [f"{indent}{truncated_display_name:<{name_field_length}}"]. *)
Definition name_cell (indent display_name : string) : string :=
  indent
  +:+ ljust (truncate display_name (name_field_length indent))
        (name_field_length indent).

(** ** Vocabulary of the further properties *)

(** [pid] is [target] or above it along the live parent links. *)
Definition above (snapshot_data : gmap Z process_data) (target pid : Z)
  : Prop :=
  ∃ k, ancestor (live_parent snapshot_data) k target = Some pid.

(** What holds of the queue, the visited set and the roots found so far
    while the resolver walks up from [targets]. *)
Definition tracing (snapshot_data : gmap Z process_data) (targets : gset Z)
    (search_queue : list Z) (visited roots : gset Z) : Prop :=
  targets ⊆ visited
  ∧ (∀ pid, pid ∈ search_queue → pid ∈ visited)
  ∧ (∀ pid, pid ∈ visited →
       is_Some (snapshot_data !! pid)
       ∧ ∃ target, target ∈ targets ∧ above snapshot_data target pid)
  ∧ (∀ pid, pid ∈ roots → pid ∈ visited ∧ pid ∈ root_candidates snapshot_data)
  ∧ (∀ pid, pid ∈ visited →
       pid ∈ search_queue
       ∨ pid ∈ roots
       ∨ ∃ pp, live_parent snapshot_data pid = Some pp ∧ pp ∈ visited).

(** The lower-cased name of the sample of [pid] is the lower-cased target. *)
Definition named_like (lower : string → string) (target_app_name : string)
    (snapshot_data : gmap Z process_data) (pid : Z) : Prop :=
  ∃ data name, snapshot_data !! pid = Some data
               ∧ d_name data = Some name
               ∧ lower name = lower target_app_name.

(** The indentation of a call [depth] levels below the first one. *)
Fixpoint indentation (depth : nat) : string :=
  match depth with
  | O => ""
  | S depth => indentation depth +:+ INDENT_STRING
  end.

(** A sampled name or status of [pid] is [None]. *)
Definition unprintable (snapshot_data : gmap Z process_data) (pid : Z)
  : Prop :=
  ∃ data, snapshot_data !! pid = Some data
          ∧ (d_name data = None ∨ d_status data = None).

(** Neither [is_running] nor [psutil.Process] raises anything but the two
    exceptions the loop body handles. *)
Definition acquirable (p : proc) : Prop :=
  ∀ cache pid e, acquire cache pid p ≠ Escaped e.

(** The sample was built from the fetches of an enumerated process. *)
Definition fetched (cpu_cores : Z) (previous_io_counters : gmap Z pio)
    (procs : list proc) (pid : Z) (data : process_data) : Prop :=
  ∃ p inf snapshot,
    p ∈ procs ∧ info p = Some inf ∧ info_pid inf = Some pid
    ∧ data = (fetch_resources cpu_cores previous_io_counters pid inf p
                snapshot).1.

(** The sample is the minimal entry of an enumerated process. *)
Definition minimal (procs : list proc) (pid : Z) (data : process_data)
  : Prop :=
  ∃ p inf,
    p ∈ procs ∧ info p = Some inf ∧ info_pid inf = Some pid
    ∧ data = minimal_entry pid inf.

(** The totals a line shows. *)
Definition line_total (l : line) : option totals :=
  match l with
  | ProcessLine _ _ _ _ _ total_for_node => Some total_for_node
  | _ => None
  end.

(** The two I/O deltas of every sample are not negative. *)
Definition deltas_nonneg (snapshot_data : gmap Z process_data) : Prop :=
  ∀ pid data, snapshot_data !! pid = Some data →
    0 ≤ d_delta_read_bytes data ∧ 0 ≤ d_delta_write_bytes data.

(** What holds of the lines and of the totals of a call when the deltas
    of the samples are not negative. *)
Definition figures_ok (snapshot_data : gmap Z process_data)
    (r : list line * outcome totals) : Prop :=
  (∀ l x, l ∈ r.1 → line_pid l = Some x →
     match snapshot_data !! x with
     | Some data =>
         ∃ total, line_total l = Some total
                  ∧ d_delta_read_bytes data ≤ delta_read_bytes total
                  ∧ d_delta_write_bytes data ≤ delta_write_bytes total
     | None => line_total l = None
     end)
  ∧ ∀ t, r.2 = Returned t →
      0 ≤ delta_read_bytes t ∧ 0 ≤ delta_write_bytes t
      ∧ 0 ≤ error_count t.

(** ** Further sample inputs *)

(** A lower-casing that only touches the letters A to Z. *)
Fixpoint ascii_lower (s : string) : string :=
  match s with
  | EmptyString => EmptyString
  | String c s =>
      let n := Ascii.nat_of_ascii c in
      String (if decide (65 ≤ n ≤ 90)%nat then Ascii.ascii_of_nat (n + 32) else c)
        (ascii_lower s)
  end.

(** A running process with a name of its own. *)
Definition named (pid : Z) (ppid : option Z) (name : string) : process_data :=
  {| d_pid := pid; d_ppid := ppid; d_name := Some name;
     d_status := Some "running"; d_cpu_percent := 1; d_mem_ws_kb := 2048;
     d_delta_read_bytes := 10; d_delta_write_bytes := 20 |}.

(** A browser under a shell under the root 1, and a stray service. *)
Definition desktop : gmap Z process_data :=
  <[1 := named 1 (Some 0) "init"]>
    (<[2 := named 2 (Some 1) "shell"]>
       (<[3 := named 3 (Some 2) "Chrome.exe"]>
          (<[4 := named 4 (Some 9) "svc"]> ∅))).

(** The desktop with a process whose name could not be read, its own
    parent, which no run without a filter ever reaches. *)
Definition unnamed : gmap Z process_data :=
  <[6 := {| d_pid := 6; d_ppid := Some 6; d_name := None;
            d_status := Some "access denied"; d_cpu_percent := 0;
            d_mem_ws_kb := 0; d_delta_read_bytes := 0;
            d_delta_write_bytes := 0 |}]> desktop.

(** The desktop with a shell whose status could not be read. *)
Definition blurred : gmap Z process_data :=
  <[2 := {| d_pid := 2; d_ppid := Some 1; d_name := Some "shell";
            d_status := None; d_cpu_percent := 0; d_mem_ws_kb := 0;
            d_delta_read_bytes := 0; d_delta_write_bytes := 0 |}]> desktop.

(** * Properties *)

(** ** Binary64 comparisons *)

Lemma ltb_leb (x y : float) : (x <? y)%float = true → (x <=? y)%float = true.
Proof.
  rewrite ltb_spec, leb_spec. unfold SFltb, SFleb.
  by destruct (SFcompare (Prim2SF x) (Prim2SF y)) as [[] |].
Qed.

Lemma py_min_le_100 (x : float) : (py_min 100 x <=? 100)%float = true.
Proof.
  unfold py_min. destruct (x <? 100)%float eqn:Hlt.
  - by apply ltb_leb.
  - reflexivity.
Qed.

Lemma py_min_nonneg (x : float) :
  (0 <=? x)%float = true → (0 <=? py_min 100 x)%float = true.
Proof.
  intros Hx. unfold py_min. destruct (x <? 100)%float; [done | reflexivity].
Qed.

(** ** The sampler *)

Section sampler.
Context (cpu_cores : Z) (previous_io_counters : gmap Z pio).

Lemma sample_process_obtained st p inf pid :
  info p = Some inf → info_pid inf = Some pid → obtained st pid p →
  ∃ st',
    sample_process cpu_cores previous_io_counters st p = Next st'
    ∧ current_snapshot_data st' !! pid
      = Some (fetch_resources cpu_cores previous_io_counters pid inf p
                (current_io_snapshot st)).1
    ∧ current_io_snapshot st'
      = (fetch_resources cpu_cores previous_io_counters pid inf p
           (current_io_snapshot st)).2.
Proof.
  intros Hinfo Hpid Hacq. unfold sample_process. rewrite Hinfo, Hpid. cbn.
  destruct Hacq as [-> | ->]; unfold store_fetched; cbn;
    destruct (fetch_resources _ _ _ _ _ _) as [data snapshot]; cbn;
    eexists; (split; [reflexivity |]); cbn;
    by rewrite lookup_insert_eq.
Qed.

Lemma sample_process_unavailable st p inf pid :
  info p = Some inf → info_pid inf = Some pid →
  acquire (process_objects_cache st) pid p = Unavailable →
  ∃ st',
    sample_process cpu_cores previous_io_counters st p = Next st'
    ∧ current_snapshot_data st' !! pid = Some (minimal_entry pid inf)
    ∧ current_io_snapshot st' = current_io_snapshot st.
Proof.
  intros Hinfo Hpid Hacq. unfold sample_process. rewrite Hinfo, Hpid. cbn.
  rewrite Hacq. eexists. split; [reflexivity |]. cbn.
  by rewrite lookup_insert_eq.
Qed.

Lemma fetch_resources_io pid inf p snapshot :
  let data := (fetch_resources cpu_cores previous_io_counters pid inf p snapshot).1 in
  d_delta_read_bytes data
  = (fetch_io previous_io_counters pid p None snapshot).1.1.1
  ∧ d_delta_write_bytes data
    = (fetch_io previous_io_counters pid p None snapshot).1.1.2.
Proof.
  unfold fetch_resources.
  destruct (fetch_cpu _ _ _) as [c s1]. destruct (fetch_mem _ _) as [m s2].
  unfold fetch_io. destruct (io_counters p) as [cur | e].
  - destruct (previous_io_counters !! pid); cbn; done.
  - destruct (io_specific e); cbn; done.
Qed.

Lemma fetch_resources_status pid inf p snapshot :
  d_status (fetch_resources cpu_cores previous_io_counters pid inf p snapshot).1
  = (fetch_io previous_io_counters pid p
       (fetch_mem p (fetch_cpu cpu_cores p (raw_status inf)).2).2
       snapshot).1.2.
Proof.
  unfold fetch_resources, raw_status.
  destruct (fetch_cpu _ _ _) as [c s1]. destruct (fetch_mem _ _) as [m s2].
  cbn. by destruct (fetch_io _ _ _ _ _) as [[[r w] s3] snap].
Qed.

Lemma fetch_resources_cpu pid inf p snapshot :
  d_cpu_percent (fetch_resources cpu_cores previous_io_counters pid inf p snapshot).1
  = (fetch_cpu cpu_cores p (raw_status inf)).1.
Proof.
  unfold fetch_resources, raw_status.
  destruct (fetch_cpu _ _ _) as [c s1]. destruct (fetch_mem _ _) as [m s2].
  cbn. by destruct (fetch_io _ _ _ _ _) as [[[r w] s3] snap].
Qed.

Lemma fetch_resources_mem pid inf p snapshot :
  d_mem_ws_kb (fetch_resources cpu_cores previous_io_counters pid inf p snapshot).1
  = (fetch_mem p (fetch_cpu cpu_cores p (raw_status inf)).2).1.
Proof.
  unfold fetch_resources, raw_status.
  destruct (fetch_cpu _ _ _) as [c s1]. destruct (fetch_mem _ _) as [m s2].
  cbn. by destruct (fetch_io _ _ _ _ _) as [[[r w] s3] snap].
Qed.

Lemma status_in_subseteq status (l1 l2 : list string) :
  l1 ⊆ l2 → status_in status l2 = false → status_in status l1 = false.
Proof.
  intros Hsub. destruct status as [s |]; [| done]. cbn.
  rewrite !bool_decide_eq_false. intros Hnot Hin. by apply Hnot, Hsub.
Qed.

Lemma prefix_subseteq (l1 l2 : list string) : l1 `prefix_of` l2 → l1 ⊆ l2.
Proof. intros [k ->] x Hx. apply elem_of_app. by left. Qed.

(** Once a handler has set its annotation, the later handlers keep it:
    the status after the three fetches is the earliest failure's. *)
Lemma status_after_fetches p status snapshot pid :
  status_in status annotations = false →
  (fetch_io previous_io_counters pid p
     (fetch_mem p (fetch_cpu cpu_cores p status).2).2 snapshot).1.2
  = match earliest_failure p with
    | Some category => Some category
    | None => status
    end.
Proof.
  intros Hraw. unfold fetch_cpu, fetch_mem, fetch_io, earliest_failure.
  assert (H2 : status_in status ["terminated"; "access denied"] = false).
  { revert Hraw. apply status_in_subseteq, prefix_subseteq.
    by exists ["cpu error"; "mem error"; "io error"]. }
  assert (H3 : status_in status ["terminated"; "access denied"; "cpu error"]
               = false).
  { revert Hraw. apply status_in_subseteq, prefix_subseteq.
    by exists ["mem error"; "io error"]. }
  assert (H4 : status_in status
                 ["terminated"; "access denied"; "cpu error"; "mem error"]
               = false).
  { revert Hraw. apply status_in_subseteq, prefix_subseteq.
    by exists ["io error"]. }
  unfold annotations in Hraw.
  destruct (cpu_percent p) as [raw | e1], (memory_info p) as [rss | e2],
    (io_counters p) as [cur | e3]; cbn;
    rewrite ?H2, ?H3; cbn;
    try destruct (previous_io_counters !! pid);
    try destruct (io_specific e3); cbn; rewrite ?H4, ?Hraw; done.
Qed.
End sampler.

(** C5: with a cached previous entry, the reported I/O delta is
    [max(0, current - previous)] for read and for write bytes, hence never
    negative, whatever the counters do. *)
Theorem io_delta_clamped cpu_cores previous_io_counters st p inf pid
    current_io prev_io :
  info p = Some inf → info_pid inf = Some pid → obtained st pid p →
  io_counters p = Ok current_io →
  previous_io_counters !! pid = Some prev_io →
  ∃ st' data,
    sample_process cpu_cores previous_io_counters st p = Next st'
    ∧ current_snapshot_data st' !! pid = Some data
    ∧ d_delta_read_bytes data
      = Z.max 0 (read_bytes current_io - read_bytes prev_io)
    ∧ d_delta_write_bytes data
      = Z.max 0 (write_bytes current_io - write_bytes prev_io)
    ∧ 0 ≤ d_delta_read_bytes data
    ∧ 0 ≤ d_delta_write_bytes data.
Proof.
  intros Hinfo Hpid Hacq Hio Hprev.
  destruct (sample_process_obtained cpu_cores previous_io_counters
              st p inf pid Hinfo Hpid Hacq) as (st' & Hstep & Hdata & _).
  exists st', (fetch_resources cpu_cores previous_io_counters pid inf p
                 (current_io_snapshot st)).1.
  destruct (fetch_resources_io cpu_cores previous_io_counters pid inf p
              (current_io_snapshot st)) as [Hr Hw].
  rewrite Hr, Hw. unfold fetch_io. rewrite Hio, Hprev. cbn.
  repeat split; try done; lia.
Qed.

(** The counter reset of the design notes: 1000 bytes read before, 800 now. *)
Lemma io_delta_clamped_witness :
  ∃ st' data,
    sample_process 4 {[5 := io 1000 500]} empty_state
      (healthy 5 (Some 1) 8 4096 (io 800 700)) = Next st'
    ∧ current_snapshot_data st' !! 5 = Some data
    ∧ d_delta_read_bytes data = Z.max 0 (800 - 1000)
    ∧ d_delta_write_bytes data = Z.max 0 (700 - 500)
    ∧ 0 ≤ d_delta_read_bytes data
    ∧ 0 ≤ d_delta_write_bytes data.
Proof.
  apply (io_delta_clamped 4 {[5 := io 1000 500]} empty_state
           (healthy 5 (Some 1) 8 4096 (io 800 700))
           (info_of 5 (Some 1) "app.exe" "running") 5
           (io 800 700) (io 1000 500));
    try reflexivity.
  right. reflexivity.
Defined.

Lemma sample_process_keeps cpu_cores previous_io_counters st p st' pid :
  sample_process cpu_cores previous_io_counters st p = Next st' →
  is_Some (current_snapshot_data st !! pid) →
  is_Some (current_snapshot_data st' !! pid).
Proof.
  unfold sample_process. intros Hstep Hsome.
  destruct (info p) as [inf |]; [| by simplify_eq].
  destruct (info_pid inf) as [pid' |]; [| by simplify_eq].
  cbn in Hstep.
  destruct (acquire _ _ _); simplify_eq; unfold store_fetched; cbn;
    try destruct (fetch_resources _ _ _ _ _ _) as [data snapshot]; cbn;
    rewrite lookup_insert; case_decide; done.
Qed.

Lemma sample_all_keeps cpu_cores previous_io_counters procs st st' pid :
  sample_all cpu_cores previous_io_counters st procs = Next st' →
  is_Some (current_snapshot_data st !! pid) →
  is_Some (current_snapshot_data st' !! pid).
Proof.
  revert st. induction procs as [| p procs IH]; intros st Hall Hsome; cbn in Hall.
  - by simplify_eq.
  - destruct (sample_process _ _ st p) as [st1 | e st1] eqn:Hstep; [| done].
    eapply IH; [done |]. by eapply sample_process_keeps.
Qed.

Lemma earliest_failure_category p category :
  earliest_failure p = Some category →
  category ∈ ["cpu error"; "mem error"; "io error"; "fetch error"].
Proof.
  unfold earliest_failure.
  destruct (cpu_percent p), (memory_info p), (io_counters p) as [| e3];
    try destruct (io_specific e3); intros; simplify_eq;
    rewrite !elem_of_cons; auto.
Qed.

(** ** The sampling loop *)

Section loop.
Context (cpu_cores : Z) (previous_io_counters : gmap Z pio).

Lemma fetch_resources_snapshot pid inf p snapshot :
  (fetch_resources cpu_cores previous_io_counters pid inf p snapshot).2
  = match io_counters p with
    | Ok current_io => <[pid := current_io]> snapshot
    | Raises _ => snapshot
    end.
Proof.
  unfold fetch_resources.
  destruct (fetch_cpu _ _ _) as [c s1]. destruct (fetch_mem _ _) as [m s2].
  unfold fetch_io. destruct (io_counters p) as [cur | e].
  - by destruct (previous_io_counters !! pid).
  - by destruct (io_specific e).
Qed.

(** What one pass through the loop body does to the state. *)
Lemma sample_process_step st p st' :
  sample_process cpu_cores previous_io_counters st p = Next st' →
  (pid_of p = None ∧ st' = st)
  ∨ ∃ pid inf,
      info p = Some inf ∧ info_pid inf = Some pid
      ∧ pids_found_this_iter st' = {[pid]} ∪ pids_found_this_iter st
      ∧ ((obtained st pid p
          ∧ current_snapshot_data st'
            = <[pid := (fetch_resources cpu_cores previous_io_counters
                          pid inf p (current_io_snapshot st)).1]>
                (current_snapshot_data st)
          ∧ current_io_snapshot st'
            = (fetch_resources cpu_cores previous_io_counters
                 pid inf p (current_io_snapshot st)).2
          ∧ (newly_cached_pids st' = newly_cached_pids st
             ∨ newly_cached_pids st' = newly_cached_pids st ++ [pid]))
         ∨ (acquire (process_objects_cache st) pid p = Unavailable
            ∧ current_snapshot_data st'
              = <[pid := minimal_entry pid inf]> (current_snapshot_data st)
            ∧ current_io_snapshot st' = current_io_snapshot st
            ∧ newly_cached_pids st' = newly_cached_pids st)).
Proof.
  unfold sample_process, pid_of. intros Hstep.
  destruct (info p) as [inf |]; cbn in *; [| left; simplify_eq; by split].
  destruct (info_pid inf) as [pid |] eqn:Hpid;
    [| left; simplify_eq; by split].
  right. exists pid, inf. split; [done |]. split; [done |].
  cbn in Hstep. unfold obtained.
  destruct (acquire (process_objects_cache st) pid p) eqn:Hacq;
    simplify_eq; unfold store_fetched; cbn;
    try destruct (fetch_resources _ _ _ _ _ _) as [data snapshot]; cbn.
  - split; [done |]. left. by repeat split; auto.
  - split; [done |]. left. by repeat split; auto.
  - split; [done |]. right. by repeat split.
Qed.

(** Where the samples of the snapshot come from. *)
Lemma sample_all_produced procs st st' pid data :
  sample_all cpu_cores previous_io_counters st procs = Next st' →
  current_snapshot_data st' !! pid = Some data →
  current_snapshot_data st !! pid = Some data
  ∨ ∃ p inf,
      p ∈ procs ∧ info p = Some inf ∧ info_pid inf = Some pid
      ∧ (data = minimal_entry pid inf
         ∨ ∃ snapshot,
             data = (fetch_resources cpu_cores previous_io_counters
                       pid inf p snapshot).1).
Proof.
  revert st. induction procs as [| p procs IH]; intros st Hall Hdata;
    cbn in Hall.
  - simplify_eq. by left.
  - destruct (sample_process _ _ st p) as [st1 | e st1] eqn:Hstep; [| done].
    destruct (IH st1 Hall Hdata) as [Hold | (p' & inf & Hp' & Hrest)].
    + apply sample_process_step in Hstep
        as [[_ ->] | (pid' & inf & Hinfo & Hpid & _ & Hcase)]; [by left |].
      destruct Hcase as [(_ & Hcsd & _) | (_ & Hcsd & _)];
        rewrite Hcsd in Hold;
        (destruct (decide (pid' = pid)) as [-> | Hne];
         [ rewrite lookup_insert_eq in Hold; simplify_eq; right;
           exists p, inf; split; [left |]; split; [done |];
           split; [done |]; eauto
         | rewrite lookup_insert_ne in Hold by done; by left ]).
    + right. exists p', inf. split; [by right | done].
Qed.

(** Every enumerated process that carries a pid has a sample. *)
Lemma sample_all_sampled procs st st' p pid :
  sample_all cpu_cores previous_io_counters st procs = Next st' →
  p ∈ procs → pid_of p = Some pid →
  is_Some (current_snapshot_data st' !! pid).
Proof.
  revert st. induction procs as [| q procs IH]; intros st Hall Hp Hpid;
    cbn in Hall; [by apply elem_of_nil in Hp |].
  destruct (sample_process _ _ st q) as [st1 | e st1] eqn:Hstep; [| done].
  apply elem_of_cons in Hp as [-> | Hp]; [| by eapply IH].
  eapply sample_all_keeps; [done |].
  apply sample_process_step in Hstep
    as [[Hnone _] | (pid' & inf & Hinfo & Hpid' & _ & Hcase)]; [congruence |].
  assert (pid' = pid) as ->.
  { unfold pid_of in Hpid. rewrite Hinfo in Hpid. cbn in Hpid. congruence. }
  destruct Hcase as [(_ & -> & _) | (_ & -> & _)];
    by rewrite lookup_insert_eq.
Qed.

(** The pids found are those of the enumerated processes. *)
Lemma sample_all_pids_found procs st st' pid :
  sample_all cpu_cores previous_io_counters st procs = Next st' →
  pid ∈ pids_found_this_iter st'
  ↔ pid ∈ pids_found_this_iter st ∨ ∃ p, p ∈ procs ∧ pid_of p = Some pid.
Proof.
  revert st. induction procs as [| q procs IH]; intros st Hall; cbn in Hall.
  - simplify_eq. split; [by left |]. intros [? | (p & ?%elem_of_nil & _)]; done.
  - destruct (sample_process _ _ st q) as [st1 | e st1] eqn:Hstep; [| done].
    rewrite (IH st1 Hall).
    apply sample_process_step in Hstep
      as [[Hnone ->] | (pid' & inf & Hinfo & Hpid' & Hfound & _)].
    + split; intros [? | (p & Hp & Hpid)]; auto.
      * right. exists p. split; [by right | done].
      * apply elem_of_cons in Hp as [-> | Hp]; [congruence |].
        right. by exists p.
    + assert (Hq : pid_of q = Some pid')
        by (unfold pid_of; by rewrite Hinfo).
      rewrite Hfound, elem_of_union, elem_of_singleton. split.
      * intros [[-> | ?] | (p & Hp & Hpid)]; auto.
        -- right. exists q. split; [left | done].
        -- right. exists p. split; [by right | done].
      * intros [? | (p & [-> | Hp]%elem_of_cons & Hpid)]; auto.
        -- left. left. congruence.
        -- right. by exists p.
Qed.

(** The pids whose object was cached this cycle were enumerated. *)
Lemma sample_all_newly_cached procs st st' pid :
  sample_all cpu_cores previous_io_counters st procs = Next st' →
  pid ∈ newly_cached_pids st' →
  pid ∈ newly_cached_pids st ∨ ∃ p, p ∈ procs ∧ pid_of p = Some pid.
Proof.
  revert st. induction procs as [| q procs IH]; intros st Hall Hin;
    cbn in Hall.
  - simplify_eq. by left.
  - destruct (sample_process _ _ st q) as [st1 | e st1] eqn:Hstep; [| done].
    destruct (IH st1 Hall Hin) as [Hold | (p & Hp & Hpid)].
    + apply sample_process_step in Hstep
        as [[_ ->] | (pid' & inf & Hinfo & Hpid' & _ & Hcase)]; [by left |].
      assert (Hq : pid_of q = Some pid')
        by (unfold pid_of; by rewrite Hinfo).
      destruct Hcase as [(_ & _ & _ & [Hn | Hn]) | (_ & _ & _ & Hn)];
        rewrite Hn in Hold; [by left | | by left].
      apply elem_of_app in Hold as [? | ->%list_elem_of_singleton];
        [by left |].
      right. exists q. split; [left | done].
    + right. exists p. split; [by right | done].
Qed.

(** Where the counters of [current_io_snapshot] come from. *)
Lemma sample_all_io_snapshot procs st st' pid counters :
  sample_all cpu_cores previous_io_counters st procs = Next st' →
  current_io_snapshot st' !! pid = Some counters →
  current_io_snapshot st !! pid = Some counters
  ∨ ∃ p, p ∈ procs ∧ pid_of p = Some pid ∧ io_counters p = Ok counters.
Proof.
  revert st. induction procs as [| q procs IH]; intros st Hall Hin;
    cbn in Hall.
  - simplify_eq. by left.
  - destruct (sample_process _ _ st q) as [st1 | e st1] eqn:Hstep; [| done].
    destruct (IH st1 Hall Hin) as [Hold | (p & Hp & Hpid & Hio)].
    + apply sample_process_step in Hstep
        as [[_ ->] | (pid' & inf & Hinfo & Hpid' & _ & Hcase)]; [by left |].
      assert (Hq : pid_of q = Some pid')
        by (unfold pid_of; by rewrite Hinfo).
      destruct Hcase as [(_ & _ & Hsnap & _) | (_ & _ & Hsnap & _)];
        rewrite Hsnap in Hold; [| by left].
      rewrite fetch_resources_snapshot in Hold.
      destruct (io_counters q) as [cur | e] eqn:Hio; [| by left].
      destruct (decide (pid' = pid)) as [-> | Hne].
      * rewrite lookup_insert_eq in Hold. simplify_eq.
        right. exists q. split; [left | done].
      * rewrite lookup_insert_ne in Hold by done. by left.
    + right. exists p. split; [by right | done].
Qed.

Lemma sample_process_io_keeps st p st' pid :
  sample_process cpu_cores previous_io_counters st p = Next st' →
  is_Some (current_io_snapshot st !! pid) →
  is_Some (current_io_snapshot st' !! pid).
Proof.
  intros Hstep Hsome.
  apply sample_process_step in Hstep
    as [[_ ->] | (pid' & inf & _ & _ & _ & Hcase)]; [done |].
  destruct Hcase as [(_ & _ & -> & _) | (_ & _ & -> & _)]; [| done].
  rewrite fetch_resources_snapshot.
  destruct (io_counters p); [| done].
  rewrite lookup_insert. by case_decide.
Qed.

Lemma sample_all_io_keeps procs st st' pid :
  sample_all cpu_cores previous_io_counters st procs = Next st' →
  is_Some (current_io_snapshot st !! pid) →
  is_Some (current_io_snapshot st' !! pid).
Proof.
  revert st. induction procs as [| q procs IH]; intros st Hall Hsome;
    cbn in Hall; [by simplify_eq |].
  destruct (sample_process _ _ st q) as [st1 | e st1] eqn:Hstep; [| done].
  eapply IH; [done |]. by eapply sample_process_io_keeps.
Qed.
End loop.

(** ** Priming and the end of the collection *)

Lemma primed_Some_io primer cache pids pid primed_io :
  primed primer cache pids pid = Some primed_io →
  prime_io_counters (primer pid) = Ok primed_io.
Proof.
  unfold primed. case_decide; [| done].
  destruct (prime_cpu_percent (primer pid)); [| done].
  destruct (prime_io_counters (primer pid)); [| done].
  by intros [= ->].
Qed.

Lemma prime_one_snd primer cache acc q :
  (prime_one primer cache acc q).2
  = match primed primer cache [q] q with
    | Some primed_io => <[q := primed_io]> acc.2
    | None => acc.2
    end.
Proof.
  unfold prime_one, primed. destruct acc as [prev snapshot]. cbn.
  destruct (decide (q ∈ cache)) as [Hq | Hq].
  - rewrite decide_True by (split; [left | done]).
    by destruct (prime_cpu_percent (primer q)),
         (prime_io_counters (primer q)).
  - by rewrite decide_False by (by intros [_ ?]).
Qed.

Lemma primed_cons primer cache q pids pid :
  primed primer cache (q :: pids) pid
  = if decide (q = pid) then
      match primed primer cache [q] q with
      | Some primed_io => Some primed_io
      | None => primed primer cache pids pid
      end
    else primed primer cache pids pid.
Proof.
  unfold primed. destruct (decide (q = pid)) as [-> | Heq].
  - destruct (decide (pid ∈ cache)) as [Hc | Hc].
    + rewrite !decide_True by (split; [left | done]).
      destruct (prime_cpu_percent (primer pid)),
        (prime_io_counters (primer pid)); try done;
        by case_decide.
    + by rewrite !decide_False by (by intros [_ ?]).
  - destruct (decide (pid ∈ pids ∧ pid ∈ cache)) as [[H1 H2] | Hn].
    + by rewrite decide_True by (split; [by right | done]).
    + rewrite decide_False; [done |].
      intros [[-> | ?]%elem_of_cons ?]; [done |]. by apply Hn.
Qed.

Lemma prime_all_lookup primer cache previous_io_counters snapshot pids pid :
  (prime_all primer cache previous_io_counters snapshot pids).2 !! pid
  = match primed primer cache pids pid with
    | Some primed_io => Some primed_io
    | None => snapshot !! pid
    end.
Proof.
  unfold prime_all.
  change snapshot with (previous_io_counters, snapshot).2 at 2.
  generalize (previous_io_counters, snapshot). clear.
  intros acc. revert acc.
  induction pids as [| q pids IH]; intros acc.
  - unfold primed. rewrite decide_False; [done |].
    by intros [?%elem_of_nil _].
  - change (foldl (prime_one primer cache) acc (q :: pids))
      with (foldl (prime_one primer cache) (prime_one primer cache acc q) pids).
    rewrite primed_cons, IH, prime_one_snd.
    destruct (decide (q = pid)) as [-> | Hne].
    + destruct (primed primer cache pids pid) as [later |] eqn:Hlater.
      * apply primed_Some_io in Hlater.
        destruct (primed primer cache [pid] pid) as [now |] eqn:Hnow; [| done].
        apply primed_Some_io in Hnow. congruence.
      * destruct (primed primer cache [pid] pid); [| done].
        by rewrite lookup_insert_eq.
    + destruct (primed primer cache pids pid); [done |].
      destruct (primed primer cache [q] q); [| done].
      by rewrite lookup_insert_ne.
Qed.

Lemma primed_Some primer cache pids pid primed_io :
  primed primer cache pids pid = Some primed_io →
  pid ∈ pids ∧ pid ∈ cache
  ∧ prime_io_counters (primer pid) = Ok primed_io.
Proof.
  unfold primed. case_decide as Hd; [| done]. destruct Hd.
  destruct (prime_cpu_percent (primer pid)); [| done].
  destruct (prime_io_counters (primer pid)); [| done].
  by intros [= ->].
Qed.

(** What a collection that completes is made of. *)
Lemma collect_Next cpu_cores g procs primer st :
  collect cpu_cores g (Ok procs) primer = Next st →
  ∃ st1,
    sample_all cpu_cores (g_previous_io_counters g) (start_iteration g) procs
    = Next st1
    ∧ current_snapshot_data st = current_snapshot_data st1
    ∧ process_objects_cache st = process_objects_cache st1
    ∧ pids_found_this_iter st = pids_found_this_iter st1
    ∧ newly_cached_pids st = newly_cached_pids st1
    ∧ current_io_snapshot st
      = (prime_all primer (process_objects_cache st1)
           (g_previous_io_counters g) (current_io_snapshot st1)
           (newly_cached_pids st1)).2.
Proof.
  unfold collect.
  destruct (sample_all _ _ _ _) as [st1 | e st1]; [| done].
  destruct (prime_all _ _ _ _ _) as [prev snapshot] eqn:Hprime.
  intros [= <-]. exists st1. cbn. by rewrite Hprime.
Qed.

Lemma sample_all_app cpu_cores previous_io_counters l1 l2 st st' :
  sample_all cpu_cores previous_io_counters st (l1 ++ l2) = Next st' →
  ∃ st1,
    sample_all cpu_cores previous_io_counters st l1 = Next st1
    ∧ sample_all cpu_cores previous_io_counters st1 l2 = Next st'.
Proof.
  revert st. induction l1 as [| p l1 IH]; intros st Hall; cbn in *.
  - by exists st.
  - destruct (sample_process _ _ st p) as [st1 | e st1]; [| done].
    by apply IH.
Qed.

(** ** The counter cache across cycles *)

(** The samples are the only part of the state the previous counters
    reach: the flow of the loop and the caches do not depend on them. *)
Lemma sample_process_same_caches cpu_cores previous1 previous2 st1 st2 p :
  same_caches st1 st2 →
  match sample_process cpu_cores previous1 st1 p,
        sample_process cpu_cores previous2 st2 p with
  | Next st1', Next st2' => same_caches st1' st2'
  | Propagate e1 _, Propagate e2 _ => e1 = e2
  | _, _ => False
  end.
Proof.
  destruct st1 as [cache1 data1 io1 found1 new1].
  destruct st2 as [cache2 data2 io2 found2 new2].
  intros (Hcache & Hio & Hfound & Hnew). cbn in *. subst.
  unfold sample_process.
  destruct (info p) as [inf |]; [| done].
  destruct (info_pid inf) as [pid |]; [| done]. cbn.
  pose proof (fetch_resources_snapshot cpu_cores previous1 pid inf p io2) as H1.
  pose proof (fetch_resources_snapshot cpu_cores previous2 pid inf p io2) as H2.
  rewrite <- H1 in H2.
  destruct (acquire cache2 pid p); [| | | done];
    unfold same_caches, store_fetched; cbn.
  - destruct (fetch_resources cpu_cores previous1 _ _ _ _) as [d1 s1].
    destruct (fetch_resources cpu_cores previous2 _ _ _ _) as [d2 s2].
    cbn in *. by subst.
  - destruct (fetch_resources cpu_cores previous1 _ _ _ _) as [d1 s1].
    destruct (fetch_resources cpu_cores previous2 _ _ _ _) as [d2 s2].
    cbn in *. by subst.
  - done.
Qed.

Lemma sample_all_same_caches cpu_cores previous1 previous2 procs st1 st2 :
  same_caches st1 st2 →
  match sample_all cpu_cores previous1 st1 procs,
        sample_all cpu_cores previous2 st2 procs with
  | Next st1', Next st2' => same_caches st1' st2'
  | Propagate e1 _, Propagate e2 _ => e1 = e2
  | _, _ => False
  end.
Proof.
  revert st1 st2. induction procs as [| p procs IH]; intros st1 st2 Hsame; cbn.
  - done.
  - pose proof (sample_process_same_caches cpu_cores previous1 previous2
                  st1 st2 p Hsame) as Hstep.
    destruct (sample_process cpu_cores previous1 st1 p),
      (sample_process cpu_cores previous2 st2 p); try done.
    by apply IH.
Qed.

Lemma prime_all_previous_irrelevant primer cache previous1 previous2
    snapshot pids :
  (prime_all primer cache previous1 snapshot pids).2
  = (prime_all primer cache previous2 snapshot pids).2.
Proof. apply map_eq. intros pid. by rewrite !prime_all_lookup. Qed.

(** The baseline a completed collection leaves for [pid]. *)
Lemma collect_io_snapshot cpu_cores g procs primer st pid counters :
  collect cpu_cores g (Ok procs) primer = Next st →
  current_io_snapshot st !! pid = Some counters →
  (∃ p, p ∈ procs ∧ pid_of p = Some pid)
  ∧ ((∃ p, p ∈ procs ∧ pid_of p = Some pid ∧ io_counters p = Ok counters)
     ∨ prime_io_counters (primer pid) = Ok counters).
Proof.
  intros (st1 & Hall & _ & _ & _ & _ & Hsnap)%collect_Next Hlookup.
  rewrite Hsnap, prime_all_lookup in Hlookup.
  destruct (primed _ _ _ _) as [primed_io |] eqn:Hprimed.
  - simplify_eq. apply primed_Some in Hprimed as (Hnew & _ & Hio).
    split; [| by right].
    destruct (sample_all_newly_cached _ _ _ _ _ _ Hall Hnew) as [Hold | ?];
      [| done].
    cbn in Hold. by apply elem_of_nil in Hold.
  - destruct (sample_all_io_snapshot _ _ _ _ _ _ _ Hall Hlookup)
      as [Hold | (p & Hp & Hpid & Hio)].
    + cbn in Hold. by rewrite lookup_empty in Hold.
    + split; [by exists p | left; by exists p].
Qed.

(** ** The name field *)
Lemma name_field_length_pos indent : 1 ≤ name_field_length indent.
Proof. unfold name_field_length. lia. Qed.

Lemma choose_truncation_stop display_name width :
  1 ≤ width →
  match choose_truncation display_name width with
  | Ellipsis stop | Hard stop => 1 ≤ stop ∧ stop ≤ width
  | Fits => len display_name ≤ width
  end.
Proof.
  intros Hw. unfold choose_truncation. repeat case_decide; lia.
Qed.

Lemma elem_of_sorted (l : list Z) x : x ∈ sorted l ↔ x ∈ l.
Proof. unfold sorted. by rewrite merge_sort_Permutation. Qed.

Lemma for_children_written call pids children_total x :
  x ∈ (for_children call pids children_total).1 →
  ∃ child_pid, child_pid ∈ pids ∧ x ∈ (call child_pid).1.
Proof.
  revert children_total.
  induction pids as [| c pids IH]; intros acc Hx; cbn in Hx.
  - by apply elem_of_nil in Hx.
  - destruct (call c) as [written [child_sum | |]] eqn:Hcall; cbn in Hx.
    + destruct (for_children call pids _) as [more res] eqn:Hmore. cbn in Hx.
      apply elem_of_app in Hx as [Hx | Hx].
      * exists c. rewrite Hcall. split; [left | done].
      * destruct (IH (add_child acc child_sum)) as (c' & Hc' & Hx').
        { by rewrite Hmore. }
        exists c'. split; [by right | done].
    + exists c. rewrite Hcall. split; [left | done].
    + exists c. rewrite Hcall. split; [left | done].
Qed.

Section lines.
Context (snapshot_data : gmap Z process_data) (children_map : gmap Z (list Z)).
Context (P : Z → string → line → Prop).
Hypothesis P_missing :
  ∀ pid indent, snapshot_data !! pid = None →
    P pid indent (TerminatedMissing indent (name_field_length indent) pid).
Hypothesis P_own :
  ∀ pid indent data total l,
    snapshot_data !! pid = Some data →
    format_line indent pid data
      (valid_children_pids snapshot_data children_map pid) total = Some l →
    P pid indent l.
Hypothesis P_child :
  ∀ pid indent child_pid l,
    tree_edge snapshot_data children_map pid child_pid →
    P child_pid (indent +:+ INDENT_STRING) l → P pid indent l.

Lemma log_process_tree_written fuel pid indent l :
  l ∈ (log_process_tree fuel snapshot_data children_map pid indent).1 →
  P pid indent l.
Proof.
  revert pid indent l.
  induction fuel as [| fuel IH]; intros pid indent l Hl; cbn in Hl.
  - by apply elem_of_nil in Hl.
  - destruct (snapshot_data !! pid) as [data |] eqn:Hdata.
    + assert (Hchildren :
        ∀ x, x ∈ (for_children
                    (λ child_pid,
                       log_process_tree fuel snapshot_data children_map
                         child_pid (indent +:+ INDENT_STRING))
                    (sorted (valid_children_pids snapshot_data children_map pid))
                    (zero_totals 0)).1 → P pid indent x).
      { intros x Hx. apply for_children_written in Hx as (c & Hc & Hx).
        apply P_child with c; [| by apply IH].
        split; [by rewrite Hdata | by apply elem_of_sorted]. }
      destruct (for_children _ _ _) as [written [children_total | |]];
        cbn in Hchildren; [| by apply Hchildren | by apply Hchildren].
      destruct (format_line _ _ _ _ _) as [own |] eqn:Hown; cbn in Hl;
        [| by apply Hchildren].
      apply elem_of_app in Hl as [Hl | Hl]; [by apply Hchildren |].
      apply list_elem_of_singleton in Hl as ->. by eapply P_own.
    + cbn in Hl. apply list_elem_of_singleton in Hl as ->. by apply P_missing.
Qed.
End lines.

(** C9: at every indentation the name field is at least one character
    wide, the slice bound of either truncation branch is at least 1, and
    every line [log_process_tree] writes, at any depth below the call, has
    a name field of width at least 1. *)
Theorem name_field_width_positive indent :
  1 ≤ name_field_length indent
  ∧ (∀ display_name,
       match choose_truncation display_name (name_field_length indent) with
       | Ellipsis stop | Hard stop => 1 ≤ stop
       | Fits => True
       end)
  ∧ (∀ fuel snapshot_data children_map pid l width,
       l ∈ (log_process_tree fuel snapshot_data children_map pid indent).1 →
       line_width l = Some width → 1 ≤ width).
Proof.
  split; [apply name_field_length_pos |]. split.
  - intros display_name.
    pose proof (choose_truncation_stop display_name (name_field_length indent)
                  (name_field_length_pos indent)) as H.
    by destruct (choose_truncation _ _); [destruct H | destruct H |].
  - intros fuel snapshot_data children_map pid l width Hl.
    revert width.
    apply (log_process_tree_written snapshot_data children_map
             (λ _ _ l, ∀ width, line_width l = Some width → 1 ≤ width))
      with fuel pid indent; [| | | done].
    + intros ? ind _ width [= <-]. apply name_field_length_pos.
    + intros ? ind data total own _ Hown width Hw. unfold format_line in Hown.
      destruct (d_name data), (d_status data); simplify_eq. cbn in Hw.
      simplify_eq. apply name_field_length_pos.
    + auto.
Qed.

(** ** The forest builder *)

Section forest_fold.
Context (all_pids : gset Z).

Lemma forest_fold_roots items children_map0 roots0 pid :
  pid ∈ (foldl (forest_step all_pids) (children_map0, roots0) items).2
  ↔ pid ∈ roots0
    ∨ ∃ data, (pid, data) ∈ items
              ∧ is_root_candidate all_pids (d_ppid data) = true.
Proof.
  revert children_map0 roots0.
  induction items as [| [pid' data'] items IH]; intros cm0 r0; cbn.
  - split; [by left |]. intros [? | (data & Hin & _)]; [done |].
    by apply elem_of_nil in Hin.
  - rewrite IH. clear IH. split.
    + intros [Hin | (data & Hin & Hroot)].
      * destruct (is_root_candidate all_pids (d_ppid data')) eqn:Hroot;
          [| by left].
        apply elem_of_union in Hin as [Hin | Hin]; [| by left].
        apply elem_of_singleton in Hin as ->.
        right. exists data'. split; [left | done].
      * right. exists data. split; [by right | done].
    + intros [Hin | (data & Hin & Hroot)].
      * left. destruct (is_root_candidate _ _); set_solver.
      * apply elem_of_cons in Hin as [[= -> ->] | Hin].
        -- left. rewrite Hroot. set_solver.
        -- right. by exists data.
Qed.

Lemma forest_fold_children items children_map0 roots0 pp :
  default [] ((foldl (forest_step all_pids) (children_map0, roots0) items).1
              !! pp)
  = default [] (children_map0 !! pp)
    ++ (filter (λ item, parent_in_snapshot all_pids (d_ppid item.2) = Some pp)
          items).*1.
Proof.
  revert children_map0 roots0.
  induction items as [| [pid data] items IH]; intros cm0 r0; cbn.
  - by rewrite app_nil_r.
  - rewrite IH. clear IH.
    destruct (parent_in_snapshot all_pids (d_ppid data)) as [pp' |] eqn:Hpar.
    + destruct (decide (pp' = pp)) as [-> | Hne].
      * rewrite lookup_insert_eq. cbn. rewrite decide_True by done.
        cbn. by rewrite <- app_assoc.
      * rewrite lookup_insert_ne by done.
        rewrite decide_False by congruence. done.
    + rewrite decide_False by congruence. done.
Qed.
End forest_fold.

Lemma elem_of_children snapshot_data pp child :
  child ∈ default [] (children_map snapshot_data !! pp)
  ↔ live_parent snapshot_data child = Some pp.
Proof.
  unfold children_map, build_forest. rewrite forest_fold_children.
  rewrite lookup_empty. cbn. rewrite list_elem_of_fmap. unfold live_parent.
  split.
  - intros ([pid data] & -> & Hin). apply list_elem_of_filter in Hin as [Hpar Hin].
    apply elem_of_map_to_list in Hin. cbn in *. by rewrite Hin.
  - destruct (snapshot_data !! child) as [data |] eqn:Hdata; [| done]. cbn.
    intros Hpar. exists (child, data). split; [done |].
    apply list_elem_of_filter. split; [done |]. by apply elem_of_map_to_list.
Qed.

Lemma NoDup_children snapshot_data pp :
  NoDup (default [] (children_map snapshot_data !! pp)).
Proof.
  unfold children_map, build_forest. rewrite forest_fold_children.
  rewrite lookup_empty. cbn.
  eapply sublist_NoDup; [apply (NoDup_fst_map_to_list snapshot_data) |].
  apply fmap_sublist, sublist_filter.
Qed.

Lemma live_parent_Some snapshot_data child pp :
  live_parent snapshot_data child = Some pp →
  is_Some (snapshot_data !! child) ∧ is_Some (snapshot_data !! pp) ∧ pp ≠ 0.
Proof.
  unfold live_parent.
  destruct (snapshot_data !! child) as [data |]; [| done]. cbn.
  unfold parent_in_snapshot. destruct (d_ppid data) as [pp' |]; [| done].
  case_decide as H; [| done]. intros [= ->]. destruct H as [H0 Hdom].
  apply elem_of_dom in Hdom. done.
Qed.

Lemma elem_of_valid_children snapshot_data pp child :
  child ∈ valid_children_pids snapshot_data (children_map snapshot_data) pp
  ↔ live_parent snapshot_data child = Some pp.
Proof.
  unfold valid_children_pids. rewrite list_elem_of_filter, elem_of_children.
  split; [by intros [_ ?] |]. intros Hpar. split; [| done].
  apply elem_of_dom. by apply live_parent_Some in Hpar as [? _].
Qed.

Lemma NoDup_valid_children snapshot_data pp :
  NoDup (valid_children_pids snapshot_data (children_map snapshot_data) pp).
Proof. apply NoDup_filter, NoDup_children. Qed.

Lemma tree_edge_live_parent snapshot_data pp child :
  tree_edge snapshot_data (children_map snapshot_data) pp child
  ↔ live_parent snapshot_data child = Some pp.
Proof.
  unfold tree_edge. rewrite elem_of_valid_children.
  split; [by intros [_ ?] |]. intros Hpar. split; [| done].
  by apply live_parent_Some in Hpar as (_ & ? & _).
Qed.

Lemma is_root_candidate_live_parent all_pids ppid :
  is_root_candidate all_pids ppid = true
  ↔ parent_in_snapshot all_pids ppid = None.
Proof.
  unfold is_root_candidate, parent_in_snapshot.
  destruct ppid as [pp |]; [| done].
  rewrite orb_true_iff, !bool_decide_eq_true.
  case_decide as H; split; try done.
  - intros [-> | Hout]; [by destruct H | by destruct H as [_ ?]].
  - intros _. destruct (decide (pp = 0)); [by left |].
    right. intros Hin. apply H. done.
Qed.

Lemma elem_of_root_candidates snapshot_data pid :
  pid ∈ root_candidates snapshot_data
  ↔ is_Some (snapshot_data !! pid) ∧ live_parent snapshot_data pid = None.
Proof.
  unfold root_candidates, build_forest. rewrite forest_fold_roots.
  unfold live_parent. split.
  - intros [Hin | (data & Hin & Hroot)]; [set_solver |].
    apply elem_of_map_to_list in Hin. rewrite Hin. cbn.
    split; [done |]. by apply is_root_candidate_live_parent.
  - intros [[data Hdata] Hpar]. rewrite Hdata in Hpar. cbn in Hpar.
    right. exists data. split; [by apply elem_of_map_to_list |].
    by apply is_root_candidate_live_parent.
Qed.

Lemma elem_of_root_pids_to_log snapshot_data pid :
  pid ∈ root_pids_to_log snapshot_data ↔ pid ∈ root_candidates snapshot_data.
Proof. unfold root_pids_to_log. by rewrite elem_of_sorted, elem_of_elements. Qed.

(** ** The subtree aggregator *)

(** When the loop over the children returns, every recursive call
    returned, the lines are theirs in order and the total is the left fold
    of [add_child] over their sums. *)
Lemma for_children_Returned call pids children_total written t :
  for_children call pids children_total = (written, Returned t) →
  ∃ results : list (list line * totals),
    Forall2 (λ child_pid r, call child_pid = (r.1, Returned r.2)) pids results
    ∧ written = concat results.*1
    ∧ t = foldl add_child children_total results.*2.
Proof.
  revert children_total written.
  induction pids as [| c pids IH]; intros acc written Hfor; cbn in Hfor.
  - simplify_eq. by exists [].
  - destruct (call c) as [wc [child_sum | |]] eqn:Hcall; [| done | done].
    destruct (for_children call pids _) as [more res] eqn:Hmore.
    simplify_eq. destruct (IH _ _ Hmore) as (results & Hall & -> & ->).
    exists ((wc, child_sum) :: results). by repeat split; [constructor |..].
Qed.

Lemma for_children_all_Returned call pids children_total
    (results : list (list line * totals)) :
  Forall2 (λ child_pid r, call child_pid = (r.1, Returned r.2)) pids results →
  for_children call pids children_total
  = (concat results.*1, Returned (foldl add_child children_total results.*2)).
Proof.
  intros Hall. revert children_total.
  induction Hall as [| c [wc tc] pids results Hc _ IH]; intros acc; cbn; [done |].
  cbn in Hc. by rewrite Hc, IH.
Qed.

(** The loop gives the same result with calls that agree wherever the
    second does not run out of fuel, if the second loop does not either. *)
Lemma for_children_more_fuel call1 call2 pids children_total :
  (∀ child_pid, child_pid ∈ pids →
     (call2 child_pid).2 ≠ OutOfFuel → call1 child_pid = call2 child_pid) →
  (for_children call2 pids children_total).2 ≠ OutOfFuel →
  for_children call1 pids children_total
  = for_children call2 pids children_total.
Proof.
  revert children_total.
  induction pids as [| c pids IH]; intros acc Hext Hok; cbn in *; [done |].
  assert (Hc : (call2 c).2 ≠ OutOfFuel → call1 c = call2 c)
    by (apply Hext; left).
  destruct (call2 c) as [wc [child_sum | |]]; cbn in *.
  - rewrite Hc by done. rewrite IH; [done | |].
    + intros c' Hc'. apply Hext. by right.
    + by destruct (for_children call2 pids _).
  - by rewrite Hc.
  - done.
Qed.

Lemma for_children_no_fuel call pids children_total :
  (for_children call pids children_total).2 = OutOfFuel →
  ∃ child_pid, child_pid ∈ pids ∧ (call child_pid).2 = OutOfFuel.
Proof.
  revert children_total.
  induction pids as [| c pids IH]; intros acc Hfor; cbn in Hfor; [done |].
  destruct (call c) as [wc [child_sum | |]] eqn:Hcall; cbn in Hfor.
  - destruct (for_children call pids _) as [more res] eqn:Hmore. cbn in Hfor.
    destruct (IH (add_child acc child_sum)) as (c' & Hc' & Hres).
    { by rewrite Hmore. }
    exists c'. split; [by right | done].
  - done.
  - exists c. rewrite Hcall. split; [left | done].
Qed.

Section fuel.
Context (snapshot_data : gmap Z process_data) (children_map : gmap Z (list Z)).

(** More fuel does not change a call that did not run out of it. *)
Lemma log_process_tree_fuel_S fuel pid indent :
  (log_process_tree fuel snapshot_data children_map pid indent).2 ≠ OutOfFuel →
  log_process_tree (S fuel) snapshot_data children_map pid indent
  = log_process_tree fuel snapshot_data children_map pid indent.
Proof.
  revert pid indent. induction fuel as [| fuel IH]; intros pid indent Hok.
  - done.
  - change (log_process_tree (S (S fuel)) snapshot_data children_map pid indent)
      with (match snapshot_data !! pid with
            | None =>
                ([TerminatedMissing indent (name_field_length indent) pid],
                 Returned (zero_totals 1))
            | Some data =>
                let valid :=
                  valid_children_pids snapshot_data children_map pid in
                match for_children
                        (λ child_pid,
                           log_process_tree (S fuel) snapshot_data
                             children_map child_pid
                             (indent +:+ INDENT_STRING))
                        (sorted valid) (zero_totals 0) with
                | (written, Returned children_total) =>
                    let total := total_for_node data children_total in
                    match format_line indent pid data valid total with
                    | Some l => (written ++ [l], Returned total)
                    | None => (written, Raised)
                    end
                | (written, Raised) => (written, Raised)
                | (written, OutOfFuel) => (written, OutOfFuel)
                end
            end).
    cbn in Hok |- *.
    destruct (snapshot_data !! pid) as [data |]; [| done].
    cbn zeta in Hok |- *.
    rewrite (for_children_more_fuel
               (λ child_pid,
                  log_process_tree (S fuel) snapshot_data children_map
                    child_pid (indent +:+ INDENT_STRING))
               (λ child_pid,
                  log_process_tree fuel snapshot_data children_map
                    child_pid (indent +:+ INDENT_STRING))); [done | |].
    + intros c _. apply IH.
    + destruct (for_children _ _ _) as [written [| |]]; [done | done |].
      by cbn in Hok.
Qed.

Lemma log_process_tree_fuel_le fuel fuel' pid indent :
  (fuel ≤ fuel')%nat →
  (log_process_tree fuel snapshot_data children_map pid indent).2 ≠ OutOfFuel →
  log_process_tree fuel' snapshot_data children_map pid indent
  = log_process_tree fuel snapshot_data children_map pid indent.
Proof.
  intros Hle Hok. induction Hle as [| fuel' _ IH]; [done |].
  rewrite <- IH. apply log_process_tree_fuel_S. by rewrite IH.
Qed.

(** The totals a call returns do not depend on the fuel. *)
Lemma returns_functional pid indent t1 t2 :
  returns snapshot_data children_map pid indent t1 →
  returns snapshot_data children_map pid indent t2 → t1 = t2.
Proof.
  intros (fuel1 & w1 & H1) (fuel2 & w2 & H2).
  destruct (Nat.le_ge_cases fuel1 fuel2) as [Hle | Hle].
  - rewrite (log_process_tree_fuel_le fuel1 fuel2) in H2 by (rewrite ?H1; done).
    congruence.
  - rewrite (log_process_tree_fuel_le fuel2 fuel1) in H1 by (rewrite ?H2; done).
    congruence.
Qed.
End fuel.

Lemma foldl_add_child children_total (sums : list totals) :
  cpu (foldl add_child children_total sums)
  = foldl PrimFloat.add (cpu children_total) (cpu <$> sums)
  ∧ ws_kb (foldl add_child children_total sums)
    = ws_kb children_total + sum_Z (ws_kb <$> sums)
  ∧ delta_read_bytes (foldl add_child children_total sums)
    = delta_read_bytes children_total + sum_Z (delta_read_bytes <$> sums)
  ∧ delta_write_bytes (foldl add_child children_total sums)
    = delta_write_bytes children_total + sum_Z (delta_write_bytes <$> sums)
  ∧ error_count (foldl add_child children_total sums)
    = error_count children_total + sum_Z (error_count <$> sums).
Proof.
  revert children_total.
  induction sums as [| s sums IH]; intros acc; cbn.
  - unfold sum_Z. cbn. repeat split; try done; lia.
  - destruct (IH (add_child acc s)) as (-> & -> & -> & -> & ->).
    unfold sum_Z. cbn. repeat split; try done; lia.
Qed.

(** What a call on a sampled pid is made of when it returns. *)
Lemma log_process_tree_Returned snapshot_data children_map fuel pid indent
    data written t :
  snapshot_data !! pid = Some data →
  log_process_tree fuel snapshot_data children_map pid indent
  = (written, Returned t) →
  ∃ fuel' (results : list (list line * totals)) own,
    fuel = S fuel'
    ∧ Forall2
        (λ child_pid r,
           log_process_tree fuel' snapshot_data children_map child_pid
             (indent +:+ INDENT_STRING) = (r.1, Returned r.2))
        (sorted (valid_children_pids snapshot_data children_map pid)) results
    ∧ t = total_for_node data (foldl add_child (zero_totals 0) results.*2)
    ∧ format_line indent pid data
        (valid_children_pids snapshot_data children_map pid) t = Some own
    ∧ written = concat results.*1 ++ [own].
Proof.
  intros Hdata Hcall. destruct fuel as [| fuel']; [done |].
  cbn in Hcall. rewrite Hdata in Hcall. cbn zeta in Hcall.
  destruct (for_children _ _ _) as [wr [children_total | |]] eqn:Hfor;
    [| done | done].
  destruct (format_line _ _ _ _ _) as [own |] eqn:Hown; [| done].
  simplify_eq. apply for_children_Returned in Hfor as (results & Hall & -> & ->).
  by exists fuel', results, own.
Qed.

(** C6: the totals a call returns for a sampled pid are the node's own
    values plus the sums of what the calls on its valid children return, in
    sorted order: CPU (a float sum taken left to right), working set, read
    and write deltas.  The CPU sum is not normalised: the subtree of
    [busy_family] totals more than 100. *)
Theorem subtree_totals_additive snapshot_data children pid indent data t :
  snapshot_data !! pid = Some data →
  returns snapshot_data children pid indent t →
  (∃ child_sums : list totals,
     Forall2
       (λ child_pid child_sum,
          returns snapshot_data children child_pid
            (indent +:+ INDENT_STRING) child_sum)
       (sorted (valid_children_pids snapshot_data children pid)) child_sums
     ∧ cpu t = (d_cpu_percent data + sum_float (cpu <$> child_sums))%float
     ∧ ws_kb t = d_mem_ws_kb data + sum_Z (ws_kb <$> child_sums)
     ∧ delta_read_bytes t
       = d_delta_read_bytes data + sum_Z (delta_read_bytes <$> child_sums)
     ∧ delta_write_bytes t
       = d_delta_write_bytes data + sum_Z (delta_write_bytes <$> child_sums))
  ∧ (∃ busy, returns busy_family (children_map busy_family) 1 "" busy
             ∧ (100 <? cpu busy)%float = true).
Proof.
  intros Hdata (fuel & written & Hcall). split.
  - destruct (log_process_tree_Returned _ _ _ _ _ _ _ _ Hdata Hcall)
      as (fuel' & results & own & -> & Hall & -> & _ & _).
    exists results.*2. split.
    + apply Forall2_fmap_r. eapply Forall2_impl; [exact Hall |].
      intros c r Hc. by exists fuel', r.1.
    + destruct (foldl_add_child (zero_totals 0) results.*2)
        as (Hcpu & Hws & Hr & Hw & _).
      cbn. rewrite Hcpu, Hws, Hr, Hw. cbn. by repeat split.
  - eexists. split; [exists 3%nat; eexists; vm_compute; reflexivity |].
    reflexivity.
Qed.

(** The scenario of the design notes: 1 with the children 2 (10) and 3 (5). *)
Lemma subtree_totals_additive_witness :
  ∃ t child_sums,
    returns family (children_map family) 1 "" t
    ∧ Forall2 (λ child_pid child_sum,
                 returns family (children_map family) child_pid
                   ("" +:+ INDENT_STRING) child_sum)
        (sorted (valid_children_pids family (children_map family) 1)) child_sums
    ∧ cpu t = (1 + sum_float (cpu <$> child_sums))%float.
Proof.
  assert (Hret : returns family (children_map family) 1 ""
                   {| cpu := 16; ws_kb := 6144; delta_read_bytes := 30;
                      delta_write_bytes := 60; error_count := 1 |}).
  { exists 3%nat. eexists. vm_compute. reflexivity. }
  destruct (subtree_totals_additive family (children_map family) 1 ""
              (node 1 (Some 0) "running" 1) _ eq_refl Hret)
    as [(child_sums & Hall & Hcpu & _) _].
  eexists _, child_sums. split; [exact Hret |]. split; [exact Hall |].
  exact Hcpu.
Defined.

(** ** Depth in the forest *)

Section ancestors.
Context (parent : Z → option Z).

Lemma ancestor_add a b pid :
  ancestor parent (a + b) pid = ancestor parent a pid ≫= ancestor parent b.
Proof.
  revert pid. induction a as [| a IH]; intros pid; cbn; [done |].
  destruct (parent pid) as [pp |]; cbn; [apply IH | done].
Qed.

Lemma on_cycle_has_parent pid : on_cycle parent pid → is_Some (parent pid).
Proof.
  intros (k & Hk & Hanc). destruct k as [| k]; [lia |]. cbn in Hanc.
  by destruct (parent pid).
Qed.
End ancestors.

Section depth.
Context (snapshot_data : gmap Z process_data).
Local Abbreviation parent := (live_parent snapshot_data).
Local Abbreviation edge := (tree_edge snapshot_data (children_map snapshot_data)).

Lemma at_depth_unique d1 d2 pid :
  at_depth snapshot_data d1 pid → at_depth snapshot_data d2 pid → d1 = d2.
Proof.
  assert (Hlt : ∀ a b pid, at_depth snapshot_data a pid →
                at_depth snapshot_data (a + S b) pid → False).
  { intros a b n (top & Ha & Htop) (top' & Hb & _).
    rewrite ancestor_add, Ha in Hb. cbn in Hb. by rewrite Htop in Hb. }
  intros H1 H2. destruct (Nat.lt_trichotomy d1 d2) as [Hd | [Hd | Hd]];
    [| done |].
  - destruct (Hlt d1 (d2 - d1 - 1)%nat pid H1).
    by replace (d1 + S (d2 - d1 - 1))%nat with d2 by lia.
  - destruct (Hlt d2 (d1 - d2 - 1)%nat pid H2).
    by replace (d2 + S (d1 - d2 - 1))%nat with d1 by lia.
Qed.

Lemma at_depth_root pid : parent pid = None → at_depth snapshot_data 0 pid.
Proof. intros Hnone. by exists pid. Qed.

Lemma at_depth_child d pp child :
  parent child = Some pp → at_depth snapshot_data d pp →
  at_depth snapshot_data (S d) child.
Proof.
  intros Hpar (top & Hanc & Htop). exists top. cbn. by rewrite Hpar.
Qed.

Lemma at_depth_parent d child :
  at_depth snapshot_data (S d) child →
  ∃ pp, parent child = Some pp ∧ at_depth snapshot_data d pp.
Proof.
  intros (top & Hanc & Htop). cbn in Hanc.
  destruct (parent child) as [pp |]; [| done]. exists pp.
  split; [done |]. by exists top.
Qed.

(** Walking down the tree edges is walking up the parent links. *)
Lemma in_subtree_ancestor root pid :
  in_subtree snapshot_data (children_map snapshot_data) root pid →
  ∃ k, ancestor parent k pid = Some root.
Proof.
  intros Hrtc.
  apply (rtc_ind_r (R := edge)
           (λ pid, ∃ k, ancestor parent k pid = Some root) root)
    with (z := pid); [| | exact Hrtc].
  - by exists 0%nat.
  - intros mid child _ Hedge [k Hk].
    apply tree_edge_live_parent in Hedge. exists (S k). cbn.
    by rewrite Hedge.
Qed.

Lemma at_depth_descendant d root pid :
  at_depth snapshot_data d root →
  in_subtree snapshot_data (children_map snapshot_data) root pid →
  ∃ k, at_depth snapshot_data (k + d) pid ∧ ancestor parent k pid = Some root.
Proof.
  intros (top & Hanc & Htop) [k Hk]%in_subtree_ancestor. exists k.
  split; [| done]. exists top. by rewrite ancestor_add, Hk.
Qed.

(** A pid on a cycle of live parent links has no depth. *)
Lemma on_cycle_no_depth d pid :
  on_cycle parent pid → ¬ at_depth snapshot_data d pid.
Proof.
  intros (k & Hk & Hcyc) Hd.
  assert (at_depth snapshot_data (k + d) pid) as Hd'.
  { destruct Hd as (top & Hanc & Htop). exists top.
    by rewrite ancestor_add, Hcyc. }
  pose proof (at_depth_unique _ _ _ Hd Hd'). lia.
Qed.

Lemma chain_spec d pid :
  at_depth snapshot_data d pid → is_Some (snapshot_data !! pid) →
  length (chain parent d pid) = S d
  ∧ (∀ x, x ∈ chain parent d pid →
       is_Some (snapshot_data !! x)
       ∧ ∃ j, (j ≤ d)%nat ∧ at_depth snapshot_data j x)
  ∧ NoDup (chain parent d pid).
Proof.
  revert pid. induction d as [| d IH]; intros pid Hd Hin; cbn.
  - split; [done |]. split; [| apply NoDup_singleton].
    intros x ->%list_elem_of_singleton. split; [done |]. by exists 0%nat.
  - destruct (at_depth_parent _ _ Hd) as (pp & Hpar & Hpp). rewrite Hpar.
    pose proof (live_parent_Some _ _ _ Hpar) as (_ & Hpp_in & _).
    destruct (IH pp Hpp Hpp_in) as (Hlen & Hall & Hnodup).
    split; [by rewrite Hlen |]. split.
    + intros x [-> | Hx]%elem_of_cons.
      * split; [done |]. by exists (S d).
      * destruct (Hall x Hx) as (? & j & ? & ?). split; [done |].
        exists j. split; [lia | done].
    + apply NoDup_cons. split; [| done]. intros Hx.
      destruct (Hall pid Hx) as (_ & j & Hj & Hdj).
      pose proof (at_depth_unique _ _ _ Hd Hdj). lia.
Qed.

(** A sampled pid is less deep than the snapshot is large. *)
Lemma at_depth_bound d pid :
  at_depth snapshot_data d pid → is_Some (snapshot_data !! pid) →
  (d < size snapshot_data)%nat.
Proof.
  intros Hd Hin. destruct (chain_spec d pid Hd Hin) as (Hlen & Hall & Hnodup).
  assert (chain parent d pid ⊆+ (map_to_list snapshot_data).*1) as Hsub.
  { apply NoDup_submseteq; [done |]. intros x Hx.
    destruct (Hall x Hx) as [[data Hdata] _].
    apply list_elem_of_fmap. exists (x, data).
    split; [done |]. by apply elem_of_map_to_list. }
  apply submseteq_length in Hsub.
  rewrite length_fmap, Hlen in Hsub.
  rewrite length_map_to_list in Hsub. lia.
Qed.

(** *** Termination *)

Lemma log_process_tree_enough_fuel fuel d pid indent :
  at_depth snapshot_data d pid →
  is_Some (snapshot_data !! pid) ∨ (0 < fuel)%nat →
  (size snapshot_data ≤ fuel + d)%nat →
  (log_process_tree fuel snapshot_data (children_map snapshot_data)
     pid indent).2 ≠ OutOfFuel.
Proof.
  revert d pid indent.
  induction fuel as [| fuel IH]; intros d pid indent Hd Hin Hsize.
  - destruct Hin as [Hin | ?]; [| lia].
    pose proof (at_depth_bound d pid Hd Hin). lia.
  - cbn. destruct (snapshot_data !! pid) as [data |] eqn:Hdata; [| done].
    cbn zeta.
    destruct (for_children _ _ _) as [written res] eqn:Hfor.
    destruct res as [children_total | |];
      [by destruct (format_line _ _ _ _ _) | done |].
    exfalso.
    destruct (for_children_no_fuel _ _ _ (f_equal snd Hfor))
      as (c & Hc & Hno).
    apply elem_of_sorted, elem_of_valid_children in Hc.
    revert Hno. apply (IH (S d)).
    + by apply at_depth_child with pid.
    + left. by apply live_parent_Some in Hc as [? _].
    + lia.
Qed.

(** *** The lines of a subtree *)

Lemma no_edge_from_missing pid x :
  snapshot_data !! pid = None →
  in_subtree snapshot_data (children_map snapshot_data) pid x → x = pid.
Proof.
  intros Hnone [<- | (y & [Hsome _] & _)]%rtc_inv; [done |].
  rewrite Hnone in Hsome. by destruct Hsome.
Qed.

(** Every line a call writes is about a node of the subtree. *)
Lemma written_in_subtree fuel pid indent l :
  l ∈ (log_process_tree fuel snapshot_data (children_map snapshot_data)
         pid indent).1 →
  ∃ x, line_pid l = Some x
       ∧ in_subtree snapshot_data (children_map snapshot_data) pid x.
Proof.
  apply (log_process_tree_written snapshot_data (children_map snapshot_data)
           (λ pid _ l,
              ∃ x, line_pid l = Some x
                   ∧ in_subtree snapshot_data (children_map snapshot_data)
                       pid x)).
  - intros n ind _. exists n. split; [done | apply rtc_refl].
  - intros n ind data total own _ Hown. exists n. split; [| apply rtc_refl].
    unfold format_line in Hown.
    by destruct (d_name data), (d_status data); simplify_eq.
  - intros n ind c own Hedge (x & Hx & Hsub). exists x. split; [done |].
    by eapply rtc_l.
Qed.

Lemma counted_app l1 l2 :
  counted snapshot_data (l1 ++ l2)
  = counted snapshot_data l1 + counted snapshot_data l2.
Proof. unfold counted. rewrite filter_app, length_app. lia. Qed.

Lemma counted_singleton pid :
  counted snapshot_data [pid] = if counts_as_error snapshot_data pid then 1 else 0.
Proof.
  unfold counted. rewrite filter_cons, filter_nil.
  destruct (counts_as_error snapshot_data pid).
  - by rewrite decide_True by done.
  - by rewrite decide_False by done.
Qed.

Lemma line_pids_app l1 l2 : line_pids (l1 ++ l2) = line_pids l1 ++ line_pids l2.
Proof. apply omap_app. Qed.

(** The lines of the children of a node, given what holds of each. *)
Lemma children_lines (call : Z → list line * outcome totals)
    (pids : list Z) (results : list (list line * totals)) :
  Forall2 (λ child_pid r, call child_pid = (r.1, Returned r.2)) pids results →
  NoDup pids →
  (∀ c r, c ∈ pids → call c = (r.1, Returned r.2) →
     NoDup (line_pids r.1)
     ∧ (∀ x, x ∈ line_pids r.1
             ↔ in_subtree snapshot_data (children_map snapshot_data) c x)
     ∧ error_count r.2 = counted snapshot_data (line_pids r.1)) →
  (∀ c1 c2 x, c1 ∈ pids → c2 ∈ pids →
     in_subtree snapshot_data (children_map snapshot_data) c1 x →
     in_subtree snapshot_data (children_map snapshot_data) c2 x → c1 = c2) →
  NoDup (line_pids (concat results.*1))
  ∧ (∀ x, x ∈ line_pids (concat results.*1)
          ↔ ∃ c, c ∈ pids
                 ∧ in_subtree snapshot_data (children_map snapshot_data) c x)
  ∧ sum_Z (error_count <$> results.*2) = counted snapshot_data (line_pids (concat results.*1)).
Proof.
  induction 1 as [| c r pids results Hc Hall IH]; intros Hnodup Heach Hdisj.
  - cbn. split; [apply NoDup_nil_2 |]. split; [| done].
    intros x. split; [by intros ?%elem_of_nil |].
    by intros (c & ?%elem_of_nil & _).
  - apply NoDup_cons in Hnodup as [Hnotin Hnodup].
    destruct (Heach c r (list_elem_of_here _ _) Hc) as (Hnd & Hmem & Hcount).
    destruct (IH Hnodup) as (IHnd & IHmem & IHcount).
    { intros c' r' Hc'. apply Heach. by right. }
    { intros c1 c2 x H1 H2. apply Hdisj; by right. }
    cbn. rewrite line_pids_app, counted_app. split; [| split].
    + apply NoDup_app. split; [done |]. split; [| done].
      intros x Hx Hx'. apply Hmem in Hx. apply IHmem in Hx' as (c' & Hc' & Hx').
      assert (c = c') as <- by (eapply Hdisj; [left | by right | done..]).
      done.
    + intros x. rewrite elem_of_app, Hmem, IHmem. split.
      * intros [Hx | (c' & Hc' & Hx)]; [exists c; split; [left | done] |].
        exists c'. split; [by right | done].
      * intros (c' & [-> | Hc']%elem_of_cons & Hx); [by left |].
        right. by exists c'.
    + unfold sum_Z in *. cbn. rewrite IHcount, Hcount. done.
Qed.

(** The lines of a call that returns are the nodes of the subtree, each
    once, and [error_count] counts those that are in error. *)
Lemma log_process_tree_nodes fuel d pid indent written t :
  at_depth snapshot_data d pid →
  log_process_tree fuel snapshot_data (children_map snapshot_data) pid indent
  = (written, Returned t) →
  NoDup (line_pids written)
  ∧ (∀ x, x ∈ line_pids written
          ↔ in_subtree snapshot_data (children_map snapshot_data) pid x)
  ∧ error_count t = counted snapshot_data (line_pids written).
Proof.
  revert d pid indent written t.
  induction fuel as [| fuel IH]; intros d pid indent written t Hd Hcall;
    [done |].
  destruct (snapshot_data !! pid) as [data |] eqn:Hdata.
  - destruct (log_process_tree_Returned _ _ _ _ _ _ _ _ Hdata Hcall)
      as (fuel' & results & own & [= <-] & Hall & -> & Hown & ->).
    assert (Hpid : line_pid own = Some pid).
    { unfold format_line in Hown.
      by destruct (d_name data), (d_status data); simplify_eq. }
    assert (Hchild : ∀ c,
              c ∈ sorted (valid_children_pids snapshot_data
                            (children_map snapshot_data) pid) ↔
              live_parent snapshot_data c = Some pid).
    { intros c. by rewrite elem_of_sorted, elem_of_valid_children. }
    destruct (children_lines _ _ _ Hall) as (Hnd & Hmem & Hcount).
    { unfold sorted. rewrite merge_sort_Permutation.
      apply NoDup_valid_children. }
    { intros c r Hc Hr.
      apply (IH (S d) c (indent +:+ INDENT_STRING)); [| done].
      apply at_depth_child with pid; [by apply Hchild | done]. }
    { intros c1 c2 x H1 H2 Hx1 Hx2.
      assert (Hd1 : at_depth snapshot_data (S d) c1)
        by (apply at_depth_child with pid; [by apply Hchild | done]).
      assert (Hd2 : at_depth snapshot_data (S d) c2)
        by (apply at_depth_child with pid; [by apply Hchild | done]).
      destruct (at_depth_descendant _ _ _ Hd1 Hx1) as (k1 & Hk1 & Ha1).
      destruct (at_depth_descendant _ _ _ Hd2 Hx2) as (k2 & Hk2 & Ha2).
      pose proof (at_depth_unique _ _ _ Hk1 Hk2).
      assert (k1 = k2) as -> by lia. congruence. }
    rewrite line_pids_app, counted_app. cbn. rewrite Hpid. cbn.
    split; [| split].
    + apply NoDup_app. split; [done |]. split; [| apply NoDup_singleton].
      intros x Hx ->%list_elem_of_singleton.
      apply Hmem in Hx as (c & Hc & Hx).
      assert (Hdc : at_depth snapshot_data (S d) c)
        by (apply at_depth_child with pid; [by apply Hchild | done]).
      destruct (at_depth_descendant _ _ _ Hdc Hx) as (k & Hk & _).
      pose proof (at_depth_unique _ _ _ Hd Hk). lia.
    + intros x. rewrite elem_of_app, Hmem, list_elem_of_singleton. split.
      * intros [(c & Hc & Hx) | ->]; [| apply rtc_refl].
        eapply rtc_l; [| exact Hx]. apply tree_edge_live_parent.
        by apply Hchild.
      * intros [<- | (c & Hedge & Hx)]%rtc_inv; [by right |].
        left. exists c. split; [| done].
        by apply Hchild, tree_edge_live_parent.
    + destruct (foldl_add_child (zero_totals 0) results.*2)
        as (_ & _ & _ & _ & Herr).
      cbn. rewrite Herr, Hcount, counted_singleton. cbn.
      unfold counts_as_error. rewrite Hdata.
      destruct (status_in (d_status data) error_statuses); lia.
  - cbn in Hcall. rewrite Hdata in Hcall. simplify_eq. cbn.
    split; [apply NoDup_singleton |]. split.
    + intros x. rewrite list_elem_of_singleton. split; [intros ->; apply rtc_refl |].
      by apply no_edge_from_missing.
    + rewrite counted_singleton. unfold counts_as_error. by rewrite Hdata.
Qed.
End depth.

(** ** Calls that raise *)

Lemma for_children_raised call pids children_total :
  (for_children call pids children_total).2 = Raised →
  ∃ child_pid, child_pid ∈ pids ∧ (call child_pid).2 = Raised.
Proof.
  revert children_total.
  induction pids as [| c pids IH]; intros acc Hfor; cbn in Hfor; [done |].
  destruct (call c) as [wc [child_sum | |]] eqn:Hcall; cbn in Hfor.
  - destruct (for_children call pids _) as [more res] eqn:Hmore. cbn in Hfor.
    destruct (IH (add_child acc child_sum)) as (c' & Hc' & Hres).
    { by rewrite Hmore. }
    exists c'. split; [by right | done].
  - exists c. rewrite Hcall. split; [left | done].
  - done.
Qed.

(** A call raises only where a sampled name or status is [None]. *)
Lemma log_process_tree_raised snapshot_data children fuel pid indent :
  (log_process_tree fuel snapshot_data children pid indent).2 = Raised →
  ∃ x data, snapshot_data !! x = Some data
            ∧ (d_name data = None ∨ d_status data = None).
Proof.
  revert pid indent. induction fuel as [| fuel IH]; intros pid indent; [done |].
  cbn. destruct (snapshot_data !! pid) as [data |] eqn:Hdata; [| done].
  cbn zeta. destruct (for_children _ _ _) as [written res] eqn:Hfor.
  destruct res as [children_total | |]; [| | done].
  - unfold format_line.
    destruct (d_name data) eqn:Hname, (d_status data) eqn:Hstatus; [done |..];
      intros _; exists pid, data; auto.
  - intros _.
    destruct (for_children_raised _ _ _ (f_equal snd Hfor)) as (c & _ & Hc).
    by eapply IH.
Qed.

(** ** The roots of a snapshot *)

Lemma log_roots_written fuel snapshot_data children roots errors l :
  l ∈ (log_roots fuel snapshot_data children roots errors).1 →
  ∃ root, root ∈ roots
          ∧ (l = Disappeared (Z.max 1 45) root
             ∨ l ∈ (log_process_tree fuel snapshot_data children root "").1).
Proof.
  revert errors.
  induction roots as [| r roots IH]; intros errors Hl; cbn in Hl.
  - by apply elem_of_nil in Hl.
  - case_decide as Hin.
    + destruct (log_process_tree fuel snapshot_data children r "")
        as [written [info | |]] eqn:Hcall; cbn in Hl.
      * destruct (log_roots fuel snapshot_data children roots _)
          as [more res] eqn:Hmore. cbn in Hl.
        apply elem_of_app in Hl as [Hl | Hl].
        -- exists r. rewrite Hcall. split; [left | by right].
        -- destruct (IH (errors + error_count info)) as (r' & Hr' & Hl').
           { by rewrite Hmore. }
           exists r'. split; [by right | done].
      * exists r. rewrite Hcall. split; [left | by right].
      * exists r. rewrite Hcall. split; [left | by right].
    + destruct (log_roots fuel snapshot_data children roots errors)
        as [more res] eqn:Hmore. cbn in Hl.
      apply elem_of_cons in Hl as [-> | Hl].
      * exists r. split; [left | by left].
      * destruct (IH errors) as (r' & Hr' & Hl'); [by rewrite Hmore |].
        exists r'. split; [by right | done].
Qed.

Lemma log_roots_no_fuel fuel snapshot_data children roots errors :
  (log_roots fuel snapshot_data children roots errors).2 = OutOfFuel →
  ∃ root, root ∈ roots
          ∧ (log_process_tree fuel snapshot_data children root "").2 = OutOfFuel.
Proof.
  revert errors.
  induction roots as [| r roots IH]; intros errors Hno; cbn in Hno; [done |].
  case_decide as Hin.
  - destruct (log_process_tree fuel snapshot_data children r "")
      as [written [info | |]] eqn:Hcall; cbn in Hno.
    + destruct (log_roots fuel snapshot_data children roots _)
        as [more res] eqn:Hmore. cbn in Hno.
      destruct (IH (errors + error_count info)) as (r' & Hr' & Hno').
      { by rewrite Hmore. }
      exists r'. split; [by right | done].
    + done.
    + exists r. rewrite Hcall. split; [left | done].
  - destruct (log_roots fuel snapshot_data children roots errors)
      as [more res] eqn:Hmore. cbn in Hno.
    destruct (IH errors) as (r' & Hr' & Hno'); [by rewrite Hmore |].
    exists r'. split; [by right | done].
Qed.

Lemma write_snapshot_written fuel snapshot_data l :
  l ∈ (write_snapshot fuel snapshot_data).1 →
  line_pid l = None
  ∨ ∃ root, root ∈ root_candidates snapshot_data
            ∧ (line_pid l = Some root
               ∨ l ∈ (log_process_tree fuel snapshot_data
                        (children_map snapshot_data) root "").1).
Proof.
  unfold write_snapshot.
  destruct (root_pids_to_log snapshot_data) as [| r roots] eqn:Hroots.
  - intros [-> | [-> | []%elem_of_nil]%elem_of_cons]%elem_of_cons; by left.
  - destruct (log_roots _ _ _ _ _) as [written res] eqn:Hlog. cbn.
    intros [-> | Hl]%elem_of_cons; [by left |]. right.
    destruct (log_roots_written fuel snapshot_data (children_map snapshot_data)
                (r :: roots) 0 l) as (root & Hroot & Hcase).
    { by rewrite Hlog. }
    exists root. rewrite <- Hroots in Hroot.
    apply elem_of_root_pids_to_log in Hroot. split; [done |].
    destruct Hcase as [-> | ?]; [by left | by right].
Qed.

Lemma root_at_depth_0 snapshot_data root :
  root ∈ root_candidates snapshot_data ∨ snapshot_data !! root = None →
  at_depth snapshot_data 0 root.
Proof.
  intros [[_ Hnone]%elem_of_root_candidates | Hnone]; apply at_depth_root;
    [done |].
  unfold live_parent. by rewrite Hnone.
Qed.

Lemma write_snapshot_enough_fuel fuel snapshot_data :
  (size snapshot_data < fuel)%nat →
  (write_snapshot fuel snapshot_data).2 ≠ OutOfFuel.
Proof.
  intros Hfuel. unfold write_snapshot.
  destruct (root_pids_to_log snapshot_data) as [| r roots] eqn:Hroots; [done |].
  destruct (log_roots _ _ _ _ _) as [written res] eqn:Hlog. cbn. intros ->.
  destruct (log_roots_no_fuel _ _ _ _ _ (f_equal snd Hlog))
    as (root & Hroot & Hno).
  rewrite <- Hroots in Hroot. apply elem_of_root_pids_to_log in Hroot.
  revert Hno. apply log_process_tree_enough_fuel with 0%nat.
  - apply root_at_depth_0. by left.
  - right. lia.
  - lia.
Qed.

(** With printable samples a call on a root returns. *)
Lemma root_call_returns snapshot_data root indent :
  printable snapshot_data →
  root ∈ root_candidates snapshot_data ∨ snapshot_data !! root = None →
  ∃ written t,
    log_process_tree (S (size snapshot_data)) snapshot_data
      (children_map snapshot_data) root indent = (written, Returned t).
Proof.
  intros Hprint Hroot.
  pose proof (log_process_tree_enough_fuel snapshot_data
                (S (size snapshot_data)) 0 root indent
                (root_at_depth_0 _ _ Hroot)) as Hfuel.
  destruct (log_process_tree (S (size snapshot_data)) snapshot_data
              (children_map snapshot_data) root indent)
    as [written [t | |]] eqn:Hcall.
  - by exists written, t.
  - destruct (log_process_tree_raised snapshot_data
                (children_map snapshot_data) (S (size snapshot_data))
                root indent) as (x & data & Hdata & Hnone).
    { by rewrite Hcall. }
    destruct (Hprint x data Hdata) as [[? Hn] [? Hs]].
    destruct Hnone; congruence.
  - destruct Hfuel; [right; lia | lia | done].
Qed.

(** When the calls on all roots return, the lines of each are in the
    snapshot. *)
Lemma log_roots_includes fuel snapshot_data children roots errors root l :
  (∀ r, r ∈ roots →
     ∃ written t,
       log_process_tree fuel snapshot_data children r "" = (written, Returned t)) →
  root ∈ roots → root ∈ dom snapshot_data →
  l ∈ (log_process_tree fuel snapshot_data children root "").1 →
  l ∈ (log_roots fuel snapshot_data children roots errors).1.
Proof.
  revert errors.
  induction roots as [| r roots IH]; intros errors Hall Hroot Hdom Hl;
    [by apply elem_of_nil in Hroot |].
  cbn. destruct (Hall r) as (written & t & Hcall); [left |].
  assert (Hrest : ∀ errors',
            root ∈ roots →
            l ∈ (log_roots fuel snapshot_data children roots errors').1).
  { intros errors' Hin. apply IH; [| done..].
    intros r' Hr'. apply Hall. by right. }
  case_decide as Hin.
  - rewrite Hcall.
    destruct (log_roots fuel snapshot_data children roots _)
      as [more res] eqn:Hmore. cbn.
    apply elem_of_app. apply elem_of_cons in Hroot as [-> | Hroot].
    + left. by rewrite Hcall in Hl.
    + right. specialize (Hrest (errors + error_count t) Hroot).
      by rewrite Hmore in Hrest.
  - destruct (log_roots fuel snapshot_data children roots errors)
      as [more res] eqn:Hmore. cbn.
    apply elem_of_cons in Hroot as [-> | Hroot]; [done |].
    right. specialize (Hrest errors Hroot). by rewrite Hmore in Hrest.
Qed.

(** With printable samples every root candidate has its own line, without
    indentation, in the snapshot. *)
Lemma root_line_written snapshot_data root :
  printable snapshot_data →
  root ∈ root_candidates snapshot_data →
  ∃ l, l ∈ (write_snapshot (S (size snapshot_data)) snapshot_data).1
       ∧ line_pid l = Some root ∧ line_indent l = Some "".
Proof.
  intros Hprint Hroot.
  destruct (root_call_returns snapshot_data root "" Hprint (or_introl Hroot))
    as (written & t & Hcall).
  pose proof Hroot as [[data Hdata] _]%elem_of_root_candidates.
  destruct (log_process_tree_Returned _ _ _ _ _ _ _ _ Hdata Hcall)
    as (fuel' & results & own & _ & _ & _ & Hown & ->).
  exists own. split.
  - unfold write_snapshot.
    destruct (root_pids_to_log snapshot_data) as [| r roots] eqn:Hroots.
    { apply elem_of_root_pids_to_log in Hroot. rewrite Hroots in Hroot.
      by apply elem_of_nil in Hroot. }
    destruct (log_roots _ _ _ _ _) as [lines res] eqn:Hlog. cbn. right.
    pose proof (log_roots_includes (S (size snapshot_data)) snapshot_data
                  (children_map snapshot_data) (r :: roots) 0 root own)
      as Hincl.
    rewrite Hlog in Hincl. apply Hincl.
    + intros r' Hr'. rewrite <- Hroots in Hr'.
      apply elem_of_root_pids_to_log in Hr'.
      by apply root_call_returns; [| left].
    + rewrite <- Hroots. by apply elem_of_root_pids_to_log.
    + by apply elem_of_dom.
    + rewrite Hcall. cbn. apply elem_of_app. right. left.
  - unfold format_line in Hown.
    destruct (d_name data), (d_status data); simplify_eq. done.
Qed.

(** The scenario of the design notes has the single root 1. *)
Example family_roots : root_pids_to_log family = [1].
Proof. vm_compute. reflexivity. Qed.

(** C3: a pid is a root candidate exactly when it is sampled and its
    declared parent is [None], is 0, or is no key of the snapshot.  A pid
    whose parent is not in the snapshot is filed under no parent, is one of
    the roots that are logged and, when the samples are printable, has its
    own line without indentation in the snapshot. *)
Theorem root_candidate_iff snapshot_data pid :
  (pid ∈ root_candidates snapshot_data
   ↔ ∃ data, snapshot_data !! pid = Some data
             ∧ (d_ppid data = None
                ∨ d_ppid data = Some 0
                ∨ ∃ pp, d_ppid data = Some pp ∧ pp ∉ dom snapshot_data))
  ∧ (∀ data pp,
       snapshot_data !! pid = Some data → d_ppid data = Some pp →
       pp ∉ dom snapshot_data →
       pid ∈ root_pids_to_log snapshot_data
       ∧ (∀ parent, pid ∉ default [] (children_map snapshot_data !! parent))
       ∧ (printable snapshot_data →
          ∃ l, l ∈ (write_snapshot (S (size snapshot_data)) snapshot_data).1
               ∧ line_pid l = Some pid ∧ line_indent l = Some "")).
Proof.
  assert (Hiff :
    pid ∈ root_candidates snapshot_data
    ↔ ∃ data, snapshot_data !! pid = Some data
              ∧ (d_ppid data = None
                 ∨ d_ppid data = Some 0
                 ∨ ∃ pp, d_ppid data = Some pp ∧ pp ∉ dom snapshot_data)).
  { rewrite elem_of_root_candidates. unfold live_parent, parent_in_snapshot.
    split.
    - intros [[data Hdata] Hpar]. exists data. split; [done |].
      rewrite Hdata in Hpar. cbn in Hpar.
      destruct (d_ppid data) as [pp |]; [| by left].
      case_decide as H; [done |]. right.
      destruct (decide (pp = 0)) as [-> | Hne]; [by left |].
      right. exists pp. split; [done |]. intros Hin. by apply H.
    - intros (data & Hdata & Hcase). rewrite Hdata. cbn. split; [done |].
      destruct Hcase as [-> | [-> | (pp & -> & Hout)]]; [done | |].
      + by rewrite decide_False by (intros [? _]; done).
      + by rewrite decide_False by (intros [_ ?]; done). }
  split; [done |]. intros data pp Hdata Hpp Hout.
  assert (Hroot : pid ∈ root_candidates snapshot_data).
  { apply Hiff. exists data. split; [done |]. right. right. by exists pp. }
  split; [by apply elem_of_root_pids_to_log |]. split.
  - intros parent Hin. apply elem_of_children in Hin.
    apply elem_of_root_candidates in Hroot as [_ Hnone]. congruence.
  - intros Hprint. by apply root_line_written.
Qed.

(** Pid 7, whose parent 9 is not sampled, is logged as a root. *)
Lemma root_candidate_iff_witness :
  7 ∈ root_pids_to_log orphaned
  ∧ (∀ parent, 7 ∉ default [] (children_map orphaned !! parent))
  ∧ (printable orphaned →
     ∃ l, l ∈ (write_snapshot (S (size orphaned)) orphaned).1
          ∧ line_pid l = Some 7 ∧ line_indent l = Some "").
Proof.
  destruct (root_candidate_iff orphaned 7) as [_ Hpromoted].
  apply (Hpromoted (node 7 (Some 9) "running" 1) 9).
  - reflexivity.
  - reflexivity.
  - apply not_elem_of_dom. reflexivity.
Defined.

(** C1, counterexample: pid 7 is gone when the loop asks for its object and
    the enumeration reported no status for it, so its sample has the status
    ['terminated'].  The call for this root returns an [error_count] of 0,
    where the subtree has one node in the error/terminated category. *)
Lemma terminated_sample_not_counted :
  ∃ st data t,
    collect 4 fresh_globals (Ok [vanished 7]) silent = Next st
    ∧ current_snapshot_data st !! 7 = Some data
    ∧ d_status data = Some "terminated"
    ∧ 7 ∈ root_candidates (current_snapshot_data st)
    ∧ (∀ x, in_subtree (current_snapshot_data st)
              (children_map (current_snapshot_data st)) 7 x ↔ x ∈ [7])
    ∧ returns (current_snapshot_data st)
        (children_map (current_snapshot_data st)) 7 "" t
    ∧ error_count t = 0
    ∧ category_count (current_snapshot_data st) [7] = 1.
Proof.
  eexists _, _, _. split; [vm_compute; reflexivity |].
  split; [reflexivity |]. split; [reflexivity |].
  split; [vm_compute; reflexivity |]. split; [| split; [| split]].
  - intros x. rewrite list_elem_of_singleton. split; [| intros ->; apply rtc_refl].
    intros [<- | (y & [_ Hy] & _)]%rtc_inv; [done |].
    vm_compute in Hy. by apply elem_of_nil in Hy.
  - exists 2%nat. eexists. vm_compute. reflexivity.
  - reflexivity.
  - reflexivity.
Qed.

Lemma counted_category snapshot_data (nodes : list Z) :
  (∀ x data, x ∈ nodes → snapshot_data !! x = Some data →
     d_status data ≠ Some "terminated" ∧ d_status data ≠ Some "error") →
  counted snapshot_data nodes = category_count snapshot_data nodes.
Proof.
  unfold counted, category_count. intros Hclean. f_equal. f_equal.
  induction nodes as [| x nodes IH]; [done |].
  rewrite !filter_cons, IH by (intros y data Hy; apply Hclean; by right).
  assert (Hx : counts_as_error snapshot_data x
               = in_error_category snapshot_data x).
  { unfold counts_as_error, in_error_category.
    destruct (snapshot_data !! x) as [data |] eqn:Hdata; [| done].
    destruct (Hclean x data (list_elem_of_here _ _) Hdata) as [Ht He].
    destruct (d_status data) as [s |]; [| done]. cbn.
    apply bool_decide_ext.
    unfold error_statuses, error_or_terminated.
    rewrite !elem_of_cons, !elem_of_nil.
    assert (s ≠ "terminated") by congruence.
    assert (s ≠ "error") by congruence. tauto. }
  rewrite Hx. done.
Qed.

(** C1, amended: for a root of the forest, or a pid that is missing from
    the snapshot, the call does not run out of fuel once the fuel exceeds
    the size of the snapshot, and it returns when every sampled name and
    status is a string.  When it returns, it has written one line per node
    of the subtree, and [error_count] is the number of nodes of the subtree
    that are missing or whose own status is one of [error_statuses],
    counted over any duplicate-free enumeration of the subtree, in any
    order.  That is the number of nodes in the error/terminated category
    when no sampled node of the subtree has the status ['terminated'] or
    ['error']: the first is not counted, the second is. *)
Theorem error_count_counts_subtree snapshot_data root indent :
  root ∈ root_candidates snapshot_data ∨ snapshot_data !! root = None →
  (∀ fuel, (size snapshot_data < fuel)%nat →
     (log_process_tree fuel snapshot_data (children_map snapshot_data)
        root indent).2 ≠ OutOfFuel)
  ∧ (printable snapshot_data →
     ∃ t, returns snapshot_data (children_map snapshot_data) root indent t)
  ∧ (∀ fuel written t,
       log_process_tree fuel snapshot_data (children_map snapshot_data)
         root indent = (written, Returned t) →
       NoDup (line_pids written)
       ∧ (∀ x, x ∈ line_pids written
               ↔ in_subtree snapshot_data (children_map snapshot_data) root x))
  ∧ (∀ t nodes,
       returns snapshot_data (children_map snapshot_data) root indent t →
       NoDup nodes →
       (∀ x, x ∈ nodes
             ↔ in_subtree snapshot_data (children_map snapshot_data) root x) →
       error_count t = counted snapshot_data nodes
       ∧ ((∀ x data, x ∈ nodes → snapshot_data !! x = Some data →
             d_status data ≠ Some "terminated"
             ∧ d_status data ≠ Some "error") →
          error_count t = category_count snapshot_data nodes))
  ∧ (snapshot_data !! root = None →
     returns snapshot_data (children_map snapshot_data) root indent
       (zero_totals 1)).
Proof.
  intros Hroot. pose proof (root_at_depth_0 _ _ Hroot) as Hd.
  assert (Hfuel : ∀ fuel, (size snapshot_data < fuel)%nat →
            (log_process_tree fuel snapshot_data (children_map snapshot_data)
               root indent).2 ≠ OutOfFuel).
  { intros fuel Hfuel. apply log_process_tree_enough_fuel with 0%nat;
      [done | right; lia | lia]. }
  split; [done |]. split; [| split; [| split]].
  - intros Hprint.
    destruct (root_call_returns snapshot_data root indent Hprint Hroot)
      as (written & t & Hcall).
    by exists t, (S (size snapshot_data)), written.
  - intros fuel written t Hcall.
    destruct (log_process_tree_nodes snapshot_data fuel 0 root indent
                written t Hd Hcall) as (? & ? & _). done.
  - intros t nodes (fuel & written & Hcall) Hnodup Hnodes.
    destruct (log_process_tree_nodes snapshot_data fuel 0 root indent
                written t Hd Hcall) as (Hnd & Hmem & ->).
    assert (Hcount : counted snapshot_data (line_pids written)
                     = counted snapshot_data nodes).
    { unfold counted. f_equal. apply Permutation_length.
      apply filter_Permutation.
      apply NoDup_Permutation; [done | done |].
      intros x. by rewrite Hmem, Hnodes. }
    split; [done |]. intros Hclean. rewrite Hcount.
    by apply counted_category.
  - intros Hnone. exists 1%nat. eexists. cbn. by rewrite Hnone.
Qed.

(** The family of the design notes: one of the three nodes is in error,
    in whatever order the three are listed. *)
Lemma error_count_counts_subtree_witness :
  ∃ t, returns family (children_map family) 1 "" t
       ∧ error_count t = counted family [1; 2; 3]
       ∧ error_count t = category_count family [3; 1; 2]
       ∧ error_count t = 1.
Proof.
  destruct (error_count_counts_subtree family 1 "")
    as (_ & _ & Hnodes & Hcount & _).
  { left. vm_compute. reflexivity. }
  eexists. split; [exists 3%nat; eexists; vm_compute; reflexivity |].
  split; [| split; [| reflexivity]].
  - apply Hcount.
    + exists 3%nat. eexists. vm_compute. reflexivity.
    + exact (bool_decide_unpack (NoDup [1; 2; 3]) I).
    + intros x.
      destruct (Hnodes 3%nat _ _ ltac:(vm_compute; reflexivity)) as [_ Hmem].
      rewrite <- Hmem. cbn. rewrite !elem_of_cons. tauto.
  - apply Hcount.
    + exists 3%nat. eexists. vm_compute. reflexivity.
    + exact (bool_decide_unpack (NoDup [3; 1; 2]) I).
    + intros x.
      destruct (Hnodes 3%nat _ _ ltac:(vm_compute; reflexivity)) as [_ Hmem].
      rewrite <- Hmem. cbn. rewrite !elem_of_cons. tauto.
    + intros x data Hx Hdata.
      repeat (apply elem_of_cons in Hx as [-> | Hx];
              [vm_compute in Hdata; injection Hdata as <-; split; discriminate |]).
      by apply elem_of_nil in Hx.
Defined.

(** C10, counterexample: the idle process of Windows is its own parent,
    a parent-link cycle among live ids; yet it is a root candidate and the
    unfiltered snapshot has a line for it. *)
Lemma self_parent_idle_is_root :
  on_cycle (declared_live_parent idle_only) 0
  ∧ (0 ∈ root_candidates idle_only)
  ∧ (∃ l, l ∈ (write_snapshot 2 idle_only).1 ∧ line_pid l = Some 0).
Proof.
  split; [exists 1%nat; split; [lia | reflexivity] |].
  split; [vm_compute; reflexivity |].
  eexists. split; [vm_compute; apply list_elem_of_further, list_elem_of_here |].
  reflexivity.
Qed.

(** C10, amended: a pid on a cycle of parent links that the forest builder
    follows (each parent a key of the snapshot and not the sentinel 0) is no
    root candidate, is in the subtree of no root candidate, and has no line
    in the unfiltered snapshot.  Writing the snapshot does not run out of
    fuel once the fuel exceeds the number of samples, and every pid is
    listed once under at most one parent. *)
Theorem live_cycle_omitted snapshot_data pid :
  on_cycle (live_parent snapshot_data) pid →
  (pid ∉ root_candidates snapshot_data)
  ∧ (∀ root, root ∈ root_candidates snapshot_data →
       ¬ in_subtree snapshot_data (children_map snapshot_data) root pid)
  ∧ (∀ fuel l, l ∈ (write_snapshot fuel snapshot_data).1 →
       line_pid l ≠ Some pid)
  ∧ (∀ fuel, (size snapshot_data < fuel)%nat →
       (write_snapshot fuel snapshot_data).2 ≠ OutOfFuel)
  ∧ (∀ parent1 parent2 child,
       child ∈ default [] (children_map snapshot_data !! parent1) →
       child ∈ default [] (children_map snapshot_data !! parent2) →
       parent1 = parent2)
  ∧ (∀ parent, NoDup (default [] (children_map snapshot_data !! parent))).
Proof.
  intros Hcycle.
  assert (Hroot : pid ∉ root_candidates snapshot_data).
  { intros [_ Hnone]%elem_of_root_candidates.
    apply on_cycle_has_parent in Hcycle as [pp Hpp]. congruence. }
  assert (Hsub : ∀ root, root ∈ root_candidates snapshot_data →
            ¬ in_subtree snapshot_data (children_map snapshot_data) root pid).
  { intros root Hr Hin.
    assert (Hd : at_depth snapshot_data 0 root)
      by (apply root_at_depth_0; by left).
    destruct (at_depth_descendant _ _ _ _ Hd Hin) as (k & Hk & _).
    by apply (on_cycle_no_depth snapshot_data (k + 0) pid). }
  split; [done |]. split; [done |]. split; [| split; [| split]].
  - intros fuel l Hl Hpid.
    apply write_snapshot_written in Hl as [Hnone | (root & Hr & [Hl | Hl])].
    + congruence.
    + assert (root = pid) as -> by congruence. done.
    + apply written_in_subtree in Hl as (x & Hx & Hin).
      assert (x = pid) as -> by congruence. by apply (Hsub root).
  - intros fuel. apply write_snapshot_enough_fuel.
  - intros parent1 parent2 child H1%elem_of_children H2%elem_of_children.
    congruence.
  - apply NoDup_children.
Qed.

(** 7 and 8 are each other's parent: neither is logged, nor is 5 below. *)
Lemma live_cycle_omitted_witness :
  (7 ∉ root_candidates looped)
  ∧ (∀ fuel l, l ∈ (write_snapshot fuel looped).1 → line_pid l ≠ Some 7).
Proof.
  destruct (live_cycle_omitted looped 7) as (Hroot & _ & Hlines & _).
  - exists 2%nat. split; [lia | reflexivity].
  - split; [exact Hroot | exact Hlines].
Defined.


(** ** The target resolver *)

Section targets.
Context (lower : string → string) (target_lower : option string).

Lemma target_fold_Raised items :
  foldl (target_step lower target_lower) Raised items = Raised.
Proof. by induction items. Qed.

Lemma target_fold_falsy items found :
  truthy target_lower = false →
  foldl (target_step lower target_lower) (Returned found) items
  = Returned found.
Proof.
  intros Hfalsy. induction items as [| item items IH]; [done |].
  cbn. by rewrite Hfalsy.
Qed.

Lemma target_fold items found0 :
  truthy target_lower = true →
  match foldl (target_step lower target_lower) (Returned found0) items with
  | Returned found =>
      Forall (λ item, is_Some (d_name item.2)) items
      ∧ ∀ pid, pid ∈ found
               ↔ pid ∈ found0
                 ∨ ∃ data name, (pid, data) ∈ items
                                ∧ d_name data = Some name
                                ∧ Some (lower name) = target_lower
  | Raised => Exists (λ item, d_name item.2 = None) items
  | OutOfFuel => False
  end.
Proof.
  intros Htruthy. revert found0.
  induction items as [| [pid' data'] items IH]; intros found0; cbn.
  - split; [constructor |]. intros pid. split; [by left |].
    intros [? | (? & ? & ?%elem_of_nil & _)]; done.
  - rewrite Htruthy. destruct (d_name data') as [name' |] eqn:Hname; cbn.
    + case_decide as Hmatch.
      * specialize (IH ({[pid']} ∪ found0)).
        destruct (foldl _ _ items) as [found | |]; [| by right | done].
        destruct IH as [Hall Hiff]. split; [constructor; [cbn; by rewrite Hname | done] |].
        intros pid. rewrite Hiff, elem_of_union, elem_of_singleton. split.
        -- intros [[-> | ?] | (data & name & Hin & ? & ?)]; [| by left |].
           ++ right. exists data', name'. split; [left | done].
           ++ right. exists data, name. split; [by right | done].
        -- intros [? | (data & name & [[= -> ->] | Hin]%elem_of_cons & ? & ?)];
             [by left; right | by left; left |].
           right. by exists data, name.
      * specialize (IH found0).
        destruct (foldl _ _ items) as [found | |]; [| by right | done].
        destruct IH as [Hall Hiff]. split; [constructor; [cbn; by rewrite Hname | done] |].
        intros pid. rewrite Hiff. split.
        -- intros [? | (data & name & Hin & ? & ?)]; [by left |].
           right. exists data, name. split; [by right | done].
        -- intros [? | (data & name & [[= -> ->] | Hin]%elem_of_cons & Hn & Hl)];
             [by left | |].
           ++ rewrite Hname in Hn. by simplify_eq.
           ++ right. by exists data, name.
    + rewrite target_fold_Raised. by left.
Qed.
End targets.

(** The pids found are the sampled pids whose lower-cased name is the
    target, provided every sampled name is a string. *)
Lemma target_pids_found_spec lower target_lower snapshot_data :
  truthy target_lower = true →
  match target_pids_found lower target_lower snapshot_data with
  | Returned found =>
      (∀ pid data, snapshot_data !! pid = Some data → is_Some (d_name data))
      ∧ ∀ pid, pid ∈ found
               ↔ ∃ data name, snapshot_data !! pid = Some data
                              ∧ d_name data = Some name
                              ∧ Some (lower name) = target_lower
  | Raised => ∃ pid data, snapshot_data !! pid = Some data ∧ d_name data = None
  | OutOfFuel => False
  end.
Proof.
  intros Htruthy. unfold target_pids_found.
  pose proof (target_fold lower target_lower (map_to_list snapshot_data) ∅
                Htruthy) as Hfold.
  destruct (foldl _ _ _) as [found | |]; [| | done].
  - destruct Hfold as [Hall Hiff]. split.
    + intros pid data Hdata. rewrite Forall_forall in Hall.
      by apply (Hall (pid, data)), elem_of_map_to_list.
    + intros pid. rewrite Hiff. split.
      * intros [?%not_elem_of_empty | (data & name & Hin & ? & ?)]; [done |].
        exists data, name. by apply elem_of_map_to_list in Hin.
      * intros (data & name & Hin & ? & ?). right. exists data, name.
        by apply elem_of_map_to_list in Hin.
  - apply Exists_exists in Hfold as ([pid data] & Hin & Hnone).
    exists pid, data. by apply elem_of_map_to_list in Hin.
Qed.

Lemma size_difference_fresh (X V : gset Z) (x : Z) :
  x ∈ X → x ∉ V → (size (X ∖ ({[x]} ∪ V)) + 1 = size (X ∖ V))%nat.
Proof.
  intros Hin Hout.
  assert (X ∖ V = {[x]} ∪ X ∖ ({[x]} ∪ V)) as ->.
  { apply set_eq. intros y. rewrite elem_of_union, !elem_of_difference,
      elem_of_union, elem_of_singleton.
    destruct (decide (y = x)) as [-> | Hne]; [tauto |]. tauto. }
  rewrite (size_union {[x]} (X ∖ ({[x]} ∪ V))).
  - rewrite size_singleton. lia.
  - intros y ->%elem_of_singleton [_ Hy]%elem_of_difference.
    apply Hy, elem_of_union. left. by apply elem_of_singleton.
Qed.

Section trace.
Context (snapshot_data : gmap Z process_data) (targets : gset Z).
Local Abbreviation parent := (live_parent snapshot_data).

Lemma above_parent target pid pp :
  above snapshot_data target pid → parent pid = Some pp →
  above snapshot_data target pp.
Proof.
  intros [k Hk] Hpar. exists (k + 1)%nat. rewrite ancestor_add, Hk. cbn.
  by rewrite Hpar.
Qed.

Lemma trace_roots_tracing fuel search_queue visited roots :
  tracing snapshot_data targets search_queue visited roots →
  (2 * size (dom snapshot_data ∖ visited) + length search_queue < fuel)%nat →
  ∃ visited' roots',
    trace_roots fuel snapshot_data search_queue visited roots = Some roots'
    ∧ tracing snapshot_data targets [] visited' roots'.
Proof.
  revert search_queue visited roots.
  induction fuel as [| fuel IH]; intros queue visited roots Hinv Hfuel; [lia |].
  destruct queue as [| pid queue]; cbn; [by exists visited, roots |].
  destruct Hinv as (Htargets & Hqueue & Hvisited & Hroots & Hdone).
  assert (Hpid : pid ∈ visited) by (apply Hqueue; left).
  destruct (Hvisited pid Hpid) as [[data Hdata] Habove]. rewrite Hdata.
  cbn in Hfuel.
  destruct (is_root_candidate (dom snapshot_data) (d_ppid data)) eqn:Hroot.
  - apply IH; [| lia]. split; [done |]. split; [| split; [done |]; split].
    + intros x Hx. apply Hqueue. by right.
    + intros x [->%elem_of_singleton | Hx]%elem_of_union; [| by apply Hroots].
      split; [done |]. apply elem_of_root_candidates. split; [done |].
      unfold live_parent. rewrite Hdata. cbn.
      by apply is_root_candidate_live_parent.
    + intros x Hx. destruct (Hdone x Hx) as [[-> | ?]%elem_of_cons | [? | ?]].
      * right. left. apply elem_of_union. left. by apply elem_of_singleton.
      * by left.
      * right. left. apply elem_of_union. by right.
      * by right; right.
  - assert (Hnot : parent_in_snapshot (dom snapshot_data) (d_ppid data) ≠ None).
    { intros Hnone%is_root_candidate_live_parent. congruence. }
    destruct (d_ppid data) as [pp |] eqn:Hppid; [| done].
    assert (Hpar : parent pid = Some pp).
    { unfold live_parent. rewrite Hdata. cbn. rewrite Hppid.
      unfold parent_in_snapshot in *. by case_decide. }
    case_decide as Hseen.
    + apply IH; [| lia]. split; [done |]. split; [| split; [done |]; split; [done |]].
      * intros x Hx. apply Hqueue. by right.
      * intros x Hx. destruct (Hdone x Hx) as [[-> | ?]%elem_of_cons | [? | ?]].
        -- right. right. by exists pp.
        -- by left.
        -- by right; left.
        -- by right; right.
    + assert (Hpp : pp ∈ dom snapshot_data).
      { apply live_parent_Some in Hpar as (_ & ? & _). by apply elem_of_dom. }
      pose proof (size_difference_fresh (dom snapshot_data) visited pp
                    Hpp Hseen) as Hsize.
      apply IH; [| rewrite length_app; cbn; lia].
      split; [by apply union_subseteq_r' |]. split; [| split; [| split]].
      * intros x [Hx | ->%list_elem_of_singleton]%elem_of_app;
          apply elem_of_union; [right | left; by apply elem_of_singleton].
        apply Hqueue. by right.
      * intros x [->%elem_of_singleton | Hx]%elem_of_union; [| by apply Hvisited].
        split; [by apply elem_of_dom |].
        destruct Habove as (target & Ht & Hab). exists target.
        split; [done |]. by eapply above_parent.
      * intros x Hx. destruct (Hroots x Hx). split; [| done].
        apply elem_of_union. by right.
      * intros x [->%elem_of_singleton | Hx]%elem_of_union.
        -- left. apply elem_of_app. right. left.
        -- destruct (Hdone x Hx) as [[-> | ?]%elem_of_cons | [? | (q & ? & ?)]].
           ++ right. right. exists pp. split; [done |].
              apply elem_of_union. left. by apply elem_of_singleton.
           ++ left. apply elem_of_app. by left.
           ++ by right; left.
           ++ right. right. exists q. split; [done |].
              apply elem_of_union. by right.
Qed.

(** When the queue is empty the roots found are the root candidates above
    the targets. *)
Lemma tracing_done visited roots pid :
  tracing snapshot_data targets [] visited roots →
  pid ∈ roots
  ↔ pid ∈ root_candidates snapshot_data
    ∧ ∃ target, target ∈ targets ∧ above snapshot_data target pid.
Proof.
  intros (Htargets & _ & Hvisited & Hroots & Hdone). split.
  - intros Hin. destruct (Hroots pid Hin) as [Hv Hr]. split; [done |].
    by apply Hvisited.
  - intros [Hroot (target & Ht & k & Hk)].
    assert (Hup : ∀ j x, ancestor parent j target = Some x → x ∈ visited).
    { induction j as [| j IHj]; intros x Hx.
      - cbn in Hx. simplify_eq. by apply Htargets.
      - replace (S j) with (j + 1)%nat in Hx by lia.
        rewrite ancestor_add in Hx.
        destruct (ancestor parent j target) as [y |] eqn:Hy; [| done].
        cbn in Hx. destruct (parent y) as [py |] eqn:Hpy; [| done].
        cbn in Hx. simplify_eq.
        destruct (Hdone y (IHj y eq_refl)) as [?%elem_of_nil | [Hy' | (q & ? & ?)]];
          [done | | congruence].
        apply Hroots in Hy' as [_ [_ ?]%elem_of_root_candidates]. congruence. }
    destruct (Hdone pid (Hup k pid Hk)) as [?%elem_of_nil | [? | (q & Hq & _)]];
      [done | done |].
    apply elem_of_root_candidates in Hroot as [_ ?]. congruence.
Qed.
End trace.

Lemma tracing_start snapshot_data found :
  (∀ pid, pid ∈ found → is_Some (snapshot_data !! pid)) →
  tracing snapshot_data found (elements found) found ∅.
Proof.
  intros Hsampled. split; [done |]. split; [| split; [| split]].
  - intros pid. by rewrite elem_of_elements.
  - intros pid Hpid. split; [by apply Hsampled |].
    exists pid. split; [done |]. by exists 0%nat.
  - intros pid ?%not_elem_of_empty. done.
  - intros pid Hpid. left. by apply elem_of_elements.
Qed.

Lemma truthy_Some s : truthy (Some s) = true ↔ s ≠ "".
Proof. cbn. case_decide; split; congruence. Qed.

Lemma sorted_Sorted l : Sorted Z.le (sorted l).
Proof. unfold sorted. apply (Sorted_merge_sort Z.le). Qed.

Lemma sorted_NoDup l : NoDup l → NoDup (sorted l).
Proof. unfold sorted. by rewrite merge_sort_Permutation. Qed.

(** What the resolver returns for a target that is a non-empty string. *)
Lemma root_pids_to_log_for_spec fuel lower target_app_name snapshot_data :
  target_app_name ≠ "" → lower target_app_name ≠ "" →
  (∀ pid data, snapshot_data !! pid = Some data → is_Some (d_name data)) →
  (3 * size snapshot_data < fuel)%nat →
  ∃ roots,
    root_pids_to_log_for fuel lower (Some target_app_name) snapshot_data
    = Returned roots
    ∧ Sorted Z.le roots ∧ NoDup roots
    ∧ ∀ root, root ∈ roots
              ↔ root ∈ root_candidates snapshot_data
                ∧ ∃ target, named_like lower target_app_name snapshot_data target
                            ∧ above snapshot_data target root.
Proof.
  intros Htarget Hlower Hnames Hfuel. unfold root_pids_to_log_for.
  apply truthy_Some in Htarget as Ht. rewrite Ht.
  unfold target_app_name_lower. rewrite Ht. cbn [fmap option_fmap option_map].
  apply truthy_Some in Hlower as Hl.
  pose proof (target_pids_found_spec lower (Some (lower target_app_name))
                snapshot_data Hl) as Hfound.
  destruct (target_pids_found _ _ _) as [found | |]; [| | done].
  - destruct Hfound as [_ Hfound].
    assert (Hlike : ∀ pid, pid ∈ found
                           ↔ named_like lower target_app_name snapshot_data pid).
    { intros pid. rewrite Hfound. unfold named_like. split.
      - intros (data & name & ? & ? & ?). exists data, name. by simplify_eq.
      - intros (data & name & ? & ? & ?). exists data, name.
        split; [done |]. split; [done |]. congruence. }
    case_decide as Hempty.
    + exists []. split; [done |]. split; [constructor |]. split; [constructor |].
      intros root. split; [by intros ?%elem_of_nil |].
      intros (_ & target & Hin%Hlike & _). subst found.
      by apply not_elem_of_empty in Hin.
    + assert (Hsampled : ∀ pid, pid ∈ found → is_Some (snapshot_data !! pid)).
      { intros pid (data & _ & Hdata & _)%Hlike. by exists data. }
      destruct (trace_roots_tracing snapshot_data found fuel (elements found)
                  found ∅ (tracing_start _ _ Hsampled))
        as (visited & roots & -> & Hdone).
      { assert (found ⊆ dom snapshot_data) as Hsub.
        { intros pid Hpid. apply elem_of_dom. by apply Hsampled. }
        apply subseteq_size in Hsub.
        assert (size (dom snapshot_data ∖ found) ≤ size (dom snapshot_data))%nat
          by (apply subseteq_size; intros x [? _]%elem_of_difference; done).
        change (length (elements found)) with (size found).
        rewrite size_dom in *. lia. }
      exists (sorted (elements roots)). split; [done |].
      split; [apply sorted_Sorted |].
      split; [apply sorted_NoDup, NoDup_elements |].
      intros root. rewrite elem_of_sorted, elem_of_elements.
      rewrite (tracing_done snapshot_data found visited roots root Hdone).
      split; intros [? (target & ? & ?)]; (split; [done |]); exists target;
        (split; [by apply Hlike | done]).
  - destruct Hfound as (pid & data & Hdata & Hnone).
    destruct (Hnames pid data Hdata). congruence.
Qed.

Lemma ancestor_in_subtree snapshot_data k pid root :
  ancestor (live_parent snapshot_data) k pid = Some root →
  in_subtree snapshot_data (children_map snapshot_data) root pid.
Proof.
  revert pid. induction k as [| k IH]; intros pid Hk; cbn in Hk.
  - simplify_eq. apply rtc_refl.
  - destruct (live_parent snapshot_data pid) as [pp |] eqn:Hpp; [| done].
    cbn in Hk. eapply rtc_r; [by apply IH |].
    by apply tree_edge_live_parent.
Qed.

Lemma ancestor_sampled snapshot_data k pid top :
  ancestor (live_parent snapshot_data) k pid = Some top →
  is_Some (snapshot_data !! pid) → is_Some (snapshot_data !! top).
Proof.
  revert pid. induction k as [| k IH]; intros pid Hk Hpid; cbn in Hk;
    [by simplify_eq |].
  destruct (live_parent snapshot_data pid) as [pp |] eqn:Hpp; [| done].
  apply live_parent_Some in Hpp as (_ & Hpp & _). by apply (IH pp).
Qed.

(** When the calls on all roots return, so does the loop over the roots. *)
Lemma log_roots_Returned fuel snapshot_data children roots errors :
  (∀ r, r ∈ roots →
     ∃ written t,
       log_process_tree fuel snapshot_data children r "" = (written, Returned t)) →
  ∃ total, (log_roots fuel snapshot_data children roots errors).2
           = Returned total.
Proof.
  revert errors. induction roots as [| r roots IH]; intros errors Hall; cbn.
  - by exists errors.
  - assert (Hrest : ∀ errors',
              ∃ total, (log_roots fuel snapshot_data children roots errors').2
                       = Returned total).
    { intros errors'. apply IH. intros r' Hr'. apply Hall. by right. }
    case_decide.
    + destruct (Hall r) as (written & t & ->); [left |].
      destruct (Hrest (errors + error_count t)) as [total Htotal].
      destruct (log_roots _ _ _ _ _). by exists total.
    + destruct (Hrest errors) as [total Htotal].
      destruct (log_roots _ _ _ _ _). by exists total.
Qed.

(** With printable samples and more fuel than samples, a call on a root
    returns. *)
Lemma root_call_returns_fuel fuel snapshot_data root indent :
  printable snapshot_data → (size snapshot_data < fuel)%nat →
  root ∈ root_candidates snapshot_data →
  ∃ written t,
    log_process_tree fuel snapshot_data (children_map snapshot_data) root indent
    = (written, Returned t).
Proof.
  intros Hprint Hfuel Hroot.
  destruct (root_call_returns snapshot_data root indent Hprint
              (or_introl Hroot)) as (written & t & Hcall).
  exists written, t. rewrite <- Hcall.
  apply log_process_tree_fuel_le; [lia |]. by rewrite Hcall.
Qed.

(** When the roots are keys of the snapshot, every line of the loop over
    the roots comes from a call on one of them. *)
Lemma log_roots_sampled fuel snapshot_data children roots errors l :
  l ∈ (log_roots fuel snapshot_data children roots errors).1 →
  (∀ r, r ∈ roots → r ∈ dom snapshot_data) →
  ∃ root, root ∈ roots
          ∧ l ∈ (log_process_tree fuel snapshot_data children root "").1.
Proof.
  revert errors. induction roots as [| r roots IH]; intros errors Hl Hdom;
    cbn in Hl; [by apply elem_of_nil in Hl |].
  rewrite decide_True in Hl by (apply Hdom; left).
  destruct (log_process_tree fuel snapshot_data children r "")
    as [written [t | |]] eqn:Hcall; cbn in Hl.
  - destruct (log_roots fuel snapshot_data children roots _)
      as [more res] eqn:Hmore. cbn in Hl.
    apply elem_of_app in Hl as [Hl | Hl].
    + exists r. split; [left | by rewrite Hcall].
    + destruct (IH (errors + error_count t)) as (root & ? & ?).
      * by rewrite Hmore.
      * intros r' Hr'. apply Hdom. by right.
      * exists root. split; [by right | done].
  - exists r. split; [left | by rewrite Hcall].
  - exists r. split; [left | by rewrite Hcall].
Qed.

(** The lines of the filtered block are those of the loop over its roots. *)
Lemma write_snapshot_for_lines fuel lower target_app_name snapshot_data roots :
  root_pids_to_log_for fuel lower target_app_name snapshot_data
  = Returned roots →
  roots ≠ [] →
  write_snapshot_for fuel lower target_app_name snapshot_data
  = (SnapshotHeader
       :: (log_roots fuel snapshot_data (children_map snapshot_data) roots 0).1,
     (log_roots fuel snapshot_data (children_map snapshot_data) roots 0).2).
Proof.
  intros Hroots Hne. unfold write_snapshot_for. rewrite Hroots.
  destruct roots; [done |]. by destruct (log_roots _ _ _ _ _).
Qed.

Lemma write_snapshot_lines fuel snapshot_data :
  root_pids_to_log snapshot_data ≠ [] →
  write_snapshot fuel snapshot_data
  = (SnapshotHeader
       :: (log_roots fuel snapshot_data (children_map snapshot_data)
             (root_pids_to_log snapshot_data) 0).1,
     (log_roots fuel snapshot_data (children_map snapshot_data)
        (root_pids_to_log snapshot_data) 0).2).
Proof.
  intros Hne. unfold write_snapshot.
  destruct (root_pids_to_log snapshot_data); [done |].
  by destruct (log_roots _ _ _ _ _).
Qed.

(** X1: with a target name that is a non-empty string and samples whose
    names are all strings, the resolver ends, whatever cycles the parent
    links have, once the fuel exceeds three times the number of samples.
    The roots it returns do not depend on the fuel or on the order in which
    the samples are listed; they are in ascending order without repeats,
    and they are the root candidates that are, or lie above along live
    parent links, a sample whose lower-cased name is the lower-cased
    target. *)
Theorem filtered_roots_above lower target_app_name snapshot_data :
  target_app_name ≠ "" → lower target_app_name ≠ "" →
  (∀ pid data, snapshot_data !! pid = Some data → is_Some (d_name data)) →
  ∃ roots,
    (∀ fuel, (3 * size snapshot_data < fuel)%nat →
       root_pids_to_log_for fuel lower (Some target_app_name) snapshot_data
       = Returned roots)
    ∧ Sorted Z.le roots ∧ NoDup roots
    ∧ (∀ root, root ∈ roots
               ↔ root ∈ root_candidates snapshot_data
                 ∧ ∃ target,
                     named_like lower target_app_name snapshot_data target
                     ∧ above snapshot_data target root).
Proof.
  intros Htarget Hlower Hnames.
  destruct (root_pids_to_log_for_spec (S (3 * size snapshot_data)) lower
              target_app_name snapshot_data Htarget Hlower Hnames)
    as (roots & Hroots & Hsorted & Hnodup & Hiff); [lia |].
  exists roots. split; [| done].
  intros fuel Hfuel.
  destruct (root_pids_to_log_for_spec fuel lower target_app_name
              snapshot_data Htarget Hlower Hnames Hfuel)
    as (roots' & -> & Hsorted' & Hnodup' & Hiff').
  f_equal. apply (Sorted_unique Z.le); [done.. |].
  apply NoDup_Permutation; [done.. |].
  intros root. by rewrite Hiff, Hiff'.
Qed.

(** The browser 3 sits under the shell 2 under the root 1: the root 1 is
    among the roots for [chrome.exe]. *)
Lemma filtered_roots_above_witness :
  ∃ roots,
    root_pids_to_log_for 20 ascii_lower (Some "chrome.exe") desktop
    = Returned roots
    ∧ NoDup roots ∧ 1 ∈ roots.
Proof.
  destruct (filtered_roots_above ascii_lower "chrome.exe" desktop)
    as (roots & Hroots & _ & Hnodup & Hiff).
  - discriminate.
  - vm_compute. discriminate.
  - exact (bool_decide_unpack
             (map_Forall (λ _ data, is_Some (d_name data)) desktop) I).
  - exists roots. split; [apply Hroots; vm_compute; lia |].
    split; [done |].
    apply Hiff. split; [vm_compute; tauto |].
    exists 3. split; [| by exists 2%nat].
    eexists _, _. split; [reflexivity |]. split; reflexivity.
Defined.

(** X2: when a target name is given and no sample has that name, lower
    case compared with lower case, the block of the snapshot is the header
    followed by the line that no process matches, and the error total is 0:
    the run does not fall back to the unfiltered roots, however many there
    are.  The names of the samples are strings. *)
Theorem target_not_found_block fuel lower target_app_name snapshot_data :
  target_app_name ≠ "" →
  (∀ pid data, snapshot_data !! pid = Some data → is_Some (d_name data)) →
  (∀ pid, ¬ named_like lower target_app_name snapshot_data pid) →
  write_snapshot_for fuel lower (Some target_app_name) snapshot_data
  = ([SnapshotHeader; NoProcessesFound], Returned 0).
Proof.
  intros Htarget Hnames Hnone.
  unfold write_snapshot_for, root_pids_to_log_for.
  apply truthy_Some in Htarget as Ht. rewrite Ht.
  unfold target_app_name_lower. rewrite Ht. cbn [fmap option_fmap option_map].
  destruct (truthy (Some (lower target_app_name))) eqn:Hl.
  - pose proof (target_pids_found_spec lower (Some (lower target_app_name))
                  snapshot_data Hl) as Hfound.
    destruct (target_pids_found _ _ _) as [found | |]; [| | done].
    + destruct Hfound as [_ Hfound].
      rewrite decide_True; [done |].
      apply set_eq. intros pid. split; [| by intros ?%not_elem_of_empty].
      intros (data & name & ? & ? & ?)%Hfound.
      destruct (Hnone pid). exists data, name. by simplify_eq.
    + destruct Hfound as (pid & data & Hdata & Hn).
      destruct (Hnames pid data Hdata). congruence.
  - unfold target_pids_found. rewrite target_fold_falsy by done.
    by rewrite decide_True.
Qed.

(** No process of the desktop is called [notepad.exe]. *)
Lemma target_not_found_block_witness :
  write_snapshot_for 0 ascii_lower (Some "notepad.exe") desktop
  = ([SnapshotHeader; NoProcessesFound], Returned 0)
  ∧ root_pids_to_log desktop = [1; 4].
Proof.
  split; [| vm_compute; reflexivity].
  apply target_not_found_block.
  - discriminate.
  - exact (bool_decide_unpack
             (map_Forall (λ _ data, is_Some (d_name data)) desktop) I).
  - intros pid (data & name & Hdata & Hname & Hlike).
    revert Hdata Hname Hlike. unfold desktop.
    rewrite !lookup_insert_Some, lookup_empty.
    intros [[<- <-] | [? [[<- <-] | [? [[<- <-] | [? [[<- <-] | [? ?]]]]]]]];
      try done; cbn; intros [= <-]; vm_compute; congruence.
Defined.

(** X3: with a target name, one sample whose name is [None] makes the
    name test raise before anything of the snapshot is written, whichever
    process the sample is of and whether or not it is near a match. *)
Theorem filter_unreadable_name_raises fuel lower target_app_name
    snapshot_data pid data :
  target_app_name ≠ "" → lower target_app_name ≠ "" →
  snapshot_data !! pid = Some data → d_name data = None →
  write_snapshot_for fuel lower (Some target_app_name) snapshot_data
  = ([], Raised).
Proof.
  intros Htarget Hlower Hdata Hnone.
  unfold write_snapshot_for, root_pids_to_log_for.
  apply truthy_Some in Htarget as Ht. rewrite Ht.
  unfold target_app_name_lower. rewrite Ht. cbn [fmap option_fmap option_map].
  apply truthy_Some in Hlower as Hl.
  pose proof (target_pids_found_spec lower (Some (lower target_app_name))
                snapshot_data Hl) as Hfound.
  destruct (target_pids_found _ _ _) as [found | |]; [| done..].
  destruct Hfound as [Hnames _].
  destruct (Hnames pid data Hdata). congruence.
Qed.

(** The nameless process 6 is its own parent: an unfiltered run never
    reaches it and returns, a run filtered for the browser stops. *)
Lemma filter_unreadable_name_raises_witness :
  write_snapshot_for 20 ascii_lower (Some "chrome.exe") unnamed = ([], Raised)
  ∧ (write_snapshot 20 unnamed).2 = Returned 0.
Proof.
  split; [| vm_compute; reflexivity].
  eapply (filter_unreadable_name_raises 20 ascii_lower "chrome.exe" unnamed 6).
  - discriminate.
  - vm_compute. discriminate.
  - reflexivity.
  - reflexivity.
Defined.

(** X4: with printable samples, a target name that is a non-empty string
    and fuel above three times the number of samples, the filtered
    snapshot is written to the end.  Every sample that carries the target
    name and is not caught in a cycle of parent links has a line in it, and
    every process line of the filtered block is a line of the unfiltered
    block of the same snapshot: the filter only leaves trees out. *)
Theorem filtered_block_covers_targets fuel lower target_app_name
    snapshot_data :
  target_app_name ≠ "" → lower target_app_name ≠ "" →
  printable snapshot_data →
  (3 * size snapshot_data < fuel)%nat →
  (∃ total,
     (write_snapshot_for fuel lower (Some target_app_name) snapshot_data).2
     = Returned total)
  ∧ (∀ target depth,
       named_like lower target_app_name snapshot_data target →
       at_depth snapshot_data depth target →
       ∃ l, l ∈ (write_snapshot_for fuel lower (Some target_app_name)
                   snapshot_data).1
            ∧ line_pid l = Some target)
  ∧ (∀ l, l ∈ (write_snapshot_for fuel lower (Some target_app_name)
                 snapshot_data).1 →
          is_Some (line_pid l) →
          l ∈ (write_snapshot fuel snapshot_data).1).
Proof.
  intros Htarget Hlower Hprint Hfuel.
  assert (Hnames : ∀ pid data,
            snapshot_data !! pid = Some data → is_Some (d_name data)).
  { intros pid data Hdata. by destruct (Hprint pid data Hdata). }
  destruct (root_pids_to_log_for_spec fuel lower target_app_name
              snapshot_data Htarget Hlower Hnames Hfuel)
    as (roots & Hroots & _ & _ & Hiff).
  assert (Hcalls : ∀ r, r ∈ root_candidates snapshot_data →
            ∃ written t,
              log_process_tree fuel snapshot_data (children_map snapshot_data)
                r "" = (written, Returned t)).
  { intros r Hr. apply root_call_returns_fuel; [done | lia | done]. }
  assert (Hcalls' : ∀ r, r ∈ roots →
            ∃ written t,
              log_process_tree fuel snapshot_data (children_map snapshot_data)
                r "" = (written, Returned t)).
  { intros r [Hr _]%Hiff. by apply Hcalls. }
  destruct (decide (roots = [])) as [-> | Hne].
  { unfold write_snapshot_for. rewrite Hroots. cbn.
    split; [by exists 0 |]. split.
    - intros target depth Hlike [top [Htop Hnone]].
      destruct (Hiff top) as [_ Hin]. exfalso.
      eapply not_elem_of_nil, Hin. split.
      + apply elem_of_root_candidates. split; [| done].
        destruct Hlike as (data & _ & Hdata & _).
        by apply (ancestor_sampled snapshot_data depth target).
      + exists target. split; [done |]. by exists depth.
    - intros l [-> | [-> | ?%elem_of_nil]%elem_of_cons]%elem_of_cons
        [? Hpid]; cbn in Hpid; done. }
  rewrite (write_snapshot_for_lines _ _ _ _ roots Hroots Hne). cbn.
  split; [by apply log_roots_Returned |]. split.
  - intros target depth Hlike [top [Htop Hnone]].
    assert (Htop' : top ∈ roots).
    { apply Hiff. split.
      - apply elem_of_root_candidates. split; [| done].
        destruct Hlike as (data & _ & Hdata & _).
        by apply (ancestor_sampled snapshot_data depth target).
      - exists target. split; [done |]. by exists depth. }
    destruct (Hcalls' top Htop') as (written & t & Hcall).
    apply Hiff in Htop' as Hcand. destruct Hcand as [Hcand _].
    destruct (log_process_tree_nodes snapshot_data fuel 0 top "" written t)
      as (_ & Hnodes & _); [by apply root_at_depth_0; left | done |].
    assert (Hin : target ∈ line_pids written).
    { apply Hnodes. by eapply ancestor_in_subtree. }
    apply list_elem_of_omap in Hin as (l & Hl & Hpid).
    exists l. split; [| done]. right.
    apply (log_roots_includes fuel snapshot_data _ roots 0 top l);
      [done | done | | by rewrite Hcall].
    apply elem_of_root_candidates in Hcand as [? _]. by apply elem_of_dom.
  - intros l [-> | Hl]%elem_of_cons Hpid; [by destruct Hpid |].
    apply log_roots_sampled in Hl as (root & Hroot & Hl).
    2: { intros r [[? _]%elem_of_root_candidates _]%Hiff. by apply elem_of_dom. }
    apply Hiff in Hroot as [Hcand _].
    assert (Hlog : root_pids_to_log snapshot_data ≠ []).
    { apply elem_of_root_pids_to_log in Hcand. intros Hnil.
      rewrite Hnil in Hcand. by apply elem_of_nil in Hcand. }
    rewrite (write_snapshot_lines _ _ Hlog). cbn. right.
    apply (log_roots_includes fuel snapshot_data _ _ 0 root l).
    + intros r Hr%elem_of_root_pids_to_log. by apply Hcalls.
    + by apply elem_of_root_pids_to_log.
    + apply elem_of_root_candidates in Hcand as [? _]. by apply elem_of_dom.
    + done.
Qed.

(** The browser 3 of the desktop has its line in the block filtered for
    [chrome.exe]. *)
Lemma filtered_block_covers_targets_witness :
  ∃ l, l ∈ (write_snapshot_for 20 ascii_lower (Some "chrome.exe") desktop).1
       ∧ line_pid l = Some 3.
Proof.
  destruct (filtered_block_covers_targets 20 ascii_lower "chrome.exe" desktop)
    as (_ & Hlines & _).
  - discriminate.
  - vm_compute. discriminate.
  - exact (bool_decide_unpack
             (map_Forall (λ _ data, is_Some (d_name data)
                                    ∧ is_Some (d_status data)) desktop) I).
  - vm_compute. lia.
  - apply (Hlines 3 2%nat).
    + eexists _, _. split; [reflexivity |]. split; reflexivity.
    + exists 1. split; vm_compute; reflexivity.
Defined.

(** ** The layout of a line *)

Lemma length_append (s1 s2 : string) :
  String.length (s1 +:+ s2) = (String.length s1 + String.length s2)%nat.
Proof.
  induction s1 as [| c s1 IH]; [done |].
  change (String c s1 +:+ s2) with (String c (s1 +:+ s2)). cbn. by rewrite IH.
Qed.

Lemma length_substring_0 (n : nat) (s : string) :
  String.length (String.substring 0 n s) = (n `min` String.length s)%nat.
Proof.
  revert n. induction s as [| c s IH]; intros [| n]; cbn; try done.
  by rewrite IH.
Qed.

Lemma len_indentation depth : len (indentation depth) = 2 * Z.of_nat depth.
Proof.
  unfold len. induction depth as [| depth IH]; [done |].
  cbn [indentation]. rewrite length_append. cbn. lia.
Qed.

(** X5: the name written in a line never overflows its field.  With the
    width the code computes for an indentation, the truncated display name
    is as long as the shorter of the display name and the width; a name
    that fits is written unchanged, and a longer one in a field wider than
    3 is its first [width - 3] characters followed by three dots. *)
Theorem truncated_name_fits indent display_name :
  len (truncate display_name (name_field_length indent))
  = Z.min (len display_name) (name_field_length indent)
  ∧ (len display_name ≤ name_field_length indent →
     truncate display_name (name_field_length indent) = display_name)
  ∧ (len display_name > name_field_length indent →
     name_field_length indent > 3 →
     truncate display_name (name_field_length indent)
     = String.substring 0 (Z.to_nat (name_field_length indent - 3))
         display_name +:+ "...").
Proof.
  pose proof (name_field_length_pos indent) as Hw.
  set (width := name_field_length indent) in *.
  unfold truncate, choose_truncation, slice_to, len in *.
  repeat case_decide; try lia.
  - split; [| split; [lia | done]].
    rewrite length_append, length_substring_0. cbn. lia.
  - split; [| split; [lia | lia]].
    rewrite length_substring_0. lia.
  - split; [lia |]. split; [done | lia].
Qed.

(** Every process line of the unfiltered block comes from the call on a
    root candidate. *)
Lemma write_snapshot_process_line fuel snapshot_data l :
  l ∈ (write_snapshot fuel snapshot_data).1 → is_Some (line_pid l) →
  ∃ root, root ∈ root_candidates snapshot_data
          ∧ l ∈ (log_process_tree fuel snapshot_data
                   (children_map snapshot_data) root "").1.
Proof.
  intros Hl Hpid.
  destruct (decide (root_pids_to_log snapshot_data = [])) as [Hnil | Hne].
  - unfold write_snapshot in Hl. rewrite Hnil in Hl. cbn in Hl.
    apply elem_of_cons in Hl as [-> | [-> | ?%elem_of_nil]%elem_of_cons];
      by destruct Hpid.
  - rewrite (write_snapshot_lines _ _ Hne) in Hl. cbn in Hl.
    apply elem_of_cons in Hl as [-> | Hl]; [by destruct Hpid |].
    apply log_roots_sampled in Hl as (root & Hroot & Hl).
    + exists root. split; [by apply elem_of_root_pids_to_log | done].
    + intros r [? _]%elem_of_root_pids_to_log%elem_of_root_candidates.
      by apply elem_of_dom.
Qed.

(** X6: every line of the unfiltered block of a snapshot that is about a
    process is the line of a sampled pid: the lines for a terminated or a
    disappeared process are never written there.  The line is indented by
    two spaces for each level of the pid in the forest, its name field is
    [max(1, 45 - 2 * depth)] wide, it shows the status of the sample as it
    is, and its name is the sampled name, followed by the number of valid
    children when there are any, truncated to the field. *)
Theorem snapshot_line_layout fuel snapshot_data l pid :
  l ∈ (write_snapshot fuel snapshot_data).1 → line_pid l = Some pid →
  ∃ depth data name status total,
    at_depth snapshot_data depth pid
    ∧ snapshot_data !! pid = Some data
    ∧ d_name data = Some name ∧ d_status data = Some status
    ∧ l = ProcessLine (indentation depth)
            (truncate
               (display_name name
                  (valid_children_pids snapshot_data
                     (children_map snapshot_data) pid))
               (Z.max 1 (45 - 2 * Z.of_nat depth)))
            (Z.max 1 (45 - 2 * Z.of_nat depth)) pid status total.
Proof.
  intros Hl Hpid.
  destruct (write_snapshot_process_line fuel snapshot_data l Hl)
    as (root & Hroot & Hcall); [by rewrite Hpid |].
  pose proof (log_process_tree_written snapshot_data
                (children_map snapshot_data)
                (λ node indent l,
                   ∀ d0 x, is_Some (snapshot_data !! node) →
                     indent = indentation d0 →
                     at_depth snapshot_data d0 node →
                     line_pid l = Some x →
                     ∃ depth data name status total,
                       at_depth snapshot_data depth x
                       ∧ snapshot_data !! x = Some data
                       ∧ d_name data = Some name
                       ∧ d_status data = Some status
                       ∧ l = ProcessLine (indentation depth)
                               (truncate
                                  (display_name name
                                     (valid_children_pids snapshot_data
                                        (children_map snapshot_data) x))
                                  (Z.max 1 (45 - 2 * Z.of_nat depth)))
                               (Z.max 1 (45 - 2 * Z.of_nat depth)) x status
                               total)) as Hlayout.
  apply elem_of_root_candidates in Hroot as Hr. destruct Hr as [Hsampled Hnone].
  apply (Hlayout) with (fuel := fuel) (pid := root) (indent := "") (d0 := 0%nat);
    clear Hlayout; try done.
  - intros node indent Hmissing d0 x [? ?]. congruence.
  - intros node indent data total own Hdata Hown d0 x _ -> Hdepth Hx.
    unfold format_line in Hown.
    destruct (d_name data) as [name |] eqn:Hname; [| done].
    destruct (d_status data) as [status |] eqn:Hstatus; [| done].
    simplify_eq. cbn in Hx. simplify_eq.
    exists d0, data, name, status, total.
    unfold name_field_length. rewrite len_indentation. done.
  - intros node indent child l' Hedge%tree_edge_live_parent Hchild d0 x
      _ -> Hdepth Hx.
    apply (Hchild (S d0) x); [| done | | done].
    + by apply live_parent_Some in Hedge as [? _].
    + by eapply at_depth_child.
  - by apply at_depth_root.
Qed.

(** In the desktop the browser 3 is two levels down: its line is indented
    by four spaces and its name field is 41 wide. *)
Lemma snapshot_line_layout_witness :
  ∃ l total,
    l ∈ (write_snapshot 20 desktop).1
    ∧ l = ProcessLine "    " "Chrome.exe" 41 3 "running" total.
Proof.
  assert (Hl : ∃ l, l ∈ (write_snapshot 20 desktop).1 ∧ line_pid l = Some 3).
  { eexists. split; [vm_compute; apply list_elem_of_further, list_elem_of_here |].
    reflexivity. }
  destruct Hl as (l & Hl & Hpid).
  destruct (snapshot_line_layout 20 desktop l 3 Hl Hpid)
    as (depth & data & name & status & total & Hdepth & Hdata & Hname
        & Hstatus & ->).
  assert (depth = 2%nat) as ->.
  { apply (at_depth_unique desktop depth 2 3 Hdepth).
    exists 1. split; vm_compute; reflexivity. }
  vm_compute in Hdata. simplify_eq. cbn in Hname, Hstatus. simplify_eq.
  eexists. exists total. split; [exact Hl |]. vm_compute. reflexivity.
Defined.

(** ** The lines of a whole snapshot *)

(** Two root candidates with a common node in their subtrees are one. *)
Lemma subtree_root_unique snapshot_data root1 root2 pid :
  root1 ∈ root_candidates snapshot_data →
  root2 ∈ root_candidates snapshot_data →
  in_subtree snapshot_data (children_map snapshot_data) root1 pid →
  in_subtree snapshot_data (children_map snapshot_data) root2 pid →
  root1 = root2.
Proof.
  intros H1 H2 Hx1 Hx2.
  assert (Hd1 : at_depth snapshot_data 0 root1)
    by (apply root_at_depth_0; by left).
  assert (Hd2 : at_depth snapshot_data 0 root2)
    by (apply root_at_depth_0; by left).
  destruct (at_depth_descendant _ _ _ _ Hd1 Hx1) as (k1 & Hk1 & Ha1).
  destruct (at_depth_descendant _ _ _ _ Hd2 Hx2) as (k2 & Hk2 & Ha2).
  pose proof (at_depth_unique _ _ _ _ Hk1 Hk2).
  assert (k1 = k2) as -> by lia. congruence.
Qed.

(** The lines of the loop over distinct root candidates whose calls all
    return. *)
Lemma log_roots_nodes fuel snapshot_data roots errors :
  NoDup roots →
  (∀ r, r ∈ roots → r ∈ root_candidates snapshot_data) →
  (∀ r, r ∈ roots →
     ∃ written t,
       log_process_tree fuel snapshot_data (children_map snapshot_data) r ""
       = (written, Returned t)) →
  ∃ lines,
    log_roots fuel snapshot_data (children_map snapshot_data) roots errors
    = (lines, Returned (errors + counted snapshot_data (line_pids lines)))
    ∧ NoDup (line_pids lines)
    ∧ ∀ x, x ∈ line_pids lines
           ↔ ∃ r, r ∈ roots
                  ∧ in_subtree snapshot_data (children_map snapshot_data) r x.
Proof.
  revert errors.
  induction roots as [| r roots IH]; intros errors Hnodup Hcand Hcalls.
  - exists []. cbn. split; [f_equal; f_equal; unfold counted; cbn; lia |].
    split; [constructor |].
    intros x. split; [by intros ?%elem_of_nil |].
    by intros (? & ?%elem_of_nil & _).
  - apply NoDup_cons in Hnodup as [Hnotin Hnodup].
    destruct (Hcalls r) as (written & t & Hcall); [left |].
    assert (Hr : r ∈ root_candidates snapshot_data) by (apply Hcand; left).
    destruct (log_process_tree_nodes snapshot_data fuel 0 r "" written t)
      as (Hnd & Hmem & Hcount); [by apply root_at_depth_0; left | done |].
    destruct (IH (errors + error_count t) Hnodup) as (more & Hmore & IHnd & IHmem).
    { intros r' Hr'. apply Hcand. by right. }
    { intros r' Hr'. apply Hcalls. by right. }
    exists (written ++ more). cbn.
    rewrite decide_True.
    2: { apply elem_of_root_candidates in Hr as [? _]. by apply elem_of_dom. }
    rewrite Hcall, Hmore. rewrite line_pids_app, counted_app, Hcount.
    split; [f_equal; f_equal; lia |]. split.
    + apply NoDup_app. split; [done |]. split; [| done].
      intros x Hx%Hmem (r' & Hr' & Hx')%IHmem.
      assert (r = r') as <-; [| done].
      apply (subtree_root_unique snapshot_data r r' x); [done | | done..].
      apply Hcand. by right.
    + intros x. rewrite elem_of_app, Hmem, IHmem. split.
      * intros [Hx | (r' & Hr' & Hx)]; [exists r; split; [left | done] |].
        exists r'. split; [by right | done].
      * intros (r' & [-> | Hr']%elem_of_cons & Hx); [by left |].
        right. by exists r'.
Qed.

Lemma root_pids_to_log_NoDup snapshot_data :
  NoDup (root_pids_to_log snapshot_data).
Proof. apply sorted_NoDup, NoDup_elements. Qed.

(** X7: with printable samples and more fuel than samples, the unfiltered
    block of a snapshot is written to the end.  It has one line, and only
    one, for every sampled pid from which the parent links lead up to a
    pid without live parent, and no line for any other pid; and the error
    total that is logged is the number of those pids whose status is one
    of the error statuses. *)
Theorem snapshot_lists_each_once fuel snapshot_data :
  printable snapshot_data → (size snapshot_data < fuel)%nat →
  (write_snapshot fuel snapshot_data).2
  = Returned (counted snapshot_data
                (line_pids (write_snapshot fuel snapshot_data).1))
  ∧ NoDup (line_pids (write_snapshot fuel snapshot_data).1)
  ∧ ∀ pid, pid ∈ line_pids (write_snapshot fuel snapshot_data).1
           ↔ is_Some (snapshot_data !! pid)
             ∧ ∃ depth, at_depth snapshot_data depth pid.
Proof.
  intros Hprint Hfuel.
  assert (Hiff : ∀ pid,
            (∃ r, r ∈ root_pids_to_log snapshot_data
                  ∧ in_subtree snapshot_data (children_map snapshot_data) r pid)
            ↔ is_Some (snapshot_data !! pid)
              ∧ ∃ depth, at_depth snapshot_data depth pid).
  { intros pid. split.
    - intros (r & Hr%elem_of_root_pids_to_log & Hsub).
      assert (Hd : at_depth snapshot_data 0 r)
        by (apply root_at_depth_0; by left).
      destruct (at_depth_descendant _ _ _ _ Hd Hsub) as (k & Hk & _).
      split; [| by exists (k + 0)%nat].
      apply elem_of_root_candidates in Hr as [Hr _].
      apply rtc_inv_r in Hsub as [<- | (pp & _ & Hedge)]; [done |].
      apply tree_edge_live_parent in Hedge.
      by apply live_parent_Some in Hedge as [? _].
    - intros [Hpid (depth & top & Htop & Hnone)].
      exists top. split; [| by eapply ancestor_in_subtree].
      apply elem_of_root_pids_to_log, elem_of_root_candidates.
      split; [| done]. by apply (ancestor_sampled snapshot_data depth pid). }
  destruct (decide (root_pids_to_log snapshot_data = [])) as [Hnil | Hne].
  - unfold write_snapshot. rewrite Hnil. cbn.
    split; [done |]. split; [constructor |].
    intros pid. rewrite <- Hiff, Hnil. split; [by intros ?%elem_of_nil |].
    by intros (? & ?%elem_of_nil & _).
  - rewrite (write_snapshot_lines _ _ Hne). cbn.
    destruct (log_roots_nodes fuel snapshot_data
                (root_pids_to_log snapshot_data) 0)
      as (lines & -> & Hnd & Hmem).
    + apply root_pids_to_log_NoDup.
    + intros r. by rewrite elem_of_root_pids_to_log.
    + intros r Hr%elem_of_root_pids_to_log.
      by apply root_call_returns_fuel.
    + cbn. split; [done |]. split; [done |].
      intros pid. by rewrite Hmem, Hiff.
Qed.

(** The loop of 7 and 8 and the pid 5 below it are left out of the block
    of [looped]; the root 1 is listed. *)
Lemma snapshot_lists_each_once_witness :
  (write_snapshot 5 looped).2 = Returned 0
  ∧ NoDup (line_pids (write_snapshot 5 looped).1)
  ∧ 1 ∈ line_pids (write_snapshot 5 looped).1.
Proof.
  destruct (snapshot_lists_each_once 5 looped) as (Hres & Hnodup & Hmem).
  - exact (bool_decide_unpack
             (map_Forall (λ _ data, is_Some (d_name data)
                                    ∧ is_Some (d_status data)) looped) I).
  - vm_compute. lia.
  - split; [rewrite Hres; vm_compute; reflexivity |]. split; [done |].
    apply Hmem. split; [by eexists |].
    exists 0%nat, 1. split; vm_compute; reflexivity.
Defined.

(** ** The order of the lines, and the calls that raise *)

(** X8: the lines of a call that returns on a sampled pid are the blocks
    of its live children, in ascending order of their pids, each the whole
    output of the call on that child one indentation deeper, followed by
    the line of the pid itself: a process is listed after all of its
    descendants. *)
Theorem children_before_parent fuel snapshot_data pid indent data written t :
  snapshot_data !! pid = Some data →
  log_process_tree fuel snapshot_data (children_map snapshot_data) pid indent
  = (written, Returned t) →
  ∃ children blocks own,
    written = concat blocks ++ [own]
    ∧ line_pid own = Some pid ∧ line_indent own = Some indent
    ∧ Sorted Z.le children ∧ NoDup children
    ∧ (∀ c, c ∈ children ↔ live_parent snapshot_data c = Some pid)
    ∧ Forall2
        (λ c block,
           ∃ t', log_process_tree (pred fuel) snapshot_data
                   (children_map snapshot_data) c (indent +:+ INDENT_STRING)
                 = (block, Returned t'))
        children blocks.
Proof.
  intros Hdata Hcall.
  destruct (log_process_tree_Returned _ _ _ _ _ _ _ _ Hdata Hcall)
    as (fuel' & results & own & -> & Hall & _ & Hown & ->).
  exists (sorted (valid_children_pids snapshot_data
                    (children_map snapshot_data) pid)), results.*1, own.
  split; [done |].
  unfold format_line in Hown.
  destruct (d_name data), (d_status data); simplify_eq.
  split; [done |]. split; [done |].
  split; [apply sorted_Sorted |].
  split; [apply sorted_NoDup, NoDup_valid_children |].
  split; [intros c; by rewrite elem_of_sorted, elem_of_valid_children |].
  cbn [pred]. apply Forall2_fmap_r.
  eapply Forall2_impl; [exact Hall |].
  intros c r Hr. by exists r.2.
Qed.

(** In the family of the design notes the line of the parent 1 is the
    last of the three. *)
Lemma children_before_parent_witness :
  ∃ blocks own,
    (log_process_tree 3 family (children_map family) 1 "").1
    = concat blocks ++ [own]
    ∧ line_pid own = Some 1.
Proof.
  destruct (log_process_tree 3 family (children_map family) 1 "")
    as [written res] eqn:Hcall.
  assert (∃ t, res = Returned t) as [t ->].
  { vm_compute in Hcall. simplify_eq. by eexists. }
  destruct (children_before_parent 3 family 1 "" (node 1 (Some 0) "running" 1)
              written t eq_refl Hcall)
    as (children & blocks & own & Hwritten & Hown & _).
  by exists blocks, own.
Defined.

(** A call raises only at a node of the subtree whose name or status is
    [None]. *)
Lemma log_process_tree_raised_at snapshot_data children fuel pid indent :
  (log_process_tree fuel snapshot_data children pid indent).2 = Raised →
  ∃ x, in_subtree snapshot_data children pid x ∧ unprintable snapshot_data x.
Proof.
  revert pid indent. induction fuel as [| fuel IH]; intros pid indent; [done |].
  cbn. destruct (snapshot_data !! pid) as [data |] eqn:Hdata; [| done].
  cbn zeta. destruct (for_children _ _ _) as [written res] eqn:Hfor.
  destruct res as [children_total | |]; [| | done].
  - unfold format_line.
    destruct (d_name data) eqn:Hname, (d_status data) eqn:Hstatus; [done |..];
      intros _; exists pid; (split; [apply rtc_refl |]); exists data; auto.
  - intros _.
    destruct (for_children_raised _ _ _ ltac:(by rewrite Hfor))
      as (c & Hc & Hraised).
    rewrite elem_of_sorted in Hc.
    destruct (IH _ _ Hraised) as (x & Hsub & Hx).
    exists x. split; [| done]. eapply rtc_l; [| exact Hsub].
    split; [by exists data | exact Hc].
Qed.

(** A call that returns wrote a line for each node of its subtree, so all
    of them are printable. *)
Lemma log_process_tree_returned_printable snapshot_data fuel depth pid indent
    written t x :
  at_depth snapshot_data depth pid →
  log_process_tree fuel snapshot_data (children_map snapshot_data) pid indent
  = (written, Returned t) →
  in_subtree snapshot_data (children_map snapshot_data) pid x →
  ¬ unprintable snapshot_data x.
Proof.
  intros Hdepth Hcall Hsub (data & Hdata & Hnone).
  destruct (log_process_tree_nodes snapshot_data fuel depth pid indent
              written t Hdepth Hcall) as (_ & Hmem & _).
  apply Hmem, list_elem_of_omap in Hsub as (l & Hl & Hpid).
  pose proof (log_process_tree_written snapshot_data
                (children_map snapshot_data)
                (λ _ _ l, line_pid l = Some x → ∀ data,
                   snapshot_data !! x = Some data →
                   ¬ (d_name data = None ∨ d_status data = None)))
    as Hwritten.
  apply (Hwritten) with (fuel := fuel) (pid := pid) (indent := indent)
                        (l := l) (data := data);
    clear Hwritten; try done.
  - intros node ind Hmissing [= <-] data' Hdata'. congruence.
  - intros node ind data' total own Hdata' Hown Hown_pid data'' Hdata''.
    unfold format_line in Hown.
    destruct (d_name data') eqn:Hn; [| done].
    destruct (d_status data') eqn:Hs; [| done].
    simplify_eq. cbn in Hown_pid. simplify_eq. intros [? | ?]; congruence.
  - by rewrite Hcall.
Qed.

Lemma log_roots_raised fuel snapshot_data children roots errors :
  (log_roots fuel snapshot_data children roots errors).2 = Raised →
  ∃ root, root ∈ roots
          ∧ (log_process_tree fuel snapshot_data children root "").2 = Raised.
Proof.
  revert errors. induction roots as [| r roots IH]; intros errors; cbn;
    [done |].
  case_decide.
  - destruct (log_process_tree fuel snapshot_data children r "")
      as [written [t | |]] eqn:Hcall; cbn.
    + destruct (log_roots fuel snapshot_data children roots _)
        as [more res] eqn:Hmore. cbn. intros ->.
      destruct (IH (errors + error_count t)) as (root & ? & ?);
        [by rewrite Hmore |].
      exists root. split; [by right | done].
    + intros _. exists r. split; [left | by rewrite Hcall].
    + done.
  - destruct (log_roots fuel snapshot_data children roots errors)
      as [more res] eqn:Hmore. cbn. intros ->.
    destruct (IH errors) as (root & ? & ?); [by rewrite Hmore |].
    exists root. split; [by right | done].
Qed.

(** When the loop over sampled roots returns, so did each call. *)
Lemma log_roots_all_returned fuel snapshot_data children roots errors total
    root :
  (log_roots fuel snapshot_data children roots errors).2 = Returned total →
  root ∈ roots → root ∈ dom snapshot_data →
  ∃ written t,
    log_process_tree fuel snapshot_data children root "" = (written, Returned t).
Proof.
  revert errors. induction roots as [| r roots IH]; intros errors Hres Hroot Hdom;
    [by apply elem_of_nil in Hroot |].
  cbn in Hres.
  destruct (decide (r ∈ dom snapshot_data)) as [Hr | Hr].
  - destruct (log_process_tree fuel snapshot_data children r "")
      as [written [t | |]] eqn:Hcall; [| done..].
    destruct (log_roots fuel snapshot_data children roots _)
      as [more res] eqn:Hmore. cbn in Hres. subst res.
    apply elem_of_cons in Hroot as [-> | Hroot].
    + rewrite Hcall. by exists written, t.
    + apply (IH (errors + error_count t)); [by rewrite Hmore | done..].
  - destruct (log_roots fuel snapshot_data children roots errors)
      as [more res] eqn:Hmore. cbn in Hres. subst res.
    apply elem_of_cons in Hroot as [-> | Hroot]; [done |].
    apply (IH errors); [by rewrite Hmore | done..].
Qed.

(** X9: with more fuel than samples, writing the unfiltered block of a
    snapshot raises exactly when a name or a status that is [None] belongs
    to a sampled pid from which the parent links lead up to a pid without
    live parent; otherwise it returns.  A [None] on a cycle of parent
    links, or below one, does no harm: that pid is never formatted. *)
Theorem snapshot_raises_iff fuel snapshot_data :
  (size snapshot_data < fuel)%nat →
  ((write_snapshot fuel snapshot_data).2 = Raised
   ↔ ∃ pid depth,
       at_depth snapshot_data depth pid ∧ unprintable snapshot_data pid)
  ∧ ((∃ total, (write_snapshot fuel snapshot_data).2 = Returned total)
     ↔ ∀ pid depth,
         at_depth snapshot_data depth pid → ¬ unprintable snapshot_data pid).
Proof.
  intros Hfuel.
  pose proof (write_snapshot_enough_fuel fuel snapshot_data Hfuel) as Hok.
  assert (Hraised : (write_snapshot fuel snapshot_data).2 = Raised →
            ∃ pid depth,
              at_depth snapshot_data depth pid
              ∧ unprintable snapshot_data pid).
  { intros Hres.
    destruct (decide (root_pids_to_log snapshot_data = [])) as [Hnil | Hne].
    { unfold write_snapshot in Hres. by rewrite Hnil in Hres. }
    rewrite (write_snapshot_lines _ _ Hne) in Hres. cbn in Hres.
    apply log_roots_raised in Hres
      as (root & Hroot%elem_of_root_pids_to_log & Hres).
    apply log_process_tree_raised_at in Hres as (x & Hsub & Hx).
    assert (Hd : at_depth snapshot_data 0 root)
      by (apply root_at_depth_0; by left).
    destruct (at_depth_descendant _ _ _ _ Hd Hsub) as (k & Hk & _).
    by exists x, (k + 0)%nat. }
  assert (Hreturned : ∀ total,
            (write_snapshot fuel snapshot_data).2 = Returned total →
            ∀ pid depth, at_depth snapshot_data depth pid →
                         ¬ unprintable snapshot_data pid).
  { intros total Hres pid depth (top & Htop & Hnone) Hbad.
    assert (Hcand : top ∈ root_candidates snapshot_data).
    { apply elem_of_root_candidates. split; [| done].
      destruct Hbad as (data & Hdata & _).
      by apply (ancestor_sampled snapshot_data depth pid). }
    assert (Hne : root_pids_to_log snapshot_data ≠ []).
    { apply elem_of_root_pids_to_log in Hcand. intros Hnil.
      rewrite Hnil in Hcand. by apply elem_of_nil in Hcand. }
    rewrite (write_snapshot_lines _ _ Hne) in Hres. cbn in Hres.
    destruct (log_roots_all_returned _ _ _ _ _ _ top Hres)
      as (written & t & Hcall).
    { by apply elem_of_root_pids_to_log. }
    { apply elem_of_root_candidates in Hcand as [? _]. by apply elem_of_dom. }
    apply (log_process_tree_returned_printable snapshot_data fuel 0 top ""
             written t pid); [| done | | done].
    - by apply at_depth_root.
    - by eapply ancestor_in_subtree. }
  split; split.
  - apply Hraised.
  - intros (pid & depth & Hdepth & Hbad).
    destruct ((write_snapshot fuel snapshot_data).2) as [total | |] eqn:Hres;
      [| done | done].
    destruct (Hreturned total eq_refl pid depth Hdepth Hbad).
  - intros [total Hres]. by apply (Hreturned total).
  - intros Hgood.
    destruct ((write_snapshot fuel snapshot_data).2) as [total | |] eqn:Hres;
      [by exists total | | done].
    destruct (Hraised eq_refl) as (pid & depth & Hdepth & Hbad).
    destruct (Hgood pid depth Hdepth Hbad).
Qed.

(** The shell 2 of [blurred] has no status and sits under the root 1: the
    block raises.  The nameless 6 of [unnamed] is its own parent: the block
    is written. *)
Lemma snapshot_raises_iff_witness :
  (write_snapshot 10 blurred).2 = Raised
  ∧ ∃ total, (write_snapshot 10 unnamed).2 = Returned total.
Proof.
  split.
  - apply (snapshot_raises_iff 10 blurred); [vm_compute; lia |].
    exists 2, 1%nat. split.
    + exists 1. split; vm_compute; reflexivity.
    + eexists. split; [reflexivity |]. by right.
  - destruct (snapshot_raises_iff 10 unnamed) as [Hiff _]; [vm_compute; lia |].
    destruct ((write_snapshot 10 unnamed).2) as [total | |] eqn:Hres.
    + by exists total.
    + vm_compute in Hres. discriminate.
    + vm_compute in Hres. discriminate.
Defined.

(** ** The forest as a partition of the samples *)

Lemma filter_all {A} (P : A → Prop) `{∀ x, Decision (P x)} (l : list A) :
  Forall P l → filter P l = l.
Proof.
  induction 1 as [| x l Hx Hl IH]; [done |].
  rewrite filter_cons, decide_True by done. by rewrite IH.
Qed.

Lemma forest_fold_nonempty all_pids items children_map0 roots0 pp l :
  (∀ pp l, children_map0 !! pp = Some l → l ≠ []) →
  (foldl (forest_step all_pids) (children_map0, roots0) items).1 !! pp
  = Some l →
  l ≠ [].
Proof.
  revert children_map0 roots0.
  induction items as [| [pid data] items IH]; intros cm0 r0 Hne; cbn.
  - apply Hne.
  - apply IH. intros pp' l'.
    destruct (parent_in_snapshot all_pids (d_ppid data)) as [q |]; [| apply Hne].
    destruct (decide (q = pp')) as [-> | Hq].
    + rewrite lookup_insert_eq. intros [= <-]. by destruct (default [] _).
    + rewrite lookup_insert_ne by done. apply Hne.
Qed.

(** X10: the forest builder splits the samples in two.  A sampled pid is
    either a root candidate, and then in no list of children, or it is in
    the list of exactly one parent, which is its declared parent, a sampled
    pid other than 0, and then it is no root candidate.  The lists of
    children have no repeats, none is empty, only sampled pids other than 0
    have one, and the test [p in current_snapshot_data] that
    [log_process_tree] applies to the children drops none of them. *)
Theorem forest_partition snapshot_data :
  (∀ pid data, snapshot_data !! pid = Some data →
     (pid ∈ root_candidates snapshot_data
      ∧ ∀ pp, pid ∉ default [] (children_map snapshot_data !! pp))
     ∨ ((pid ∉ root_candidates snapshot_data)
        ∧ ∃ pp, d_ppid data = Some pp ∧ pp ≠ 0
                ∧ is_Some (snapshot_data !! pp)
                ∧ (∀ pp', pid ∈ default [] (children_map snapshot_data !! pp')
                          ↔ pp' = pp)))
  ∧ (∀ pp children, children_map snapshot_data !! pp = Some children →
       children ≠ [] ∧ NoDup children ∧ pp ≠ 0
       ∧ is_Some (snapshot_data !! pp)
       ∧ valid_children_pids snapshot_data (children_map snapshot_data) pp
         = children).
Proof.
  split.
  - intros pid data Hdata.
    destruct (live_parent snapshot_data pid) as [pp |] eqn:Hpar.
    + right. split.
      { intros [_ ?]%elem_of_root_candidates. congruence. }
      exists pp. pose proof Hpar as (_ & Hpp & Hne)%live_parent_Some.
      split; [| split; [done |]; split; [done |]].
      * unfold live_parent in Hpar. rewrite Hdata in Hpar. cbn in Hpar.
        unfold parent_in_snapshot in Hpar.
        destruct (d_ppid data) as [q |]; [| done].
        case_decide; by simplify_eq.
      * intros pp'. rewrite elem_of_children, Hpar. split; congruence.
    + left. split; [by apply elem_of_root_candidates |].
      intros pp. rewrite elem_of_children. congruence.
  - intros pp children Hchildren.
    assert (Hne : children ≠ []).
    { apply (forest_fold_nonempty (dom snapshot_data)
               (map_to_list snapshot_data) ∅ ∅ pp); [| exact Hchildren].
      intros ? ?. by rewrite lookup_empty. }
    assert (Hdef : default [] (children_map snapshot_data !! pp) = children)
      by (by rewrite Hchildren).
    split; [done |].
    split; [rewrite <- Hdef; apply NoDup_children |].
    destruct children as [| c children]; [done |].
    assert (Hc : live_parent snapshot_data c = Some pp).
    { apply elem_of_children. rewrite Hdef. left. }
    apply live_parent_Some in Hc as (_ & Hpp & Hzero).
    split; [done |]. split; [done |].
    unfold valid_children_pids. rewrite Hdef.
    apply filter_all. apply Forall_forall. intros x Hx.
    rewrite <- Hdef in Hx. apply elem_of_children in Hx.
    apply live_parent_Some in Hx as [? _]. by apply elem_of_dom.
Qed.

(** The desktop: 3 is filed under 2 alone, 4 is a root. *)
Lemma forest_partition_witness :
  (3 ∉ root_candidates desktop)
  ∧ (4 ∈ root_candidates desktop)
  ∧ children_map desktop !! 2 = Some [3].
Proof.
  destruct (forest_partition desktop) as [Hpids Hlists].
  split; [| split].
  - destruct (Hpids 3 (named 3 (Some 2) "Chrome.exe") eq_refl)
      as [[_ Hnone] | [Hroot _]]; [| done].
    destruct (Hnone 2). vm_compute. left.
  - destruct (Hpids 4 (named 4 (Some 9) "svc") eq_refl)
      as [[Hroot _] | (_ & pp & Hpp & _ & [? Hsome] & _)]; [done |].
    cbn in Hpp. simplify_eq.
  - vm_compute. reflexivity.
Defined.


(** X11: the block filtered for a target name lists whole trees.  With
    printable samples, a target name that is a non-empty string and fuel
    above three times the number of samples, the block has one line, and
    only one, for every pid in the subtree of a root candidate that is, or
    lies above, a sample with the target name, whether or not that pid
    carries the name itself, and no line for any other pid; the error total
    is the number of those pids whose status is an error status. *)
Theorem filtered_block_lists_whole_trees fuel lower target_app_name
    snapshot_data :
  target_app_name ≠ "" → lower target_app_name ≠ "" →
  printable snapshot_data →
  (3 * size snapshot_data < fuel)%nat →
  (write_snapshot_for fuel lower (Some target_app_name) snapshot_data).2
  = Returned
      (counted snapshot_data
         (line_pids (write_snapshot_for fuel lower (Some target_app_name)
                       snapshot_data).1))
  ∧ NoDup (line_pids (write_snapshot_for fuel lower (Some target_app_name)
                        snapshot_data).1)
  ∧ ∀ pid,
      pid ∈ line_pids (write_snapshot_for fuel lower (Some target_app_name)
                         snapshot_data).1
      ↔ ∃ root target,
          root ∈ root_candidates snapshot_data
          ∧ named_like lower target_app_name snapshot_data target
          ∧ above snapshot_data target root
          ∧ in_subtree snapshot_data (children_map snapshot_data) root pid.
Proof.
  intros Htarget Hlower Hprint Hfuel.
  assert (Hnames : ∀ pid data,
            snapshot_data !! pid = Some data → is_Some (d_name data)).
  { intros pid data Hdata. by destruct (Hprint pid data Hdata). }
  destruct (root_pids_to_log_for_spec fuel lower target_app_name
              snapshot_data Htarget Hlower Hnames Hfuel)
    as (roots & Hroots & _ & Hnodup & Hiff).
  assert (Hmem : ∀ pid,
            (∃ r, r ∈ roots
                  ∧ in_subtree snapshot_data (children_map snapshot_data) r pid)
            ↔ ∃ root target,
                root ∈ root_candidates snapshot_data
                ∧ named_like lower target_app_name snapshot_data target
                ∧ above snapshot_data target root
                ∧ in_subtree snapshot_data (children_map snapshot_data)
                    root pid).
  { intros pid. split.
    - intros (r & [Hr (target & Ht & Hab)]%Hiff & Hsub). by exists r, target.
    - intros (r & target & Hr & Ht & Hab & Hsub). exists r.
      split; [| done]. apply Hiff. split; [done |]. by exists target. }
  destruct (decide (roots = [])) as [-> | Hne].
  - unfold write_snapshot_for. rewrite Hroots. cbn.
    split; [done |]. split; [constructor |].
    intros pid. rewrite <- Hmem. split; [by intros ?%elem_of_nil |].
    by intros (? & ?%elem_of_nil & _).
  - rewrite (write_snapshot_for_lines _ _ _ _ roots Hroots Hne). cbn.
    destruct (log_roots_nodes fuel snapshot_data roots 0)
      as (lines & -> & Hnd & Hlines); [done | | |].
    + by intros r [? _]%Hiff.
    + intros r [? _]%Hiff. apply root_call_returns_fuel; [done | lia | done].
    + cbn. split; [done |]. split; [done |].
      intros pid. by rewrite Hlines, Hmem.
Qed.

(** The block of the desktop filtered for [chrome.exe] lists the root 1,
    which does not carry the name. *)
Lemma filtered_block_lists_whole_trees_witness :
  1 ∈ line_pids
        (write_snapshot_for 20 ascii_lower (Some "chrome.exe") desktop).1.
Proof.
  destruct (filtered_block_lists_whole_trees 20 ascii_lower "chrome.exe"
              desktop) as (_ & _ & Hmem).
  - discriminate.
  - vm_compute. discriminate.
  - exact (bool_decide_unpack
             (map_Forall (λ _ data, is_Some (d_name data)
                                    ∧ is_Some (d_status data)) desktop) I).
  - vm_compute. lia.
  - apply Hmem. exists 1, 3. split; [vm_compute; tauto |].
    split; [| split; [by exists 2%nat | apply rtc_refl]].
    eexists _, _. split; [reflexivity |]. split; reflexivity.
Defined.

(** ** A whole collection *)

Section collection.
Context (cpu_cores : Z) (previous_io_counters : gmap Z pio).

Lemma fetch_resources_fields pid inf p snapshot :
  let data :=
    (fetch_resources cpu_cores previous_io_counters pid inf p snapshot).1 in
  d_pid data = pid ∧ d_ppid data = info_ppid inf
  ∧ d_name data = Some (py_or (dict_get (info_name inf) (Some "N/A")) "N/A").
Proof.
  unfold fetch_resources.
  destruct (fetch_cpu _ _ _) as [c s1], (fetch_mem _ _) as [m s2],
    (fetch_io _ _ _ _ _) as [[[r w] s3] snap]. done.
Qed.

Lemma fetch_io_nonneg pid p status snapshot :
  0 ≤ (fetch_io previous_io_counters pid p status snapshot).1.1.1
  ∧ 0 ≤ (fetch_io previous_io_counters pid p status snapshot).1.1.2.
Proof.
  unfold fetch_io. destruct (io_counters p) as [current_io | e].
  - destruct (previous_io_counters !! pid); cbn; lia.
  - destruct (io_specific e); cbn; lia.
Qed.

(** What a pass through the loop body does to the object cache. *)
Lemma sample_process_cache st p st' :
  sample_process cpu_cores previous_io_counters st p = Next st' →
  (pid_of p = None ∧ st' = st)
  ∨ ∃ pid inf,
      info p = Some inf ∧ info_pid inf = Some pid
      ∧ ((acquire (process_objects_cache st) pid p = Reused
          ∧ pid ∈ process_objects_cache st
          ∧ process_objects_cache st' = process_objects_cache st
          ∧ current_snapshot_data st' !! pid
            = Some (fetch_resources cpu_cores previous_io_counters pid inf p
                      (current_io_snapshot st)).1)
         ∨ (acquire (process_objects_cache st) pid p = Fresh
            ∧ Process p = Ok ()
            ∧ process_objects_cache st' = {[pid]} ∪ process_objects_cache st
            ∧ current_snapshot_data st' !! pid
              = Some (fetch_resources cpu_cores previous_io_counters pid inf p
                        (current_io_snapshot st)).1)
         ∨ (acquire (process_objects_cache st) pid p = Unavailable
            ∧ process_objects_cache st' = process_objects_cache st ∖ {[pid]}
            ∧ current_snapshot_data st' !! pid
              = Some (minimal_entry pid inf)))
      ∧ (∀ q, q ≠ pid →
           current_snapshot_data st' !! q = current_snapshot_data st !! q).
Proof.
  unfold sample_process, pid_of.
  destruct (info p) as [inf |] eqn:Hinf; [| intros [= <-]; by left].
  cbn. destruct (info_pid inf) as [pid |] eqn:Hpid; [| intros [= <-]; by left].
  cbn. intros Hstep. right. exists pid, inf. split; [done |]. split; [done |].
  destruct (acquire (process_objects_cache st) pid p) eqn:Hacq; [| | | done].
  - simplify_eq. unfold store_fetched.
    destruct (fetch_resources _ _ _ _ _ _) as [data snap] eqn:Hfetch. cbn.
    split; [| by intros q Hq; rewrite lookup_insert_ne].
    left. split; [done |]. split; [| split; [done |]].
    + unfold acquire in Hacq. case_decide; [done |].
      unfold new_process_object in Hacq. by destruct (Process p) as [| []].
    + by rewrite lookup_insert_eq.
  - simplify_eq. unfold store_fetched. cbn.
    destruct (fetch_resources _ _ _ _ _ _) as [data snap] eqn:Hfetch. cbn.
    split; [| by intros q Hq; rewrite lookup_insert_ne].
    right. left. split; [done |]. split; [| split; [done |]].
    + unfold acquire, new_process_object in Hacq.
      case_decide.
      * destruct (is_running p) as [[] | []]; try done;
          by destruct (Process p) as [[] | []].
      * by destruct (Process p) as [[] | []].
    + by rewrite lookup_insert_eq.
  - simplify_eq. cbn.
    split; [| by intros q Hq; rewrite lookup_insert_ne].
    right. right. split; [done |]. split; [done |].
    by rewrite lookup_insert_eq.
Qed.

(** The invariant of the loop: the samples are those of the pids found,
    and a pid found is cached exactly when its sample was fetched. *)
Lemma sample_all_cache procs st st' :
  sample_all cpu_cores previous_io_counters st procs = Next st' →
  (∀ pid, pid ∈ process_objects_cache st' →
     pid ∈ process_objects_cache st
     ∨ ∃ p, p ∈ procs ∧ pid_of p = Some pid ∧ Process p = Ok ())
  ∧ (∀ pid, (∃ p, p ∈ procs ∧ pid_of p = Some pid) →
       ∃ data, current_snapshot_data st' !! pid = Some data
               ∧ if decide (pid ∈ process_objects_cache st')
                 then fetched cpu_cores previous_io_counters procs pid data
                 else minimal procs pid data)
  ∧ (∀ pid, (∀ p, p ∈ procs → pid_of p ≠ Some pid) →
       current_snapshot_data st' !! pid = current_snapshot_data st !! pid
       ∧ (pid ∈ process_objects_cache st' ↔ pid ∈ process_objects_cache st)).
Proof.
  revert st. induction procs as [| p procs IH]; intros st Hall; cbn in Hall.
  - simplify_eq. split; [by left |]. split; [| done].
    by intros pid (p & ?%elem_of_nil & _).
  - destruct (sample_process cpu_cores previous_io_counters st p)
      as [st1 | e st1] eqn:Hstep; [| done].
    destruct (IH st1 Hall) as (IHcache & IHsampled & IHother). clear IH.
    assert (Hwiden_f : ∀ pid data,
              fetched cpu_cores previous_io_counters procs pid data →
              fetched cpu_cores previous_io_counters (p :: procs) pid data).
    { intros pid data (q & inf & snap & ? & ?). exists q, inf, snap.
      split; [by right | done]. }
    assert (Hwiden_m : ∀ pid data,
              minimal procs pid data → minimal (p :: procs) pid data).
    { intros pid data (q & inf & ? & ?). exists q, inf.
      split; [by right | done]. }
    apply sample_process_cache in Hstep
      as [[Hnone ->] | (pid & inf & Hinf & Hpid & Hcases & Hframe)].
    + split; [| split].
      * intros x Hx. destruct (IHcache x Hx) as [? | (q & ? & ? & ?)];
          [by left |].
        right. exists q. split; [by right | done].
      * intros x (q & [-> | Hq]%elem_of_cons & Hx); [congruence |].
        destruct (IHsampled x) as (data & Hdata & Hkind); [by exists q |].
        exists data. split; [done |]. case_decide; auto.
      * intros x Hx. apply IHother. intros q Hq. apply Hx. by right.
    + assert (Hp : pid_of p = Some pid) by (unfold pid_of; by rewrite Hinf).
      split; [| split].
      * intros x Hx.
        destruct (IHcache x Hx) as [Hx1 | (q & ? & ? & ?)].
        -- destruct Hcases as [(_ & _ & Hc & _) | [(_ & Hok & Hc & _)
                                                   | (_ & Hc & _)]];
             rewrite Hc in Hx1.
           ++ by left.
           ++ apply elem_of_union in Hx1 as [->%elem_of_singleton | ?];
                [| by left].
              right. exists p. split; [left | done].
           ++ apply elem_of_difference in Hx1 as [? _]. by left.
        -- right. exists q. split; [by right | done].
      * intros x Hx.
        destruct (decide (Exists (λ q, pid_of q = Some x) procs))
          as [Hlater | Hnot]; rewrite Exists_exists in *.
        { destruct (IHsampled x Hlater) as (data & Hdata & Hkind).
          exists data. split; [done |]. case_decide; auto. }
        assert (Hnot' : ∀ q, q ∈ procs → pid_of q ≠ Some x).
        { intros q Hq Hqx. apply Hnot. by exists q. }
        destruct (IHother x Hnot') as [Hsame Hcache].
        destruct Hx as (q & [-> | Hq]%elem_of_cons & Hqx);
          [| by destruct (Hnot' q Hq)].
        assert (x = pid) as -> by congruence.
        rewrite Hsame.
        destruct Hcases as [(_ & Hin & Hc & Hdata) | [(_ & Hok & Hc & Hdata)
                                                      | (_ & Hc & Hdata)]];
          eexists; (split; [exact Hdata |]).
        -- rewrite decide_True by (apply Hcache; by rewrite Hc).
           exists p, inf, (current_io_snapshot st). split; [left | done].
        -- rewrite decide_True.
           2: { apply Hcache. rewrite Hc. apply elem_of_union. left.
                by apply elem_of_singleton. }
           exists p, inf, (current_io_snapshot st). split; [left | done].
        -- rewrite decide_False.
           2: { rewrite Hcache, Hc. intros [_ Hx]%elem_of_difference.
                apply Hx. by apply elem_of_singleton. }
           exists p, inf. split; [left | done].
      * intros x Hx.
        assert (Hne : x ≠ pid).
        { intros ->. apply (Hx p); [left | done]. }
        destruct (IHother x) as [Hsame Hcache].
        { intros q Hq. apply Hx. by right. }
        rewrite Hsame, Hcache, (Hframe x Hne). split; [done |].
        destruct Hcases as [(_ & _ & Hc & _) | [(_ & _ & Hc & _)
                                                | (_ & Hc & _)]];
          rewrite Hc; [done | |].
        -- rewrite elem_of_union, elem_of_singleton. tauto.
        -- rewrite elem_of_difference, elem_of_singleton. tauto.
Qed.
End collection.

Lemma minimal_entry_fields pid inf :
  d_pid (minimal_entry pid inf) = pid
  ∧ d_ppid (minimal_entry pid inf) = info_ppid inf
  ∧ d_cpu_percent (minimal_entry pid inf) = 0%float
  ∧ d_mem_ws_kb (minimal_entry pid inf) = 0
  ∧ d_delta_read_bytes (minimal_entry pid inf) = 0
  ∧ d_delta_write_bytes (minimal_entry pid inf) = 0.
Proof. done. Qed.

(** After a collection that completed: the samples and the object cache. *)
Lemma collect_cache cpu_cores g procs primer st :
  collect cpu_cores g (Ok procs) primer = Next st →
  (∀ pid, pid ∈ process_objects_cache st →
     pid ∈ g_process_objects_cache g
     ∨ ∃ p, p ∈ procs ∧ pid_of p = Some pid ∧ Process p = Ok ())
  ∧ (∀ pid, (∃ p, p ∈ procs ∧ pid_of p = Some pid) →
       ∃ data, current_snapshot_data st !! pid = Some data
               ∧ if decide (pid ∈ process_objects_cache st)
                 then fetched cpu_cores (g_previous_io_counters g) procs
                        pid data
                 else minimal procs pid data)
  ∧ (∀ pid, (∀ p, p ∈ procs → pid_of p ≠ Some pid) →
       current_snapshot_data st !! pid = None
       ∧ (pid ∈ process_objects_cache st ↔ pid ∈ g_process_objects_cache g))
  ∧ (∀ pid, pid ∈ pids_found_this_iter st
            ↔ ∃ p, p ∈ procs ∧ pid_of p = Some pid).
Proof.
  intros (st1 & Hall & -> & -> & -> & _)%collect_Next.
  destruct (sample_all_cache _ _ _ _ _ Hall) as (Hcache & Hsampled & Hother).
  split; [exact Hcache |]. split; [exact Hsampled |]. split.
  - intros pid Hpid. destruct (Hother pid Hpid) as [-> ?]. done.
  - intros pid. rewrite (sample_all_pids_found _ _ _ _ _ _ Hall). cbn.
    split; [intros [?%not_elem_of_empty | ?]; done | by right].
Qed.

Lemma not_enumerated_dec (procs : list proc) (pid : Z) :
  (∃ p, p ∈ procs ∧ pid_of p = Some pid)
  ∨ (∀ p, p ∈ procs → pid_of p ≠ Some pid).
Proof.
  destruct (decide (Exists (λ q, pid_of q = Some pid) procs)) as [H | H];
    rewrite Exists_exists in H; [by left |].
  right. intros p Hp Hpid. apply H. by exists p.
Qed.

(** X12: the snapshot of a collection that completed holds one sample for
    each pid the enumeration reported, and nothing else: no sample of the
    previous cycle is carried over.  Each sample is filed under its own
    pid, with the parent pid [proc.info] gave for an enumerated process of
    that pid, and its two I/O deltas are not negative. *)
Theorem collected_samples cpu_cores g procs primer st :
  collect cpu_cores g (Ok procs) primer = Next st →
  (∀ pid, is_Some (current_snapshot_data st !! pid)
          ↔ ∃ p, p ∈ procs ∧ pid_of p = Some pid)
  ∧ dom (current_snapshot_data st) = pids_found_this_iter st
  ∧ ∀ pid data, current_snapshot_data st !! pid = Some data →
      d_pid data = pid
      ∧ 0 ≤ d_delta_read_bytes data ∧ 0 ≤ d_delta_write_bytes data
      ∧ ∃ p inf, p ∈ procs ∧ info p = Some inf ∧ info_pid inf = Some pid
                 ∧ d_ppid data = info_ppid inf.
Proof.
  intros Hcollect.
  destruct (collect_cache _ _ _ _ _ Hcollect)
    as (_ & Hsampled & Hother & Hfound).
  assert (Hiff : ∀ pid, is_Some (current_snapshot_data st !! pid)
                        ↔ ∃ p, p ∈ procs ∧ pid_of p = Some pid).
  { intros pid. split.
    - intros [data Hdata].
      destruct (not_enumerated_dec procs pid) as [? | Hnot]; [done |].
      destruct (Hother pid Hnot). congruence.
    - intros Hpid. destruct (Hsampled pid Hpid) as (data & -> & _). done. }
  split; [exact Hiff |]. split.
  - apply set_eq. intros pid. by rewrite elem_of_dom, Hiff, Hfound.
  - intros pid data Hdata.
    destruct (Hsampled pid) as (data' & Hdata' & Hkind).
    { apply Hiff. by exists data. }
    assert (data' = data) as -> by congruence.
    case_decide.
    + destruct Hkind as (p & inf & snap & Hp & Hinf & Hpid & ->).
      destruct (fetch_resources_fields cpu_cores (g_previous_io_counters g)
                  pid inf p snap) as (Hd & Hpp & _).
      destruct (fetch_resources_io cpu_cores (g_previous_io_counters g)
                  pid inf p snap) as [-> ->].
      destruct (fetch_io_nonneg (g_previous_io_counters g) pid p None snap).
      split; [done |]. split; [done |]. split; [done |]. by exists p, inf.
    + destruct Hkind as (p & inf & Hp & Hinf & Hpid & ->).
      split; [done |]. split; [done |]. split; [done |]. by exists p, inf.
Qed.

(** Pid 6 is denied and still sampled; pid 99 of the last cycle is gone. *)
Lemma collected_samples_witness :
  ∃ st,
    collect 4 stale_globals
      (Ok [healthy 5 (Some 1) 8 4096 (io 800 700); denied 6]) silent = Next st
    ∧ is_Some (current_snapshot_data st !! 6)
    ∧ ¬ is_Some (current_snapshot_data st !! 99).
Proof.
  destruct (collect 4 stale_globals
              (Ok [healthy 5 (Some 1) 8 4096 (io 800 700); denied 6]) silent)
    as [st | e st] eqn:Hcollect; [| vm_compute in Hcollect; discriminate].
  destruct (collected_samples 4 stale_globals _ silent st Hcollect)
    as (Hiff & _).
  exists st. split; [done |]. split.
  - apply Hiff. exists (denied 6).
    split; [apply list_elem_of_further, list_elem_of_here | reflexivity].
  - intros (p & Hp & Hpid)%Hiff.
    apply elem_of_cons in Hp as [-> | Hp]; [discriminate |].
    apply elem_of_cons in Hp as [-> | []%elem_of_nil]. discriminate.
Defined.

(** X13: the object cache after a cycle that completed.  It holds only
    pids the enumeration reported: every other pid is evicted.  A pid it
    holds was cached before the cycle or had an object created in it; and
    a sampled pid is in the cache exactly when its sample was built from
    the fetches of an object, while a sampled pid that is not in the cache
    has the minimal entry, with all four metrics at zero. *)
Theorem object_cache_after_cycle cpu_cores g procs primer st :
  collect cpu_cores g (Ok procs) primer = Next st →
  (∀ pid, pid ∈ g_process_objects_cache (update_caches st) →
     (∃ p, p ∈ procs ∧ pid_of p = Some pid)
     ∧ (pid ∈ g_process_objects_cache g
        ∨ ∃ p, p ∈ procs ∧ pid_of p = Some pid ∧ Process p = Ok ()))
  ∧ (∀ pid data,
       g_current_snapshot_data (update_caches st) !! pid = Some data →
       if decide (pid ∈ g_process_objects_cache (update_caches st))
       then fetched cpu_cores (g_previous_io_counters g) procs pid data
       else minimal procs pid data
            ∧ d_cpu_percent data = 0%float ∧ d_mem_ws_kb data = 0
            ∧ d_delta_read_bytes data = 0 ∧ d_delta_write_bytes data = 0).
Proof.
  intros Hcollect.
  destruct (collect_cache _ _ _ _ _ Hcollect)
    as (Hcache & Hsampled & Hother & Hfound).
  assert (Hclean : ∀ pid,
            pid ∈ g_process_objects_cache (update_caches st)
            ↔ pid ∈ process_objects_cache st
              ∧ ∃ p, p ∈ procs ∧ pid_of p = Some pid).
  { intros pid. cbn. rewrite <- Hfound, !elem_of_difference.
    destruct (decide (pid ∈ pids_found_this_iter st)); tauto. }
  split.
  - intros pid [Hin Henum]%Hclean. split; [done |]. by apply Hcache.
  - intros pid data Hdata. cbn in Hdata.
    destruct (not_enumerated_dec procs pid) as [Henum | Hnot].
    2: { destruct (Hother pid Hnot). congruence. }
    destruct (Hsampled pid Henum) as (data' & Hdata' & Hkind).
    assert (data' = data) as -> by congruence.
    destruct (decide (pid ∈ process_objects_cache st)) as [Hin | Hout].
    + by rewrite decide_True by (by apply Hclean).
    + rewrite decide_False by (intros [? _]%Hclean; done).
      split; [done |].
      destruct Hkind as (p & inf & _ & _ & _ & ->). done.
Qed.

(** Pid 99 was cached and is no longer enumerated: it is evicted.  Pid 6
    is denied: it is sampled and not cached. *)
Lemma object_cache_after_cycle_witness :
  ∃ st,
    collect 4 stale_globals
      (Ok [healthy 5 (Some 1) 8 4096 (io 800 700); denied 6]) silent = Next st
    ∧ (99 ∉ g_process_objects_cache (update_caches st))
    ∧ g_process_objects_cache (update_caches st) = {[5]}.
Proof.
  destruct (collect 4 stale_globals
              (Ok [healthy 5 (Some 1) 8 4096 (io 800 700); denied 6]) silent)
    as [st | e st] eqn:Hcollect; [| vm_compute in Hcollect; discriminate].
  destruct (object_cache_after_cycle 4 stale_globals _ silent st Hcollect)
    as (Hcache & _).
  exists st. split; [done |]. split.
  - intros [(p & Hp & Hpid) _]%Hcache.
    apply elem_of_cons in Hp as [-> | Hp]; [discriminate |].
    apply elem_of_cons in Hp as [-> | []%elem_of_nil]. discriminate.
  - vm_compute in Hcollect. by simplify_eq.
Defined.

(** Each fetch keeps a status that is a string a string. *)
Lemma fetch_status_is_Some cpu_cores previous_io_counters pid p status
    snapshot :
  is_Some status →
  is_Some (fetch_io previous_io_counters pid p
             (fetch_mem p (fetch_cpu cpu_cores p status).2).2 snapshot).1.2.
Proof.
  intros Hstatus. unfold fetch_io, fetch_mem, fetch_cpu.
  destruct (cpu_percent p) as [? | e1], (memory_info p) as [? | e2],
    (io_counters p) as [? | e]; cbn;
    try destruct (previous_io_counters !! pid); cbn;
    try destruct (io_specific e); cbn;
    repeat match goal with
           | |- context [if ?b then _ else _] => destruct b
           end; done.
Qed.

Lemma write_snapshot_raised fuel snapshot_data :
  (write_snapshot fuel snapshot_data).2 = Raised →
  ∃ pid, unprintable snapshot_data pid.
Proof.
  intros Hres.
  destruct (decide (root_pids_to_log snapshot_data = [])) as [Hnil | Hne].
  { unfold write_snapshot in Hres. by rewrite Hnil in Hres. }
  rewrite (write_snapshot_lines _ _ Hne) in Hres. cbn in Hres.
  apply log_roots_raised in Hres as (root & _ & Hres).
  apply log_process_tree_raised_at in Hres as (x & _ & Hx). by exists x.
Qed.

(** X14: when no entry of the enumeration has [None] for its name or its
    status, the snapshot of a collection that completed is printable, and
    with more fuel than samples the iteration writes its block to the end:
    no fetch that fails can make the writing raise.  The name of a sample
    built from the fetches of an object is a string, and not the empty one,
    whatever [proc.info] holds. *)
Theorem readable_infos_printable fuel cpu_cores g procs primer st :
  collect cpu_cores g (Ok procs) primer = Next st →
  (∀ pid data,
     fetched cpu_cores (g_previous_io_counters g) procs pid data →
     ∃ name, d_name data = Some name ∧ name ≠ "")
  ∧ ((∀ p inf, p ∈ procs → info p = Some inf →
        info_name inf ≠ PyNone ∧ info_status inf ≠ PyNone) →
     printable (current_snapshot_data st)
     ∧ ((size (current_snapshot_data st) < fuel)%nat →
        ∃ total,
          (monitor_iteration fuel cpu_cores g (Ok procs) primer).2.2
          = Returned total)).
Proof.
  intros Hcollect. split.
  - intros pid data (p & inf & snap & _ & _ & _ & ->).
    destruct (fetch_resources_fields cpu_cores (g_previous_io_counters g)
                pid inf p snap) as (_ & _ & ->).
    eexists. split; [done |]. unfold py_or.
    destruct (dict_get _ _) as [s |]; [| done]. by case_decide.
  - intros Hinfo.
    destruct (collect_cache _ _ _ _ _ Hcollect)
      as (_ & Hsampled & Hother & _).
    assert (Hprint : printable (current_snapshot_data st)).
    { intros pid data Hdata.
      destruct (not_enumerated_dec procs pid) as [Henum | Hnot].
      2: { destruct (Hother pid Hnot). congruence. }
      destruct (Hsampled pid Henum) as (data' & Hdata' & Hkind).
      assert (data' = data) as -> by congruence.
      case_decide.
      - destruct Hkind as (p & inf & snap & Hp & Hinf & _ & ->).
        destruct (fetch_resources_fields cpu_cores (g_previous_io_counters g)
                    pid inf p snap) as (_ & _ & ->).
        split; [done |]. rewrite fetch_resources_status.
        apply fetch_status_is_Some. unfold raw_status.
        destruct (Hinfo p inf Hp Hinf) as [_ Hs].
        by destruct (info_status inf).
      - destruct Hkind as (p & inf & Hp & Hinf & _ & ->).
        destruct (Hinfo p inf Hp Hinf) as [Hn Hs]. cbn.
        by destruct (info_name inf), (info_status inf). }
    split; [done |]. intros Hfuel.
    unfold monitor_iteration. rewrite Hcollect. cbn.
    pose proof (write_snapshot_enough_fuel fuel (current_snapshot_data st)
                  Hfuel) as Hok.
    destruct (write_snapshot fuel (current_snapshot_data st))
      as [lines [total | |]] eqn:Hwrite; cbn in *; [by exists total | | done].
    assert (Hres : (write_snapshot fuel (current_snapshot_data st)).2 = Raised)
      by (by rewrite Hwrite).
    apply write_snapshot_raised in Hres as (pid & data & Hdata & Hnone).
    destruct (Hprint pid data Hdata) as [[? ?] [? ?]].
    destruct Hnone; congruence.
Qed.

(** A process whose memory and I/O fetches fail and one that is denied:
    the block is written to the end. *)
Lemma readable_infos_printable_witness :
  ∃ total,
    (monitor_iteration 5 4 fresh_globals
       (Ok [half_readable 5; denied 6]) silent).2.2 = Returned total.
Proof.
  destruct (collect 4 fresh_globals (Ok [half_readable 5; denied 6]) silent)
    as [st | e st] eqn:Hcollect; [| vm_compute in Hcollect; discriminate].
  destruct (readable_infos_printable 5 4 fresh_globals _ silent st Hcollect)
    as [_ Hprint].
  destruct Hprint as [_ Hreturns].
  - intros p inf Hp Hinf.
    apply elem_of_cons in Hp as [-> | Hp].
    { cbn in Hinf. simplify_eq. split; discriminate. }
    apply elem_of_cons in Hp as [-> | []%elem_of_nil].
    cbn in Hinf. simplify_eq. split; discriminate.
  - apply Hreturns. vm_compute in Hcollect. simplify_eq. vm_compute. lia.
Defined.

Lemma sample_all_completes cpu_cores previous_io_counters procs st :
  (∀ p, p ∈ procs → acquirable p) →
  ∃ st', sample_all cpu_cores previous_io_counters st procs = Next st'.
Proof.
  revert st. induction procs as [| p procs IH]; intros st Hacq; cbn.
  - by exists st.
  - assert (∃ st1, sample_process cpu_cores previous_io_counters st p
                   = Next st1) as [st1 ->].
    { unfold sample_process. destruct (info p) as [inf |]; [| by eexists].
      destruct (info_pid inf) as [pid |]; [| by eexists]. cbn.
      destruct (acquire (process_objects_cache st) pid p) eqn:Ha;
        [by eexists.. |].
      by destruct (Hacq p (list_elem_of_here _ _) (process_objects_cache st)
                     pid e). }
    apply IH. intros q Hq. apply Hacq. by right.
Qed.

Lemma sample_all_escapes cpu_cores previous_io_counters procs st e st' :
  sample_all cpu_cores previous_io_counters st procs = Propagate e st' →
  ∃ p cache pid, p ∈ procs ∧ acquire cache pid p = Escaped e.
Proof.
  revert st. induction procs as [| p procs IH]; intros st Hall; cbn in Hall;
    [done |].
  destruct (sample_process cpu_cores previous_io_counters st p)
    as [st1 | e1 st1] eqn:Hstep.
  - destruct (IH st1 Hall) as (q & cache & pid & Hq & Hacq).
    exists q, cache, pid. split; [by right | done].
  - simplify_eq. exists p. unfold sample_process in Hstep.
    destruct (info p) as [inf |]; [| done].
    destruct (info_pid inf) as [pid |]; [| done]. cbn in Hstep.
    destruct (acquire (process_objects_cache st) pid p) eqn:Ha; [done.. |].
    simplify_eq. exists (process_objects_cache st), pid.
    split; [left | done].
Qed.

(** X15: a cycle is abandoned only when the enumeration raises, or when
    [is_running] or [psutil.Process] raises something that is neither
    [NoSuchProcess] nor [AccessDenied].  No failure of a CPU, memory or I/O
    fetch abandons it: when every enumerated process is acquirable the
    collection completes.  An abandoned cycle appends nothing to the
    snapshot file and leaves the previous counters as they were; when it
    is the enumeration that raised, the object cache is as it was too and
    the snapshot is empty. *)
Theorem cycle_abandoned_only_by_acquire fuel cpu_cores g process_iter primer :
  (∀ procs, process_iter = Ok procs →
     (∀ p, p ∈ procs → acquirable p) →
     ∃ st, collect cpu_cores g process_iter primer = Next st)
  ∧ (∀ e st, collect cpu_cores g process_iter primer = Propagate e st →
       (monitor_iteration fuel cpu_cores g process_iter primer).2
       = ([], Returned 0)
       ∧ g_previous_io_counters
           (monitor_iteration fuel cpu_cores g process_iter primer).1
         = g_previous_io_counters g
       ∧ (process_iter = Raises e
          ∧ (monitor_iteration fuel cpu_cores g process_iter primer).1
            = {| g_previous_io_counters := g_previous_io_counters g;
                 g_process_objects_cache := g_process_objects_cache g;
                 g_current_snapshot_data := ∅ |}
          ∨ ∃ procs p cache pid,
              process_iter = Ok procs ∧ p ∈ procs
              ∧ acquire cache pid p = Escaped e)).
Proof.
  split.
  - intros procs -> Hacq. unfold collect.
    destruct (sample_all_completes cpu_cores (g_previous_io_counters g) procs
                (start_iteration g) Hacq) as [st ->].
    destruct (prime_all _ _ _ _ _). by eexists.
  - intros e st Hcollect. unfold monitor_iteration. rewrite Hcollect. cbn.
    split; [done |]. split; [done |].
    unfold collect in Hcollect.
    destruct process_iter as [procs | e'].
    + right.
      destruct (sample_all _ _ _ _) as [st1 | e1 st1] eqn:Hall.
      { by destruct (prime_all _ _ _ _ _). }
      simplify_eq.
      destruct (sample_all_escapes _ _ _ _ _ _ Hall)
        as (p & cache & pid & Hp & Hacq).
      by exists procs, p, cache, pid.
    + left. by simplify_eq.
Qed.

(** ** The conversion of an int to a float *)

















(** The largest int that is converted is the one just below
    [2 ^ 1024 - 2 ^ 970]: it becomes the largest float. *)
Example largest_int_converted :
  py_float_of_int (2 ^ 1024 - 2 ^ 970 - 1) = Some 0x1.fffffffffffffp+1023%float
  ∧ py_float_of_int (2 ^ 1024 - 2 ^ 970) = None.
Proof. split; vm_compute; reflexivity. Qed.

(** ** Timing and the prompt *)

(** X16: when [psutil.cpu_count] does not return a negative count, the
    core count [get_cpu_cores] returns is at least 1: it is 1 when the call
    raises, returns [None] or returns 0, and the count itself otherwise.
    The CPU value of a process is then always divided by the core count:
    the branch of the scaling that leaves it undivided is not taken. *)
Theorem cpu_cores_fallback cpu_count :
  (∀ count, cpu_count = Ok (Some count) → 0 ≤ count) →
  1 ≤ get_cpu_cores cpu_count
  ∧ (∀ count, cpu_count = Ok (Some count) → 0 < count →
       get_cpu_cores cpu_count = count)
  ∧ ((∀ count, cpu_count = Ok (Some count) → count = 0) →
     get_cpu_cores cpu_count = 1)
  ∧ ∀ raw, scaled_cpu raw (get_cpu_cores cpu_count)
           = (raw / float_of_Z (get_cpu_cores cpu_count))%float.
Proof.
  intros Hcount.
  assert (Hpos : 1 ≤ get_cpu_cores cpu_count).
  { unfold get_cpu_cores. destruct cpu_count as [[count |] | e]; [| lia..].
    specialize (Hcount count eq_refl). case_decide; lia. }
  split; [done |]. split; [| split].
  - intros count -> Hc. cbn. case_decide; [lia | done].
  - intros Hzero. unfold get_cpu_cores.
    destruct cpu_count as [[count |] | e]; [| done..].
    rewrite (Hzero count eq_refl). done.
  - intros raw. unfold scaled_cpu. case_decide; [done | lia].
Qed.

(** When the count comes back as 0 the value is divided by 1. *)
Lemma cpu_cores_fallback_witness :
  get_cpu_cores (Ok (Some 0)) = 1
  ∧ scaled_cpu 50 (get_cpu_cores (Ok (Some 0))) = 50%float.
Proof.
  destruct (cpu_cores_fallback (Ok (Some 0))) as (_ & _ & Hone & Hscaled).
  - intros count [= <-]. lia.
  - split; [apply Hone; by intros count [= <-] |].
    rewrite Hscaled. vm_compute. reflexivity.
Defined.



(** The pause after an iteration of twelve seconds with an interval of
    ten is half a second. *)
Example sleep_after_overrun : sleep_time 10 12 = Some 0.5%float.
Proof. vm_compute. reflexivity. Qed.

(** An interval of [2 ^ 1024] seconds, which the prompt accepts, ends the
    first iteration with an OverflowError. *)
Example sleep_overflow : sleep_time (2 ^ 1024) 12 = None.
Proof. vm_compute. reflexivity. Qed.

(** X18: the prompt for the interval only lets a positive integer
    through: the one typed, or the current [repeat_seconds] on an empty
    answer.  An integer that is not positive is rejected, yet it has
    already replaced [repeat_seconds]: the empty answers that follow do not
    bring back the default but are rejected in turn, until an integer is
    typed. *)
Theorem interval_prompt_positive repeat_seconds answers :
  (∀ n, ask_interval repeat_seconds answers = Some n →
     0 < n ∧ (n = repeat_seconds ∨ Number n ∈ answers))
  ∧ (0 < repeat_seconds →
     ∀ garbage rest, Forall (λ a, a = Garbage) garbage →
       ask_interval repeat_seconds (garbage ++ Blank :: rest)
       = Some repeat_seconds)
  ∧ (∀ n blanks rest,
       n ≤ 0 → Forall (λ a, a = Blank ∨ a = Garbage) blanks →
       ask_interval repeat_seconds (Number n :: blanks ++ rest)
       = ask_interval n rest
       ∧ ask_interval repeat_seconds (Number n :: blanks) = None).
Proof.
  split; [| split].
  - revert repeat_seconds.
    induction answers as [| a answers IH]; intros d n; cbn; [done |].
    destruct a as [| m |].
    + case_decide.
      * intros [Hn [-> | Hin]]%IH; (split; [done |]); [by left | right].
        by right.
      * intros [= <-]. split; [lia | by left].
    + case_decide.
      * intros [Hn [-> | Hin]]%IH; [lia |]. split; [done |]. right. by right.
      * intros [= <-]. split; [lia |]. right. left.
    + intros [Hn [-> | Hin]]%IH; (split; [done |]); [by left | right].
      by right.
  - intros Hpos garbage rest Hall.
    induction Hall as [| a garbage -> _ IH]; cbn; [| done].
    by rewrite decide_False by lia.
  - intros n blanks rest Hn Hall.
    assert (ask_interval n (blanks ++ rest) = ask_interval n rest
            ∧ ask_interval n blanks = None) as [Hrest Hnone].
    { induction Hall as [| a blanks [-> | ->] _ IH]; cbn; [done | | done].
      by rewrite !decide_True by done. }
    cbn. by rewrite !decide_True by done.
Qed.

(** After a rejected 0 the empty answers are rejected too. *)
Example prompt_after_zero :
  ask_interval 10 [Number 0; Blank; Blank; Number 3] = Some 3.
Proof. reflexivity. Qed.

(** ** The disk column *)

Lemma zero_div_pos (x : float) :
  (hundredth <? x)%float = true → (0 / x)%float = 0%float.
Proof.
  rewrite ltb_spec. unfold SFltb. intros Hx.
  apply Prim2SF_inj. rewrite div_spec.
  change (Prim2SF 0) with (S754_zero false).
  destruct (Prim2SF x) as [s | s | | s m e] eqn:Heq.
  - vm_compute in Hx. destruct s; discriminate.
  - destruct s; [vm_compute in Hx; discriminate | reflexivity].
  - vm_compute in Hx. discriminate.
  - destruct s; [vm_compute in Hx; discriminate | reflexivity].
Qed.

Lemma format_rate_mbps_zero fmt1 : format_rate_mbps fmt1 0 = "0.0 MB/s".
Proof. reflexivity. Qed.

(** X19: the disk column of a line reads [0.0 MB/s] whenever the interval
    is not above 0.01 seconds, or is not a number, whatever the deltas
    are, and whenever both deltas of the subtree are 0, whatever the
    interval is. *)
Theorem disk_display_idle fmt1 interval_duration total_for_node :
  ((hundredth <? interval_duration)%float = false →
   disk_display fmt1 interval_duration total_for_node = "0.0 MB/s")
  ∧ (delta_read_bytes total_for_node = 0 →
     delta_write_bytes total_for_node = 0 →
     disk_display fmt1 interval_duration total_for_node = "0.0 MB/s").
Proof.
  split.
  - intros Hshort. unfold disk_display. rewrite Hshort.
    rewrite format_rate_mbps_zero. by rewrite decide_True.
  - intros Hr Hw. unfold disk_display. rewrite Hr, Hw.
    destruct (hundredth <? interval_duration)%float eqn:Hlong.
    + change (float_of_Z 0) with 0%float.
      rewrite (zero_div_pos _ Hlong), format_rate_mbps_zero.
      by rewrite decide_True.
    + rewrite format_rate_mbps_zero. by rewrite decide_True.
Qed.

(** ** From the samples to the figures of a line *)

Section figures.
Context (snapshot_data : gmap Z process_data) (children_map : gmap Z (list Z)).
Hypothesis Hdeltas : deltas_nonneg snapshot_data.

Lemma for_children_figures call pids children_total :
  (∀ c, c ∈ pids → figures_ok snapshot_data (call c)) →
  0 ≤ delta_read_bytes children_total →
  0 ≤ delta_write_bytes children_total →
  0 ≤ error_count children_total →
  figures_ok snapshot_data (for_children call pids children_total).
Proof.
  revert children_total.
  induction pids as [| c pids IH]; intros acc Hcalls Hr Hw He; cbn.
  - split; [by intros l x ?%elem_of_nil |]. by intros t [= <-].
  - destruct (Hcalls c (list_elem_of_here _ _)) as [Hlines Htotal].
    destruct (call c) as [written [child_sum | |]] eqn:Hcall; cbn in *.
    + destruct (Htotal child_sum eq_refl) as (Hcr & Hcw & Hce).
      destruct (IH (add_child acc child_sum)) as [IHlines IHtotal].
      { intros c' Hc'. apply Hcalls. by right. }
      { cbn. lia. } { cbn. lia. } { cbn. lia. }
      destruct (for_children call pids _) as [more res]. cbn in *.
      split; [| done].
      intros l x [Hl | Hl]%elem_of_app; [by apply Hlines | by apply IHlines].
    + split; [done | by intros t].
    + split; [done | by intros t].
Qed.

Lemma log_process_tree_figures fuel pid indent :
  figures_ok snapshot_data
    (log_process_tree fuel snapshot_data children_map pid indent).
Proof.
  revert pid indent. induction fuel as [| fuel IH]; intros pid indent.
  - split; [by intros l x ?%elem_of_nil | by intros t]. 
  - cbn. destruct (snapshot_data !! pid) as [data |] eqn:Hdata.
    + cbn zeta.
      pose proof (for_children_figures
                    (λ child_pid,
                       log_process_tree fuel snapshot_data children_map
                         child_pid (indent +:+ INDENT_STRING))
                    (sorted (valid_children_pids snapshot_data children_map
                               pid))
                    (zero_totals 0)) as Hfor.
      destruct Hfor as [Hlines Htotal]; [by intros c _; apply IH | done..|].
      destruct (for_children _ _ _) as [written [children_total | |]];
        cbn in *; [| split; [done | by intros t]..].
      destruct (Htotal children_total eq_refl) as (Hr & Hw & He).
      destruct (Hdeltas pid data Hdata) as [Hdr Hdw].
      unfold format_line.
      destruct (d_name data) as [name |]; [| split; [done | by intros t]].
      destruct (d_status data) as [status |]; [| split; [done | by intros t]].
      cbn. split.
      * intros l x [Hl | ->%list_elem_of_singleton]%elem_of_app;
          [by apply Hlines |].
        cbn. intros [= <-]. rewrite Hdata. eexists. split; [done |].
        cbn. lia.
      * intros t [= <-]. cbn.
        destruct (status_in _ _); lia.
    + cbn. split.
      * intros l x ->%list_elem_of_singleton [= <-]. by rewrite Hdata.
      * intros t [= <-]. cbn. lia.
Qed.
End figures.

(** X20: from the counters to the figures of a line.  In the block an
    iteration writes after a collection that completed, the line of a pid
    shows read and write deltas that are at least those of the sample of
    the pid, which are not negative: a counter that went backwards, a
    process seen for the first time or a fetch that failed never makes a
    disk figure of a line negative. *)
Theorem logged_deltas_not_negative fuel cpu_cores g procs primer st l pid :
  collect cpu_cores g (Ok procs) primer = Next st →
  l ∈ (monitor_iteration fuel cpu_cores g (Ok procs) primer).2.1 →
  line_pid l = Some pid →
  ∃ data total,
    current_snapshot_data st !! pid = Some data
    ∧ line_total l = Some total
    ∧ 0 ≤ d_delta_read_bytes data ≤ delta_read_bytes total
    ∧ 0 ≤ d_delta_write_bytes data ≤ delta_write_bytes total.
Proof.
  intros Hcollect Hl Hpid.
  assert (Hdeltas : deltas_nonneg (current_snapshot_data st)).
  { intros x data Hdata.
    destruct (collect_cache _ _ _ _ _ Hcollect) as (_ & Hsampled & Hother & _).
    destruct (not_enumerated_dec procs x) as [Henum | Hnot].
    2: { destruct (Hother x Hnot). congruence. }
    destruct (Hsampled x Henum) as (data' & Hdata' & Hkind).
    assert (data' = data) as -> by congruence.
    case_decide.
    - destruct Hkind as (p & inf & snap & _ & _ & _ & ->).
      destruct (fetch_resources_io cpu_cores (g_previous_io_counters g)
                  x inf p snap) as [-> ->].
      apply fetch_io_nonneg.
    - by destruct Hkind as (p & inf & _ & _ & _ & ->). }
  unfold monitor_iteration in Hl. rewrite Hcollect in Hl. cbn in Hl.
  destruct (write_snapshot_process_line fuel (current_snapshot_data st) l Hl)
    as (root & Hroot & Hcall); [by rewrite Hpid |].
  destruct (log_process_tree_figures (current_snapshot_data st)
              (children_map (current_snapshot_data st)) Hdeltas fuel root "")
    as [Hlines _].
  specialize (Hlines l pid Hcall Hpid).
  destruct (current_snapshot_data st !! pid) as [data |] eqn:Hdata.
  - destruct Hlines as (total & Htotal & Hr & Hw).
    destruct (Hdeltas pid data Hdata).
    exists data, total. repeat split; done.
  - apply written_in_subtree in Hcall as (x & Hx & Hsub).
    assert (x = pid) as -> by congruence.
    apply elem_of_root_candidates in Hroot as [Hsampled _].
    apply rtc_inv_r in Hsub as [<- | (pp & _ & Hedge)].
    + rewrite Hdata in Hsampled. by destruct Hsampled.
    + apply tree_edge_live_parent, live_parent_Some in Hedge as [Hs _].
      rewrite Hdata in Hs. by destruct Hs.
Qed.

(** The read counter of pid 5 went back from 1000 to 800: its line shows
    a delta of 0. *)
Lemma logged_deltas_not_negative_witness :
  ∃ l total,
    l ∈ (monitor_iteration 3 4
           {| g_previous_io_counters := {[5 := io 1000 700]};
              g_process_objects_cache := {[5]};
              g_current_snapshot_data := ∅ |}
           (Ok [healthy 5 (Some 1) 8 4096 (io 800 900)]) silent).2.1
    ∧ line_total l = Some total
    ∧ 0 ≤ delta_read_bytes total.
Proof.
  set (g := {| g_previous_io_counters := {[5 := io 1000 700]};
               g_process_objects_cache := {[5]};
               g_current_snapshot_data := ∅ |}).
  set (procs := [healthy 5 (Some 1) 8 4096 (io 800 900)]).
  destruct (collect 4 g (Ok procs) silent)
    as [st | e st] eqn:Hcollect; [| vm_compute in Hcollect; discriminate].
  assert (Hl : ∃ l, l ∈ (monitor_iteration 3 4 g (Ok procs) silent).2.1
                    ∧ line_pid l = Some 5).
  { eexists. split; [vm_compute; apply list_elem_of_further, list_elem_of_here |].
    reflexivity. }
  destruct Hl as (l & Hl & Hpid).
  destruct (logged_deltas_not_negative 3 4 g procs silent st l 5 Hcollect
              Hl Hpid) as (data & total & _ & Htotal & Hr & _).
  exists l, total. split; [done |]. split; [done | lia].
Defined.

(** X21: deltas span one cycle.  When two collections complete one after
    the other, each sample of the second has both deltas at 0, or its
    deltas are the clamped differences between the counters fetched for
    its pid in the second cycle and the counters the first cycle stored
    for that pid, which were fetched in the first cycle, in its loop or in
    its priming block: no older counters are ever used. *)
Theorem deltas_span_one_cycle cpu_cores g procs1 primer1 st1 procs2 primer2
    st2 pid data :
  collect cpu_cores g (Ok procs1) primer1 = Next st1 →
  collect cpu_cores (update_caches st1) (Ok procs2) primer2 = Next st2 →
  current_snapshot_data st2 !! pid = Some data →
  (d_delta_read_bytes data = 0 ∧ d_delta_write_bytes data = 0)
  ∨ ∃ p current_io baseline,
      p ∈ procs2 ∧ pid_of p = Some pid ∧ io_counters p = Ok current_io
      ∧ current_io_snapshot st1 !! pid = Some baseline
      ∧ ((∃ q, q ∈ procs1 ∧ pid_of q = Some pid
               ∧ io_counters q = Ok baseline)
         ∨ prime_io_counters (primer1 pid) = Ok baseline)
      ∧ d_delta_read_bytes data
        = Z.max 0 (read_bytes current_io - read_bytes baseline)
      ∧ d_delta_write_bytes data
        = Z.max 0 (write_bytes current_io - write_bytes baseline).
Proof.
  intros Hfirst Hsecond Hdata.
  destruct (collect_cache _ _ _ _ _ Hsecond) as (_ & Hsampled & Hother & _).
  destruct (not_enumerated_dec procs2 pid) as [Henum | Hnot].
  2: { destruct (Hother pid Hnot). congruence. }
  destruct (Hsampled pid Henum) as (data' & Hdata' & Hkind).
  assert (data' = data) as -> by congruence.
  case_decide.
  2: { left. by destruct Hkind as (p & inf & _ & _ & _ & ->). }
  destruct Hkind as (p & inf & snap & Hp & Hinf & Hpid & ->).
  destruct (fetch_resources_io cpu_cores
              (g_previous_io_counters (update_caches st1)) pid inf p snap)
    as [-> ->].
  unfold fetch_io. cbn [update_caches g_previous_io_counters].
  destruct (io_counters p) as [current_io | e] eqn:Hio.
  2: { left. by destruct (io_specific e). }
  destruct (current_io_snapshot st1 !! pid) as [baseline |] eqn:Hbase;
    [| by left].
  right. exists p, current_io, baseline.
  split; [done |]. split; [unfold pid_of; by rewrite Hinf |].
  split; [done |]. split; [done |].
  split; [| done].
  by destruct (collect_io_snapshot _ _ _ _ _ _ _ Hfirst Hbase).
Qed.

(** Pid 5 read 800 bytes by the first cycle and 1300 by the second: the
    second sample shows 500. *)
Lemma deltas_span_one_cycle_witness :
  ∃ st1 st2 data,
    collect 4 fresh_globals (Ok [healthy 5 (Some 1) 8 4096 (io 800 700)])
      silent = Next st1
    ∧ collect 4 (update_caches st1)
        (Ok [healthy 5 (Some 1) 8 4096 (io 1300 700)]) silent = Next st2
    ∧ current_snapshot_data st2 !! 5 = Some data
    ∧ d_delta_read_bytes data = 500.
Proof.
  destruct (collect 4 fresh_globals
              (Ok [healthy 5 (Some 1) 8 4096 (io 800 700)]) silent)
    as [st1 | e st1] eqn:Hfirst;
    [| exfalso; vm_compute in Hfirst; discriminate].
  assert (Hst1 : current_io_snapshot st1 !! 5 = Some (io 800 700)).
  { vm_compute in Hfirst. injection Hfirst as Hst1. subst st1.
    reflexivity. }
  destruct (collect 4 (update_caches st1)
              (Ok [healthy 5 (Some 1) 8 4096 (io 1300 700)]) silent)
    as [st2 | e st2] eqn:Hsecond.
  2: { exfalso. vm_compute in Hfirst. injection Hfirst as Heq. subst st1.
       vm_compute in Hsecond. discriminate. }
  destruct (current_snapshot_data st2 !! 5) as [data |] eqn:Hdata.
  2: { exfalso. vm_compute in Hfirst. injection Hfirst as Heq. subst st1.
       vm_compute in Hsecond. injection Hsecond as Heq. subst st2.
       vm_compute in Hdata. discriminate. }
  exists st1, st2, data. split; [done |]. split; [done |]. split; [done |].
  destruct (deltas_span_one_cycle 4 fresh_globals _ silent st1 _ silent st2
              5 data Hfirst Hsecond Hdata)
    as [[Hzero _] | (p & current_io & baseline & Hp & _ & Hio & Hbase & _
                     & Hread & _)].
  - exfalso. vm_compute in Hfirst. injection Hfirst as Heq. subst st1.
    vm_compute in Hsecond. injection Hsecond as Heq. subst st2.
    vm_compute in Hdata. injection Hdata as Heq. subst data.
    vm_compute in Hzero. discriminate.
  - rewrite Hread. apply list_elem_of_singleton in Hp as ->.
    cbn in Hio. injection Hio as Heq. subst current_io.
    rewrite Hst1 in Hbase. injection Hbase as Heq. subst baseline.
    reflexivity.
Defined.

(** ** The alignment of the PID column *)

Lemma len_truncate indent display_name :
  len (truncate display_name (name_field_length indent))
  = Z.min (len display_name) (name_field_length indent).
Proof.
  pose proof (name_field_length_pos indent) as Hw.
  unfold truncate, choose_truncation, slice_to, len in *.
  repeat case_decide; try lia.
  - rewrite length_append, length_substring_0. cbn. lia.
  - rewrite length_substring_0. lia.
Qed.

Lemma length_spaces n : String.length (spaces n) = n.
Proof. induction n as [| n IH]; [done |]. cbn. by rewrite IH. Qed.

Lemma len_ljust s width : len (ljust s width) = Z.max (len s) width.
Proof.
  unfold ljust, len. rewrite length_append, length_spaces. lia.
Qed.

(** X22: the PID column of a process line starts right after the first
    [max(45, len(indent) + 1)] characters, whatever the name is: the text
    before it is the indentation and the name, cut or padded to the width
    of the field.  Down to 22 levels the column is where the header of the
    file has it, at 45; from 23 levels on, every level moves it two
    characters to the right. *)
Theorem pid_column_position indent display_name :
  len (name_cell indent display_name) = Z.max 45 (len indent + 1)
  ∧ (len indent ≤ 44 →
     len (name_cell indent display_name) = name_width_header)
  ∧ ∀ depth,
      len (name_cell (indentation depth) display_name)
      = if decide (depth ≤ 22)%nat then name_width_header
        else 2 * Z.of_nat depth + 1.
Proof.
  assert (Hlen : ∀ ind, len (name_cell ind display_name)
                        = Z.max 45 (len ind + 1)).
  { intros ind. pose proof (len_truncate ind display_name) as Hfit.
    unfold name_cell.
    unfold len at 1. rewrite length_append, Nat2Z.inj_add.
    fold (len ind).
    fold (len (ljust (truncate display_name (name_field_length ind))
                 (name_field_length ind))).
    rewrite len_ljust, Hfit. unfold name_field_length, len. lia. }
  split; [apply Hlen |]. split.
  - intros Hshort. rewrite Hlen. unfold name_width_header. lia.
  - intros depth. rewrite Hlen, len_indentation. unfold name_width_header.
    case_decide; lia.
Qed.

(** At 30 levels the column starts after 61 characters. *)
Example pid_column_deep :
  len (name_cell (indentation 30) "app.exe") = 61.
Proof. vm_compute. reflexivity. Qed.

(** ** The memory figure of a sample *)

(** X23: the memory figure of a sample of a collection that completed is
    0, or it is the resident set size an enumerated process of that pid
    reported, in whole KB rounded down.  When no reported size is negative
    no memory figure is. *)
Theorem sampled_memory_floor cpu_cores g procs primer st pid data :
  collect cpu_cores g (Ok procs) primer = Next st →
  current_snapshot_data st !! pid = Some data →
  (d_mem_ws_kb data = 0
   ∨ ∃ p rss, p ∈ procs ∧ pid_of p = Some pid ∧ memory_info p = Ok rss
              ∧ 1024 * d_mem_ws_kb data ≤ rss < 1024 * d_mem_ws_kb data + 1024)
  ∧ ((∀ p rss, p ∈ procs → memory_info p = Ok rss → 0 ≤ rss) →
     0 ≤ d_mem_ws_kb data).
Proof.
  intros Hcollect Hdata.
  assert (Hcases : d_mem_ws_kb data = 0
            ∨ ∃ p rss, p ∈ procs ∧ pid_of p = Some pid
                       ∧ memory_info p = Ok rss
                       ∧ d_mem_ws_kb data = rss `div` 1024).
  { destruct (collect_cache _ _ _ _ _ Hcollect) as (_ & Hsampled & Hother & _).
    destruct (not_enumerated_dec procs pid) as [Henum | Hnot].
    2: { destruct (Hother pid Hnot). congruence. }
    destruct (Hsampled pid Henum) as (data' & Hdata' & Hkind).
    assert (data' = data) as -> by congruence.
    case_decide.
    - destruct Hkind as (p & inf & snap & Hp & Hinf & Hpid & ->).
      rewrite fetch_resources_mem. unfold fetch_mem.
      destruct (memory_info p) as [rss | e] eqn:Hmem; [| by left].
      right. exists p, rss. split; [done |].
      split; [unfold pid_of; by rewrite Hinf |]. done.
    - left. by destruct Hkind as (p & inf & _ & _ & _ & ->). }
  split.
  - destruct Hcases as [? | (p & rss & Hp & Hpid & Hmem & ->)]; [by left |].
    right. exists p, rss. split; [done |]. split; [done |]. split; [done |].
    pose proof (Z.div_mod rss 1024). pose proof (Z.mod_pos_bound rss 1024).
    lia.
  - intros Hnonneg.
    destruct Hcases as [-> | (p & rss & Hp & _ & Hmem & ->)]; [done |].
    apply Z.div_pos; [by eapply Hnonneg | lia].
Qed.

(** 4096 bytes are 4 KB; 5000 bytes are 4 KB too. *)
Lemma sampled_memory_floor_witness :
  ∃ st data,
    collect 4 fresh_globals (Ok [healthy 5 (Some 1) 8 5000 (io 0 0)]) silent
    = Next st
    ∧ current_snapshot_data st !! 5 = Some data
    ∧ 0 ≤ d_mem_ws_kb data.
Proof.
  destruct (collect 4 fresh_globals
              (Ok [healthy 5 (Some 1) 8 5000 (io 0 0)]) silent)
    as [st | e st] eqn:Hcollect;
    [| exfalso; vm_compute in Hcollect; discriminate].
  destruct (current_snapshot_data st !! 5) as [data |] eqn:Hdata.
  2: { exfalso. vm_compute in Hcollect. injection Hcollect as Heq.
       subst st. vm_compute in Hdata. discriminate. }
  exists st, data. split; [done |]. split; [done |].
  destruct (sampled_memory_floor 4 fresh_globals _ silent st 5 data
              Hcollect Hdata) as [_ Hnonneg].
  apply Hnonneg.
  intros p rss ->%list_elem_of_singleton [= <-]. lia.
Defined.

(** ** The order in which a dict or a set is listed *)

Lemma sorted_Permutation l1 l2 : l1 ≡ₚ l2 → sorted l1 = sorted l2.
Proof.
  intros Hperm. apply (Sorted_unique Z.le); [apply sorted_Sorted.. |].
  unfold sorted. by rewrite !merge_sort_Permutation.
Qed.

Lemma for_children_ext call1 call2 pids children_total :
  (∀ c, call1 c = call2 c) →
  for_children call1 pids children_total
  = for_children call2 pids children_total.
Proof.
  intros Hcall. revert children_total.
  induction pids as [| c pids IH]; intros acc; cbn; [done |].
  rewrite Hcall. destruct (call2 c) as [written [t | |]]; [| done..].
  by rewrite IH.
Qed.

(** Two maps of children whose lists hold the same pids give the same
    lines and totals. *)
Lemma log_process_tree_children_perm snapshot_data children1 children2 fuel
    pid indent :
  (∀ pp, default [] (children1 !! pp) ≡ₚ default [] (children2 !! pp)) →
  log_process_tree fuel snapshot_data children1 pid indent
  = log_process_tree fuel snapshot_data children2 pid indent.
Proof.
  intros Hperm. revert pid indent.
  induction fuel as [| fuel IH]; intros pid indent; [done |].
  cbn. destruct (snapshot_data !! pid) as [data |]; [| done]. cbn zeta.
  assert (Hvalid : valid_children_pids snapshot_data children1 pid
                   ≡ₚ valid_children_pids snapshot_data children2 pid).
  { unfold valid_children_pids. by rewrite (Hperm pid). }
  rewrite (sorted_Permutation _ _ Hvalid).
  rewrite (for_children_ext _
             (λ child_pid,
                log_process_tree fuel snapshot_data children2 child_pid
                  (indent +:+ INDENT_STRING))) by (intros c; apply IH).
  destruct (for_children _ _ _) as [written [children_total | |]]; [| done..].
  unfold format_line, display_name.
  assert (Hlen : length (valid_children_pids snapshot_data children1 pid)
                 = length (valid_children_pids snapshot_data children2 pid))
    by (by rewrite Hvalid).
  destruct (d_name data), (d_status data); try done.
  destruct (valid_children_pids snapshot_data children1 pid) as [| c1 l1],
    (valid_children_pids snapshot_data children2 pid) as [| c2 l2];
    try done.
  by rewrite Hlen.
Qed.

(** X24: the block of a snapshot does not depend on the order in which
    the dict of samples is listed.  Whatever the order of the items the
    forest loop goes through, it finds the same root candidates, the same
    children for every parent up to their order, and [log_process_tree]
    writes the same lines and returns the same totals with its map of
    children: the lists are sorted before they are used.  The pids that
    carry a target name are the same too. *)
Theorem forest_order_irrelevant snapshot_data items :
  items ≡ₚ map_to_list snapshot_data →
  (foldl (forest_step (dom snapshot_data)) (∅, ∅) items).2
  = root_candidates snapshot_data
  ∧ (∀ pp,
       default [] ((foldl (forest_step (dom snapshot_data)) (∅, ∅) items).1
                   !! pp)
       ≡ₚ default [] (children_map snapshot_data !! pp))
  ∧ (∀ fuel pid indent,
       log_process_tree fuel snapshot_data
         (foldl (forest_step (dom snapshot_data)) (∅, ∅) items).1 pid indent
       = log_process_tree fuel snapshot_data (children_map snapshot_data)
           pid indent)
  ∧ ∀ lower target_lower,
      match foldl (target_step lower target_lower) (Returned ∅) items,
            target_pids_found lower target_lower snapshot_data with
      | Returned found1, Returned found2 => found1 = found2
      | Raised, Raised => True
      | _, _ => False
      end.
Proof.
  intros Hperm.
  assert (Hchildren : ∀ pp,
            default [] ((foldl (forest_step (dom snapshot_data)) (∅, ∅)
                           items).1 !! pp)
            ≡ₚ default [] (children_map snapshot_data !! pp)).
  { intros pp. unfold children_map, build_forest.
    rewrite !forest_fold_children. by rewrite Hperm. }
  split; [| split; [done |]; split].
  - apply set_eq. intros pid. unfold root_candidates, build_forest.
    rewrite !forest_fold_roots.
    split; intros [? | (data & Hin & ?)]; [by left | right | by left | right];
      exists data; (split; [| done]); by rewrite ?Hperm in *.
  - intros fuel pid indent. by apply log_process_tree_children_perm.
  - intros lower target_lower. unfold target_pids_found.
    destruct (truthy target_lower) eqn:Htruthy.
    + pose proof (target_fold lower target_lower items ∅ Htruthy) as H1.
      pose proof (target_fold lower target_lower (map_to_list snapshot_data)
                    ∅ Htruthy) as H2.
      destruct (foldl (target_step lower target_lower) (Returned ∅) items)
        as [found1 | |],
        (foldl (target_step lower target_lower) (Returned ∅)
           (map_to_list snapshot_data)) as [found2 | |]; try done.
      * destruct H1 as [_ H1], H2 as [_ H2]. apply set_eq. intros pid.
        rewrite H1, H2. split; intros [? | (data & name & Hin & ?)];
          [by left | right | by left | right];
          exists data, name; (split; [| done]); by rewrite ?Hperm in *.
      * destruct H1 as [H1 _]. rewrite Hperm in H1.
        apply Exists_exists in H2 as (item & Hin & Hnone).
        rewrite Forall_forall in H1. destruct (H1 item Hin). congruence.
      * destruct H2 as [H2 _]. rewrite <- Hperm in H2.
        apply Exists_exists in H1 as (item & Hin & Hnone).
        rewrite Forall_forall in H2. destruct (H2 item Hin). congruence.
    + by rewrite !target_fold_falsy.
Qed.

(** The family listed backwards gives the same lines. *)
Lemma forest_order_irrelevant_witness :
  log_process_tree 3 family
    (foldl (forest_step (dom family)) (∅, ∅) (reverse (map_to_list family))).1
    1 ""
  = log_process_tree 3 family (children_map family) 1 "".
Proof.
  destruct (forest_order_irrelevant family (reverse (map_to_list family)))
    as (_ & _ & Hsame & _).
  - apply reverse_Permutation.
  - apply Hsame.
Defined.

Lemma tracing_from snapshot_data found queue :
  (∀ pid, pid ∈ found → is_Some (snapshot_data !! pid)) →
  (∀ pid, pid ∈ queue ↔ pid ∈ found) →
  tracing snapshot_data found queue found ∅.
Proof.
  intros Hsampled Hqueue. split; [done |]. split; [| split; [| split]].
  - intros pid. by rewrite Hqueue.
  - intros pid Hpid. split; [by apply Hsampled |].
    exists pid. split; [done |]. by exists 0%nat.
  - intros pid ?%not_elem_of_empty. done.
  - intros pid Hpid. left. by apply Hqueue.
Qed.

(** X25: the roots the resolver finds do not depend on the order in which
    the set of target pids is turned into the queue of the search: with
    fuel above three times the number of samples the walk from any listing
    of the targets ends with the same set of roots. *)
Theorem trace_order_irrelevant snapshot_data found queue fuel :
  (∀ pid, pid ∈ found → is_Some (snapshot_data !! pid)) →
  queue ≡ₚ elements found →
  (3 * size snapshot_data < fuel)%nat →
  ∃ roots,
    trace_roots fuel snapshot_data queue found ∅ = Some roots
    ∧ trace_roots fuel snapshot_data (elements found) found ∅ = Some roots
    ∧ ∀ pid, pid ∈ roots
             ↔ pid ∈ root_candidates snapshot_data
               ∧ ∃ target, target ∈ found ∧ above snapshot_data target pid.
Proof.
  intros Hsampled Hperm Hfuel.
  assert (Hbound : ∀ q, q ≡ₚ elements found →
            (2 * size (dom snapshot_data ∖ found) + length q < fuel)%nat).
  { intros q Hq. rewrite Hq.
    assert (found ⊆ dom snapshot_data) as Hsub.
    { intros pid Hpid. apply elem_of_dom. by apply Hsampled. }
    apply subseteq_size in Hsub.
    assert (size (dom snapshot_data ∖ found) ≤ size (dom snapshot_data))%nat
      by (apply subseteq_size; intros x [? _]%elem_of_difference; done).
    change (length (elements found)) with (size found).
    rewrite size_dom in *. lia. }
  destruct (trace_roots_tracing snapshot_data found fuel queue found ∅)
    as (visited1 & roots1 & Hrun1 & Hdone1).
  { apply tracing_from; [done |]. intros pid.
    by rewrite Hperm, elem_of_elements. }
  { by apply Hbound. }
  destruct (trace_roots_tracing snapshot_data found fuel (elements found)
              found ∅) as (visited2 & roots2 & Hrun2 & Hdone2).
  { apply tracing_from; [done |]. intros pid. by rewrite elem_of_elements. }
  { by apply Hbound. }
  assert (roots1 = roots2) as <-.
  { apply set_eq. intros pid.
    by rewrite (tracing_done _ _ _ _ _ Hdone1), (tracing_done _ _ _ _ _ Hdone2). }
  exists roots1. split; [done |]. split; [done |].
  intros pid. apply (tracing_done _ _ _ _ _ Hdone1).
Qed.

(** From the browser and the service of the desktop, in either order. *)
Lemma trace_order_irrelevant_witness :
  trace_roots 20 desktop [4; 3] {[3; 4]} ∅
  = trace_roots 20 desktop (elements ({[3; 4]} : gset Z)) {[3; 4]} ∅.
Proof.
  destruct (trace_order_irrelevant desktop {[3; 4]} [4; 3] 20)
    as (roots & -> & -> & _); [| | | done].
  - intros pid [->%elem_of_singleton | ->%elem_of_singleton]%elem_of_union;
      by eexists.
  - apply NoDup_Permutation.
    + exact (bool_decide_unpack (NoDup [4; 3]) I).
    + apply NoDup_elements.
    + intros x. rewrite elem_of_elements, elem_of_union, !elem_of_singleton,
        !elem_of_cons, elem_of_nil. tauto.
  - vm_compute. lia.
Defined.

(** ** A process that is enumerated once *)

Section once.
Context (cpu_cores : Z) (previous_io_counters : gmap Z pio).

Lemma acquire_ext cache1 cache2 pid p :
  (pid ∈ cache1 ↔ pid ∈ cache2) → acquire cache1 pid p = acquire cache2 pid p.
Proof.
  intros Hiff. unfold acquire.
  destruct (decide (pid ∈ cache1)), (decide (pid ∈ cache2)); tauto || done.
Qed.

Lemma fetch_resources_data pid inf p snapshot1 snapshot2 :
  (fetch_resources cpu_cores previous_io_counters pid inf p snapshot1).1
  = (fetch_resources cpu_cores previous_io_counters pid inf p snapshot2).1.
Proof.
  unfold fetch_resources.
  destruct (fetch_cpu _ _ _) as [c s1], (fetch_mem _ _) as [m s2].
  unfold fetch_io. destruct (io_counters p) as [current_io | e].
  - by destruct (previous_io_counters !! pid).
  - by destruct (io_specific e).
Qed.

(** What a pass through the loop body does for the pid of its process. *)
Lemma sample_process_at st p inf pid st' :
  info p = Some inf → info_pid inf = Some pid →
  sample_process cpu_cores previous_io_counters st p = Next st' →
  match acquire (process_objects_cache st) pid p with
  | Reused =>
      process_objects_cache st' = process_objects_cache st
      ∧ newly_cached_pids st' = newly_cached_pids st
      ∧ current_io_snapshot st'
        = (fetch_resources cpu_cores previous_io_counters pid inf p
             (current_io_snapshot st)).2
      ∧ current_snapshot_data st' !! pid
        = Some (fetch_resources cpu_cores previous_io_counters pid inf p
                  (current_io_snapshot st)).1
  | Fresh =>
      process_objects_cache st' = {[pid]} ∪ process_objects_cache st
      ∧ newly_cached_pids st' = newly_cached_pids st ++ [pid]
      ∧ current_io_snapshot st'
        = (fetch_resources cpu_cores previous_io_counters pid inf p
             (current_io_snapshot st)).2
      ∧ current_snapshot_data st' !! pid
        = Some (fetch_resources cpu_cores previous_io_counters pid inf p
                  (current_io_snapshot st)).1
  | Unavailable =>
      process_objects_cache st' = process_objects_cache st ∖ {[pid]}
      ∧ newly_cached_pids st' = newly_cached_pids st
      ∧ current_io_snapshot st' = current_io_snapshot st
      ∧ current_snapshot_data st' !! pid = Some (minimal_entry pid inf)
  | Escaped _ => False
  end.
Proof.
  intros Hinf Hpid. unfold sample_process. rewrite Hinf, Hpid. cbn.
  destruct (acquire (process_objects_cache st) pid p); [| | | done];
    intros [= <-]; unfold store_fetched; cbn;
    try destruct (fetch_resources _ _ _ _ _ _) as [data snap]; cbn;
    by rewrite lookup_insert_eq.
Qed.

(** A pass for another pid leaves what is kept for [pid] as it was. *)
Lemma sample_process_frame st p st' pid :
  pid_of p ≠ Some pid →
  sample_process cpu_cores previous_io_counters st p = Next st' →
  current_io_snapshot st' !! pid = current_io_snapshot st !! pid
  ∧ (pid ∈ newly_cached_pids st' ↔ pid ∈ newly_cached_pids st)
  ∧ (pid ∈ process_objects_cache st' ↔ pid ∈ process_objects_cache st)
  ∧ current_snapshot_data st' !! pid = current_snapshot_data st !! pid.
Proof.
  unfold pid_of, sample_process.
  destruct (info p) as [inf |]; cbn; [| by intros _ [= <-]].
  destruct (info_pid inf) as [pid' |]; cbn; [| by intros _ [= <-]].
  intros Hne. assert (pid' ≠ pid) by congruence.
  pose proof (fetch_resources_snapshot cpu_cores previous_io_counters pid' inf
                p (current_io_snapshot st)) as Hsnap.
  destruct (acquire (process_objects_cache st) pid' p); [| | | done];
    intros [= <-]; unfold store_fetched; cbn;
    try (destruct (fetch_resources _ _ _ _ _ _) as [data snap]; cbn in *;
         subst snap);
    rewrite ?lookup_insert_ne by done.
  - split; [destruct (io_counters p); by rewrite ?lookup_insert_ne |]. done.
  - split; [destruct (io_counters p); by rewrite ?lookup_insert_ne |].
    split; [| split; [| done]].
    + rewrite elem_of_app, list_elem_of_singleton. split; [| by left].
      intros [? | ?]; [done | congruence].
    + rewrite elem_of_union, elem_of_singleton. split; [| by right].
      intros [? | ?]; [congruence | done].
  - split; [done |]. split; [done |]. split; [| done].
    rewrite elem_of_difference, elem_of_singleton. split; [by intros [? _] |].
    intros ?. split; [done | congruence].
Qed.

Lemma sample_all_frame procs st st' pid :
  (∀ q, q ∈ procs → pid_of q ≠ Some pid) →
  sample_all cpu_cores previous_io_counters st procs = Next st' →
  current_io_snapshot st' !! pid = current_io_snapshot st !! pid
  ∧ (pid ∈ newly_cached_pids st' ↔ pid ∈ newly_cached_pids st)
  ∧ (pid ∈ process_objects_cache st' ↔ pid ∈ process_objects_cache st)
  ∧ current_snapshot_data st' !! pid = current_snapshot_data st !! pid.
Proof.
  revert st. induction procs as [| p procs IH]; intros st Hnot Hall;
    cbn in Hall; [by simplify_eq |].
  destruct (sample_process cpu_cores previous_io_counters st p)
    as [st1 | e st1] eqn:Hstep; [| done].
  destruct (sample_process_frame st p st1 pid) as (H1 & H2 & H3 & H4);
    [apply Hnot; left | done |].
  destruct (IH st1) as (I1 & I2 & I3 & I4);
    [intros q Hq; apply Hnot; by right | done |].
  rewrite I1, I2, I3, I4. done.
Qed.
End once.

Lemma sample_all_once cpu_cores previous_io_counters procs p pid inf st st' :
  enumerated_once procs p pid → info p = Some inf → info_pid inf = Some pid →
  sample_all cpu_cores previous_io_counters st procs = Next st' →
  match acquire (process_objects_cache st) pid p with
  | Reused =>
      current_snapshot_data st' !! pid
      = Some (fetch_resources cpu_cores previous_io_counters pid inf p ∅).1
      ∧ current_io_snapshot st' !! pid
        = match io_counters p with
          | Ok current_io => Some current_io
          | Raises _ => current_io_snapshot st !! pid
          end
      ∧ (pid ∈ newly_cached_pids st' ↔ pid ∈ newly_cached_pids st)
      ∧ (pid ∈ process_objects_cache st' ↔ pid ∈ process_objects_cache st)
  | Fresh =>
      current_snapshot_data st' !! pid
      = Some (fetch_resources cpu_cores previous_io_counters pid inf p ∅).1
      ∧ current_io_snapshot st' !! pid
        = match io_counters p with
          | Ok current_io => Some current_io
          | Raises _ => current_io_snapshot st !! pid
          end
      ∧ pid ∈ newly_cached_pids st'
      ∧ pid ∈ process_objects_cache st'
  | Unavailable =>
      current_snapshot_data st' !! pid = Some (minimal_entry pid inf)
      ∧ current_io_snapshot st' !! pid = current_io_snapshot st !! pid
      ∧ (pid ∈ newly_cached_pids st' ↔ pid ∈ newly_cached_pids st)
      ∧ pid ∉ process_objects_cache st'
  | Escaped _ => False
  end.
Proof.
  intros (_ & before & after & -> & Hnot) Hinf Hpid Hall.
  apply sample_all_app in Hall as (sta & Ha & Hb). cbn in Hb.
  destruct (sample_process cpu_cores previous_io_counters sta p)
    as [stb | e stb] eqn:Hstep; [| done].
  destruct (sample_all_frame cpu_cores previous_io_counters before st sta pid)
    as (A1 & A2 & A3 & A4);
    [intros q Hq; apply Hnot, elem_of_app; by left | done |].
  destruct (sample_all_frame cpu_cores previous_io_counters after stb st' pid)
    as (B1 & B2 & B3 & B4);
    [intros q Hq; apply Hnot, elem_of_app; by right | done |].
  pose proof (sample_process_at cpu_cores previous_io_counters sta p inf pid
                stb Hinf Hpid Hstep) as Hat.
  rewrite (acquire_ext _ _ pid p A3) in Hat.
  pose proof (fetch_resources_snapshot cpu_cores previous_io_counters pid inf
                p (current_io_snapshot sta)) as Hsnap.
  rewrite (fetch_resources_data cpu_cores previous_io_counters pid inf p
             (current_io_snapshot sta) ∅) in Hat.
  destruct (acquire (process_objects_cache st) pid p) eqn:Hacq; [| | | done].
  - destruct Hat as (C1 & C2 & C3 & C4).
    rewrite B4, B1, B2, B3, C4, C3, C2, C1, Hsnap, <- A1, A2, A3.
    split; [done |]. split; [| done].
    destruct (io_counters p); [by rewrite lookup_insert_eq | done].
  - destruct Hat as (C1 & C2 & C3 & C4).
    rewrite B4, B1, B2, B3, C4, C3, C2, C1, Hsnap, <- A1.
    split; [done |]. split; [| split].
    + destruct (io_counters p); [by rewrite lookup_insert_eq | done].
    + apply elem_of_app. right. left.
    + apply elem_of_union. left. by apply elem_of_singleton.
  - destruct Hat as (C1 & C2 & C3 & C4).
    rewrite B4, B1, B2, B3, C4, C3, C2, C1, <- A1, A2.
    split; [done |]. split; [done |]. split; [done |].
    rewrite elem_of_difference, elem_of_singleton. by intros [_ ?].
Qed.

(** The sample and the baseline a completed collection leaves for a
    process that is enumerated once. *)
Lemma collect_once cpu_cores g procs primer st p pid inf :
  collect cpu_cores g (Ok procs) primer = Next st →
  enumerated_once procs p pid → info p = Some inf → info_pid inf = Some pid →
  current_snapshot_data st !! pid
  = Some match acquire (g_process_objects_cache g) pid p with
         | Reused | Fresh =>
             (fetch_resources cpu_cores (g_previous_io_counters g) pid inf p
                ∅).1
         | Unavailable | Escaped _ => minimal_entry pid inf
         end
  ∧ current_io_snapshot st !! pid
    = baseline_of (g_process_objects_cache g) primer pid p.
Proof.
  intros (st1 & Hall & -> & _ & _ & _ & ->)%collect_Next Honce Hinf Hpid.
  rewrite prime_all_lookup.
  pose proof (sample_all_once _ _ _ _ _ _ _ _ Honce Hinf Hpid Hall) as H.
  unfold baseline_of, loop_counters, primed. cbn in H.
  destruct (acquire (g_process_objects_cache g) pid p); [| | | done].
  - destruct H as (-> & -> & Hnew & _). split; [done |].
    rewrite decide_False; [by destruct (io_counters p) |].
    intros [Hin _]. apply Hnew in Hin. by apply elem_of_nil in Hin.
  - destruct H as (-> & -> & Hnew & Hc). split; [done |].
    rewrite decide_True by done.
    destruct (prime_cpu_percent (primer pid)),
      (prime_io_counters (primer pid)), (io_counters p); done.
  - destruct H as (-> & -> & _ & Hc). split; [done |].
    by rewrite decide_False by (by intros [_ ?]).
Qed.

Lemma enumerated_once_info procs p pid :
  enumerated_once procs p pid →
  p ∈ procs ∧ ∃ inf, info p = Some inf ∧ info_pid inf = Some pid.
Proof.
  intros (Hpid & before & after & -> & _). split.
  - apply elem_of_app. right. left.
  - unfold pid_of in Hpid. destruct (info p) as [inf |]; [| done].
    by exists inf.
Qed.

(** ** The status of a sample *)

Lemma status_in_mono status (l1 l2 : list string) :
  l1 ⊆ l2 → status_in status l1 = true → status_in status l2 = true.
Proof.
  intros Hsub. destruct status as [s |]; [| done]. cbn.
  rewrite !bool_decide_eq_true. apply Hsub.
Qed.

(** The status after the three fetches, whatever the enumeration
    reported: the earliest failing handler assigns its annotation unless
    its guard keeps the reported status, and no later handler touches
    either. *)
Lemma status_after_fetches_exact cpu_cores previous_io_counters p status
    snapshot pid :
  (fetch_io previous_io_counters pid p
     (fetch_mem p (fetch_cpu cpu_cores p status).2).2 snapshot).1.2
  = match earliest_failure p with
    | Some category =>
        if status_in status (kept_over category) then status
        else Some category
    | None => status
    end.
Proof.
  unfold fetch_cpu, fetch_mem, fetch_io, earliest_failure.
  pose proof (status_in_mono status
                ["terminated"; "access denied"]
                ["terminated"; "access denied"; "cpu error"]) as M1.
  pose proof (status_in_mono status
                ["terminated"; "access denied"; "cpu error"]
                ["terminated"; "access denied"; "cpu error"; "mem error"])
    as M2.
  pose proof (status_in_mono status
                ["terminated"; "access denied"; "cpu error"; "mem error"]
                ["terminated"; "access denied"; "cpu error"; "mem error";
                 "io error"]) as M3.
  specialize (M1 ltac:(apply prefix_subseteq; by exists ["cpu error"])).
  specialize (M2 ltac:(apply prefix_subseteq; by exists ["mem error"])).
  specialize (M3 ltac:(apply prefix_subseteq; by exists ["io error"])).
  assert (K1 : kept_over "cpu error" = ["terminated"; "access denied"])
    by reflexivity.
  assert (K2 : kept_over "mem error"
               = ["terminated"; "access denied"; "cpu error"])
    by reflexivity.
  assert (K3 : kept_over "io error"
               = ["terminated"; "access denied"; "cpu error"; "mem error"])
    by reflexivity.
  assert (K4 : kept_over "fetch error"
               = ["terminated"; "access denied"; "cpu error"; "mem error";
                  "io error"])
    by reflexivity.
  revert M1 M2 M3.
  destruct (cpu_percent p) as [raw | e1], (memory_info p) as [rss | e2],
    (io_counters p) as [cur | e3]; cbn [fst snd];
    try destruct (previous_io_counters !! pid); cbn [fst snd];
    try destruct (io_specific e3); cbn [fst snd];
    rewrite ?K1, ?K2, ?K3, ?K4;
    destruct (status_in status ["terminated"; "access denied"]),
      (status_in status ["terminated"; "access denied"; "cpu error"]),
      (status_in status
         ["terminated"; "access denied"; "cpu error"; "mem error"]),
      (status_in status
         ["terminated"; "access denied"; "cpu error"; "mem error";
          "io error"]);
    intros M1 M2 M3;
    try discriminate (M1 eq_refl); try discriminate (M2 eq_refl);
    try discriminate (M3 eq_refl); reflexivity.
Qed.

(** C2, counterexample: the enumeration reports pid 8 as ['terminated'] and
    its CPU fetch fails; the guard of the handler keeps the reported status,
    which is none of the five failure annotations.  And when
    [psutil.Process] raises an [OSError] for pid 6, the exception leaves the
    loop: pid 6 gets no sample and the cycle writes nothing. *)
Lemma reported_status_kept :
  (∃ st' data,
     sample_process 4 ∅ empty_state (reported_terminated 8) = Next st'
     ∧ current_snapshot_data st' !! 8 = Some data
     ∧ earliest_failure (reported_terminated 8) = Some "cpu error"
     ∧ d_status data = Some "terminated"
     ∧ ¬ (∃ category, category ∈ failure_annotations
                      ∧ d_status data = Some category))
  ∧ (∃ st',
       sample_process 4 ∅ empty_state (unreachable 6) = Propagate OSError st'
       ∧ current_snapshot_data st' !! 6 = None
       ∧ (monitor_iteration 3 4 fresh_globals (Ok [unreachable 6]) silent).2
         = ([], Returned 0)).
Proof.
  split.
  - eexists _, _. split; [reflexivity |]. split; [reflexivity |].
    split; [reflexivity |]. split; [reflexivity |].
    intros (category & Hin & Heq). vm_compute in Heq.
    injection Heq as <-. unfold failure_annotations in Hin.
    repeat (apply elem_of_cons in Hin as [Hin | Hin]; [discriminate |]).
    by apply elem_of_nil in Hin.
  - eexists. split; [reflexivity |]. split; reflexivity.
Qed.

(** C2, amended: every enumerated process that carries a pid gets a sample,
    unless an exception other than NoSuchProcess and AccessDenied leaves the
    object lookup, and the sample stays in the snapshot for the rest of the
    loop.  When the object is unavailable all four metrics are zero, and
    the status is ['terminated'] when the enumeration reported none (it is
    the reported one otherwise).  When
    the object is obtained, each failed fetch leaves its metric at zero, and
    the status is the one the enumeration reported when no fetch fails or
    when the guard of the earliest failing handler keeps it; otherwise it is
    the annotation of the earliest failing fetch, one of ['cpu error'],
    ['mem error'], ['io error'], ['fetch error'], which no later failure
    replaces.  The handlers of the fetches never assign
    ['access denied']. *)
Theorem sample_first_failure_wins cpu_cores previous_io_counters st p inf pid :
  info p = Some inf → info_pid inf = Some pid →
  (∀ e, acquire (process_objects_cache st) pid p ≠ Escaped e) →
  ∃ st' data,
    sample_process cpu_cores previous_io_counters st p = Next st'
    ∧ current_snapshot_data st' !! pid = Some data
    ∧ (∀ rest st'',
         sample_all cpu_cores previous_io_counters st' rest = Next st'' →
         is_Some (current_snapshot_data st'' !! pid))
    ∧ (acquire (process_objects_cache st) pid p = Unavailable →
       d_cpu_percent data = 0%float ∧ d_mem_ws_kb data = 0
       ∧ d_delta_read_bytes data = 0 ∧ d_delta_write_bytes data = 0
       ∧ (info_status inf = Absent → d_status data = Some "terminated")
       ∧ d_status data
         = match info_status inf with
           | Absent => Some "terminated"
           | PyNone => None
           | Val status => Some status
           end)
    ∧ (obtained st pid p →
       (∀ e, cpu_percent p = Raises e → d_cpu_percent data = 0%float)
       ∧ (∀ e, memory_info p = Raises e → d_mem_ws_kb data = 0)
       ∧ (∀ e, io_counters p = Raises e →
          d_delta_read_bytes data = 0 ∧ d_delta_write_bytes data = 0)
       ∧ (∀ category, earliest_failure p = Some category →
          category ∈ ["cpu error"; "mem error"; "io error"; "fetch error"])
       ∧ d_status data
         = match earliest_failure p with
           | Some category =>
               if status_in (raw_status inf) (kept_over category)
               then raw_status inf else Some category
           | None => raw_status inf
           end
       ∧ (status_in (raw_status inf) annotations = false →
          d_status data
          = match earliest_failure p with
            | Some category => Some category
            | None => raw_status inf
            end)
       ∧ (d_status data = Some "access denied" →
          raw_status inf = Some "access denied")).
Proof.
  intros Hinfo Hpid Hesc.
  destruct (acquire (process_objects_cache st) pid p) as [| | | e] eqn:Hacq;
    [| | | by destruct (Hesc e)].
  1, 2: assert (Hobt : obtained st pid p) by (unfold obtained; rewrite Hacq; auto);
    destruct (sample_process_obtained cpu_cores previous_io_counters
                st p inf pid Hinfo Hpid Hobt) as (st' & Hstep & Hdata & _);
    exists st', (fetch_resources cpu_cores previous_io_counters pid inf p
                   (current_io_snapshot st)).1;
    (split; [done |]); (split; [done |]);
    (split; [intros rest st'' Hrest; eapply sample_all_keeps; [done |];
             by rewrite Hdata |]);
    (split; [done |]); intros _;
    rewrite fetch_resources_cpu, fetch_resources_mem, fetch_resources_status;
    destruct (fetch_resources_io cpu_cores previous_io_counters pid inf p
                (current_io_snapshot st)) as [-> ->];
    (split; [intros e He; unfold fetch_cpu; by rewrite He |]);
    (split; [intros e He; unfold fetch_mem; by rewrite He |]);
    (split; [intros e He; unfold fetch_io; rewrite He;
             by destruct (io_specific e) |]);
    (split; [apply earliest_failure_category |]);
    (split; [apply status_after_fetches_exact |]);
    (split; [apply status_after_fetches |]);
    rewrite status_after_fetches_exact;
    pose proof (earliest_failure_category p) as Hcat;
    (destruct (earliest_failure p) as [category |]; [| done]);
    (destruct (status_in (raw_status inf) (kept_over category)); [done |]);
    intros [= ->]; specialize (Hcat _ eq_refl);
    repeat (apply elem_of_cons in Hcat as [Hcat | Hcat]; [discriminate |]);
    by apply elem_of_nil in Hcat.
  destruct (sample_process_unavailable cpu_cores previous_io_counters
              st p inf pid Hinfo Hpid Hacq) as (st' & Hstep & Hdata & _).
  exists st', (minimal_entry pid inf).
  split; [done |]. split; [done |].
  split; [intros rest st'' Hrest; eapply sample_all_keeps; [done |];
          by rewrite Hdata |].
  split; [intros _; repeat split; cbn; try (by intros ->);
          by destruct (info_status inf) |].
  unfold obtained. rewrite Hacq. intros [? | ?]; done.
Qed.

(** A process whose memory fetch and I/O fetch both fail: the status is
    the memory annotation, the earlier of the two. *)
Lemma sample_first_failure_wins_witness :
  ∃ st' data,
    sample_process 4 ∅ empty_state (half_readable 9) = Next st'
    ∧ current_snapshot_data st' !! 9 = Some data
    ∧ d_status data = Some "mem error"
    ∧ d_mem_ws_kb data = 0.
Proof.
  destruct (sample_first_failure_wins 4 ∅ empty_state (half_readable 9)
              (info_of 9 (Some 4) "svc.exe" "running") 9)
    as (st' & data & Hstep & Hdata & _ & _ & Hobt).
  - reflexivity.
  - reflexivity.
  - intros e. vm_compute. discriminate.
  - exists st', data. split; [done |]. split; [done |].
    destruct Hobt as (_ & Hmem & _ & _ & Hstatus & _).
    + right. reflexivity.
    + split; [by rewrite Hstatus | by apply (Hmem AccessDenied)].
Defined.

(** ** The CPU share of a sample *)

(** C7, counterexample: psutil reports -8 for a process on four cores;
    the stored share is -2, below 0. *)
Lemma negative_share_stored :
  ∃ st data,
    collect 4 fresh_globals
      (Ok [healthy 5 (Some 1) (-8) 4096 (io 0 0)]) silent = Next st
    ∧ current_snapshot_data st !! 5 = Some data
    ∧ (0 <=? d_cpu_percent data)%float = false.
Proof.
  eexists _, _. split; [vm_compute; reflexivity |].
  split; [vm_compute; reflexivity |]. reflexivity.
Qed.

(** C7, amended: the CPU share stored for a process is the smaller of 100
    and the reported percentage divided by the core count when the object
    is obtained and the fetch returns, and 0 when the fetch fails or the
    object is unavailable.  So every stored share is at most 100.  There is
    no clamp from below: the share is at least 0 when the scaled value of
    every process whose CPU fetch succeeds is. *)
Theorem cpu_share_capped cpu_cores g procs primer st :
  collect cpu_cores g (Ok procs) primer = Next st →
  (∀ p pid,
     enumerated_once procs p pid →
     ∃ data,
       current_snapshot_data st !! pid = Some data
       ∧ d_cpu_percent data
         = match acquire (g_process_objects_cache g) pid p, cpu_percent p with
           | (Reused | Fresh), Ok raw_cpu_total_cores =>
               py_min 100 (scaled_cpu raw_cpu_total_cores cpu_cores)
           | _, _ => 0%float
           end
       ∧ (d_cpu_percent data <=? 100)%float = true
       ∧ ((∀ raw_cpu_total_cores,
             cpu_percent p = Ok raw_cpu_total_cores →
             (0 <=? scaled_cpu raw_cpu_total_cores cpu_cores)%float = true) →
          (0 <=? d_cpu_percent data)%float = true))
  ∧ (∀ raw_cpu_total_cores,
       0 < cpu_cores →
       py_min 100 (scaled_cpu raw_cpu_total_cores cpu_cores)
       = if (raw_cpu_total_cores / float_of_Z cpu_cores <? 100)%float
         then (raw_cpu_total_cores / float_of_Z cpu_cores)%float
         else 100%float)
  ∧ (∀ pid data,
       current_snapshot_data st !! pid = Some data →
       (∃ p, p ∈ procs ∧ pid_of p = Some pid
             ∧ (d_cpu_percent data = 0%float
                ∨ ∃ raw_cpu_total_cores,
                    cpu_percent p = Ok raw_cpu_total_cores
                    ∧ d_cpu_percent data
                      = py_min 100 (scaled_cpu raw_cpu_total_cores cpu_cores)))
       ∧ (d_cpu_percent data <=? 100)%float = true
       ∧ ((∀ p raw, p ∈ procs → cpu_percent p = Ok raw →
             (0 <=? scaled_cpu raw cpu_cores)%float = true) →
          (0 <=? d_cpu_percent data)%float = true)).
Proof.
  intros Hcollect. split; [| split].
  - intros p pid Honce.
    destruct (enumerated_once_info _ _ _ Honce) as (_ & inf & Hinf & Hpid).
    destruct (collect_once _ _ _ _ _ _ _ _ Hcollect Honce Hinf Hpid)
      as [Hdata _].
    eexists. split; [exact Hdata |].
    destruct (acquire (g_process_objects_cache g) pid p);
      rewrite ?fetch_resources_cpu; unfold fetch_cpu;
      destruct (cpu_percent p) as [raw | failure];
      cbn [fst d_cpu_percent minimal_entry];
      (split; [done |]); (split; [by apply py_min_le_100 || done |]);
      intros Hpos; try done; by apply py_min_nonneg, Hpos.
  - intros raw Hpos. unfold py_min, scaled_cpu.
    by rewrite decide_True by done.
  - intros pid data Hdata.
    apply collect_Next in Hcollect as (st1 & Hall & Hcsd & _).
    rewrite Hcsd in Hdata.
    destruct (sample_all_produced _ _ _ _ _ _ _ Hall Hdata)
      as [Hold | (p & inf & Hp & Hinfo & Hpid & [-> | [snapshot ->]])].
    + cbn in Hold. by rewrite lookup_empty in Hold.
    + split; [| done]. exists p. unfold pid_of. rewrite Hinfo.
      split; [done |]. split; [done |]. by left.
    + rewrite fetch_resources_cpu. unfold fetch_cpu.
      destruct (cpu_percent p) as [raw | e] eqn:Hcpu; cbn.
      * split; [| split].
        -- exists p. unfold pid_of. rewrite Hinfo. split; [done |].
           split; [done |]. right. by exists raw.
        -- apply py_min_le_100.
        -- intros Hpos. apply py_min_nonneg. by apply Hpos with p.
      * split; [| done]. exists p. unfold pid_of. rewrite Hinfo.
        split; [done |]. split; [done |]. by left.
Qed.

(** A process that uses 10 percent of a machine with four cores has a
    share of 2.5; one that keeps ten cores busy has a share of 100. *)
Lemma cpu_share_capped_witness :
  (∃ st data,
     collect 4 fresh_globals
       (Ok [healthy 5 (Some 1) 10 4096 (io 0 0)]) silent = Next st
     ∧ current_snapshot_data st !! 5 = Some data
     ∧ d_cpu_percent data = 2.5%float)
  ∧ (∃ st data,
       collect 4 fresh_globals
         (Ok [healthy 5 (Some 1) 1000 4096 (io 0 0)]) silent = Next st
       ∧ current_snapshot_data st !! 5 = Some data
       ∧ d_cpu_percent data = 100%float).
Proof.
  split.
  - destruct (collect 4 fresh_globals
                (Ok [healthy 5 (Some 1) 10 4096 (io 0 0)]) silent)
      as [st | e st] eqn:Hcollect; [| vm_compute in Hcollect; discriminate].
    destruct (cpu_share_capped 4 fresh_globals
                [healthy 5 (Some 1) 10 4096 (io 0 0)] silent st Hcollect)
      as (Hexact & _ & _).
    destruct (Hexact (healthy 5 (Some 1) 10 4096 (io 0 0)) 5)
      as (data & Hdata & Hshare & _).
    { split; [reflexivity |]. exists [], []. split; [reflexivity |].
      intros q Hq. by apply elem_of_nil in Hq. }
    exists st, data. split; [done |]. split; [done |].
    rewrite Hshare. vm_compute. reflexivity.
  - destruct (collect 4 fresh_globals
                (Ok [healthy 5 (Some 1) 1000 4096 (io 0 0)]) silent)
      as [st | e st] eqn:Hcollect; [| vm_compute in Hcollect; discriminate].
    destruct (cpu_share_capped 4 fresh_globals
                [healthy 5 (Some 1) 1000 4096 (io 0 0)] silent st Hcollect)
      as (Hexact & _ & _).
    destruct (Hexact (healthy 5 (Some 1) 1000 4096 (io 0 0)) 5)
      as (data & Hdata & Hshare & _).
    { split; [reflexivity |]. exists [], []. split; [reflexivity |].
      intros q Hq. by apply elem_of_nil in Hq. }
    exists st, data. split; [done |]. split; [done |].
    rewrite Hshare. vm_compute. reflexivity.
Defined.

(** ** The counter cache after a cycle *)

(** C8, counterexample: pid 99 is gone, pid 5 is alive and its counters
    are fetched, and the lookup of pid 6 raises an [OSError].  The cycle is
    abandoned: the cache still holds the entry of pid 99 and has none for
    pid 5. *)
Lemma abandoned_cycle_keeps_cache :
  ∃ st,
    collect 4 stale_globals
      (Ok [healthy 5 (Some 1) 8 4096 (io 800 700); unreachable 6]) silent
    = Propagate OSError st
    ∧ current_io_snapshot st !! 5 = Some (io 800 700)
    ∧ g_previous_io_counters
        (monitor_iteration 3 4 stale_globals
           (Ok [healthy 5 (Some 1) 8 4096 (io 800 700); unreachable 6])
           silent).1 !! 99 = Some (io 1 1)
    ∧ g_previous_io_counters
        (monitor_iteration 3 4 stale_globals
           (Ok [healthy 5 (Some 1) 8 4096 (io 800 700); unreachable 6])
           silent).1 !! 5 = None.
Proof.
  eexists. split; [vm_compute; reflexivity |].
  split; [reflexivity |]. split; reflexivity.
Qed.

(** C8, amended: when the collection of a cycle completes, the
    previous-counters cache of the next cycle is the I/O snapshot of this
    one.  A process that is enumerated once has there exactly the baseline
    of this cycle: the counters of the priming block when its object was
    created in this cycle and both priming calls return, the counters the
    main loop fetched otherwise, and no entry when neither fetch returned
    any.  Each entry belongs to a pid enumerated in this cycle and holds
    counters fetched in this cycle; a pid that was not enumerated has no
    entry; and the new cache is the same whatever the old cache held.  When
    the cycle is abandoned the cache stays as it was. *)
Theorem counter_cache_replaced fuel cpu_cores g process_iter primer :
  (∀ procs st,
     process_iter = Ok procs →
     collect cpu_cores g process_iter primer = Next st →
     (monitor_iteration fuel cpu_cores g process_iter primer).1
     = update_caches st
     ∧ g_previous_io_counters (update_caches st) = current_io_snapshot st
     ∧ (∀ p pid,
          enumerated_once procs p pid →
          g_previous_io_counters (update_caches st) !! pid
          = baseline_of (g_process_objects_cache g) primer pid p)
     ∧ (∀ pid counters,
          g_previous_io_counters (update_caches st) !! pid = Some counters →
          pid ∈ pids_found_this_iter st
          ∧ (∃ p, p ∈ procs ∧ pid_of p = Some pid)
          ∧ ((∃ p, p ∈ procs ∧ pid_of p = Some pid
                   ∧ io_counters p = Ok counters)
             ∨ prime_io_counters (primer pid) = Ok counters))
     ∧ (∀ pid, (∀ p, p ∈ procs → pid_of p ≠ Some pid) →
          g_previous_io_counters (update_caches st) !! pid = None)
     ∧ (∀ older,
          ∃ st',
            collect cpu_cores
              {| g_previous_io_counters := older;
                 g_process_objects_cache := g_process_objects_cache g;
                 g_current_snapshot_data := g_current_snapshot_data g |}
              process_iter primer = Next st'
            ∧ g_previous_io_counters (update_caches st')
              = g_previous_io_counters (update_caches st)))
  ∧ (∀ e st,
       collect cpu_cores g process_iter primer = Propagate e st →
       g_previous_io_counters
         (monitor_iteration fuel cpu_cores g process_iter primer).1
       = g_previous_io_counters g).
Proof.
  split.
  - intros procs st -> Hcollect. split; [| split; [| split; [| split; [| split]]]].
    + unfold monitor_iteration. by rewrite Hcollect.
    + done.
    + intros p pid Honce.
      destruct (enumerated_once_info _ _ _ Honce) as (_ & inf & Hinf & Hpid).
      by destruct (collect_once _ _ _ _ _ _ _ _ Hcollect Honce Hinf Hpid).
    + intros pid counters Hlookup. cbn in Hlookup.
      destruct (collect_io_snapshot _ _ _ _ _ _ _ Hcollect Hlookup)
        as [Henum Hfetched].
      split; [| done].
      apply collect_Next in Hcollect as (st1 & Hall & _ & _ & -> & _).
      apply (sample_all_pids_found _ _ _ _ _ pid) in Hall. apply Hall.
      by right.
    + intros pid Hnot. cbn.
      destruct (current_io_snapshot st !! pid) as [counters |] eqn:Hlookup;
        [| done].
      destruct (collect_io_snapshot _ _ _ _ _ _ _ Hcollect Hlookup)
        as [(p & Hp & Hpid) _].
      by destruct (Hnot p Hp).
    + intros older. unfold collect in *. cbn.
      pose proof (sample_all_same_caches cpu_cores (g_previous_io_counters g)
                    older procs (start_iteration g) (start_iteration g))
        as Hsame.
      change (start_iteration
                {| g_previous_io_counters := older;
                   g_process_objects_cache := g_process_objects_cache g;
                   g_current_snapshot_data := g_current_snapshot_data g |})
        with (start_iteration g).
      destruct (sample_all cpu_cores (g_previous_io_counters g) _ procs)
        as [st1 | e st1]; [| done].
      destruct (sample_all cpu_cores older _ procs) as [st2 | e st2];
        [| by destruct Hsame].
      destruct Hsame as (Hcache & Hio & Hfound & Hnew); [done |].
      rewrite (surjective_pairing (prime_all _ _ _ _ _)) in Hcollect.
      rewrite (surjective_pairing (prime_all primer _ older _ _)).
      simplify_eq. eexists. split; [done |]. cbn.
      rewrite <- Hcache, <- Hio, <- Hnew.
      apply prime_all_previous_irrelevant.
  - intros e st Hcollect. unfold monitor_iteration. by rewrite Hcollect.
Qed.

(** Pid 99 is gone and pid 5 is alive: the new cache has the counters
    fetched for 5 and nothing for 99. *)
Lemma counter_cache_replaced_witness :
  g_previous_io_counters
    (monitor_iteration 3 4 stale_globals
       (Ok [healthy 5 (Some 1) 8 4096 (io 800 700)]) silent).1 !! 5
  = Some (io 800 700)
  ∧ g_previous_io_counters
      (monitor_iteration 3 4 stale_globals
         (Ok [healthy 5 (Some 1) 8 4096 (io 800 700)]) silent).1 !! 99
    = None.
Proof.
  destruct (collect 4 stale_globals
              (Ok [healthy 5 (Some 1) 8 4096 (io 800 700)]) silent)
    as [st | e st] eqn:Hcollect; [| vm_compute in Hcollect; discriminate].
  destruct (counter_cache_replaced 3 4 stale_globals
              (Ok [healthy 5 (Some 1) 8 4096 (io 800 700)]) silent)
    as [Hdone _].
  destruct (Hdone _ st eq_refl Hcollect) as (-> & _ & Hexact & _ & Hevict & _).
  split.
  - rewrite (Hexact (healthy 5 (Some 1) 8 4096 (io 800 700)) 5); [reflexivity |].
    split; [reflexivity |]. exists [], []. split; [reflexivity |].
    intros q Hq. by apply elem_of_nil in Hq.
  - apply Hevict. intros p [-> | []%elem_of_nil]%elem_of_cons. discriminate.
Defined.

(** C4, counterexample: pid 5 is seen for the first time; the main loop
    fetches a read counter of 123456789, the priming block fetches
    123456999 a moment later, and it is the second the next cycle starts
    from. *)
Lemma primed_counters_replace_fetched :
  ∃ st,
    collect 4 fresh_globals
      (Ok [healthy 5 (Some 1) 8 4096 (io 123456789 700)])
      (steady (io 123456999 700)) = Next st
    ∧ io_counters (healthy 5 (Some 1) 8 4096 (io 123456789 700))
      = Ok (io 123456789 700)
    ∧ g_previous_io_counters (update_caches st) !! 5
      = Some (io 123456999 700)
    ∧ g_previous_io_counters (update_caches st) !! 5
      ≠ Some (io 123456789 700).
Proof.
  eexists. split; [vm_compute; reflexivity |]. split; [reflexivity |].
  split; [reflexivity |]. discriminate.
Qed.

(** C4, amended: a process enumerated in a cycle whose pid has no entry in
    the previous-counters cache gets a sample with both I/O deltas at 0,
    whatever its counters are.  When it is enumerated once, the baseline the
    next cycle starts from is: the counters the priming block fetched, when
    the object was created in this cycle and both priming calls return; the
    counters the main loop fetched otherwise; and none when the object is
    unavailable or when neither fetch returned any. *)
Theorem first_observation_zero_delta cpu_cores g procs primer st p pid :
  collect cpu_cores g (Ok procs) primer = Next st →
  p ∈ procs → pid_of p = Some pid →
  g_previous_io_counters g !! pid = None →
  (∃ data,
     current_snapshot_data st !! pid = Some data
     ∧ d_delta_read_bytes data = 0 ∧ d_delta_write_bytes data = 0)
  ∧ (enumerated_once procs p pid →
     g_previous_io_counters (update_caches st) !! pid
     = baseline_of (g_process_objects_cache g) primer pid p
     ∧ (acquire (g_process_objects_cache g) pid p = Fresh →
        ∀ primed_cpu primed_io,
          prime_cpu_percent (primer pid) = Ok primed_cpu →
          prime_io_counters (primer pid) = Ok primed_io →
          g_previous_io_counters (update_caches st) !! pid = Some primed_io)
     ∧ (acquire (g_process_objects_cache g) pid p = Reused →
        ∀ current_io,
          io_counters p = Ok current_io →
          g_previous_io_counters (update_caches st) !! pid = Some current_io)
     ∧ (acquire (g_process_objects_cache g) pid p = Fresh →
        (∀ primed_cpu primed_io,
           ¬ (prime_cpu_percent (primer pid) = Ok primed_cpu
              ∧ prime_io_counters (primer pid) = Ok primed_io)) →
        ∀ current_io,
          io_counters p = Ok current_io →
          g_previous_io_counters (update_caches st) !! pid = Some current_io)
     ∧ (acquire (g_process_objects_cache g) pid p = Unavailable →
        g_previous_io_counters (update_caches st) !! pid = None)).
Proof.
  intros Hcollect Hp Hpid_of Hfirst.
  pose proof Hcollect as (st1 & Hall & Hcsd & _ & _ & _ & Hsnap)%collect_Next.
  split.
  - destruct (sample_all_sampled _ _ _ _ _ _ _ Hall Hp Hpid_of) as [data Hdata].
    exists data. rewrite Hcsd. split; [done |].
    destruct (sample_all_produced _ _ _ _ _ _ _ Hall Hdata)
      as [Hold | (q & inf' & _ & _ & _ & [-> | [snapshot ->]])].
    + cbn in Hold. by rewrite lookup_empty in Hold.
    + done.
    + destruct (fetch_resources_io cpu_cores (g_previous_io_counters g)
                  pid inf' q snapshot) as [-> ->].
      unfold fetch_io. rewrite Hfirst.
      destruct (io_counters q) as [cur | e]; [done |].
      by destruct (io_specific e).
  - intros Honce.
    destruct (enumerated_once_info _ _ _ Honce) as (_ & inf & Hinf & Hpid).
    destruct (collect_once _ _ _ _ _ _ _ _ Hcollect Honce Hinf Hpid)
      as [_ Hbase].
    cbn. rewrite Hbase. split; [done |].
    unfold baseline_of, loop_counters.
    split; [| split; [| split]].
    + intros -> primed_cpu primed_io -> ->. done.
    + intros -> current_io ->. done.
    + intros -> Hnone current_io ->.
      destruct (prime_cpu_percent (primer pid)) as [c |] eqn:H1; [| done].
      destruct (prime_io_counters (primer pid)) as [i |] eqn:H2; [| done].
      by destruct (Hnone c i).
    + intros ->. done.
Qed.

(** A new process with a large read counter: the delta of its first
    cycle is 0 and the primed counters become its baseline. *)
Lemma first_observation_zero_delta_witness :
  ∃ st data,
    collect 4 fresh_globals
      (Ok [healthy 5 (Some 1) 8 4096 (io 123456789 700)])
      (steady (io 123456999 700)) = Next st
    ∧ current_snapshot_data st !! 5 = Some data
    ∧ d_delta_read_bytes data = 0
    ∧ g_previous_io_counters (update_caches st) !! 5
      = Some (io 123456999 700).
Proof.
  destruct (collect 4 fresh_globals
              (Ok [healthy 5 (Some 1) 8 4096 (io 123456789 700)])
              (steady (io 123456999 700)))
    as [st | e st] eqn:Hcollect; [| vm_compute in Hcollect; discriminate].
  destruct (first_observation_zero_delta 4 fresh_globals
              [healthy 5 (Some 1) 8 4096 (io 123456789 700)]
              (steady (io 123456999 700)) st
              (healthy 5 (Some 1) 8 4096 (io 123456789 700)) 5 Hcollect)
    as [(data & Hdata & Hread & _) Hbase].
  - left.
  - reflexivity.
  - reflexivity.
  - exists st, data. split; [done |]. split; [done |]. split; [done |].
    destruct Hbase as (-> & _); [| reflexivity].
    split; [reflexivity |]. exists [], []. split; [reflexivity |].
    intros q Hq. by apply elem_of_nil in Hq.
Defined.
